(** * CLMS_downloader: the HR-S&I catalogue client

    A shallow embedding of [PythonAPI/CLMS_downloader.py]: the query builder
    ([build_request]), the paginated search ([execute_request],
    [request_page], [read_hrsi_feature]), the token exchange
    ([__get_token__]) and the download loop ([download],
    [download_with_curl]), followed by the properties of each.

    Conventions of the embedding.
    - A Python [str] is a [string]; a character is read as the code point
      of the same number (0..255).
    - A command given to [subprocess] is kept as the text of the command
      line, as the script hands it to the shell; what the shell makes of
      the text is not part of the embedding.
    - A Python exception is a value of [exn]; a computation is a function
      from the program state to a result ([Ok v] or [Raise e]) and the new
      state.  A raise keeps the effects that happened before it.
    - What the outside world answers (catalogue pages, the token endpoint,
      [curl]) is given by a [world] value, a parameter of every run.
    - Every [logging] call, network call and sleep is appended to the
      [events] of the state, in program order. *)

From Stdlib Require Import ZArith Ascii String List Lia Bool.
From stdpp Require Import base option list strings gmap sets pretty.
From Equations Require Import Equations.

Local Open Scope string_scope.
Local Open Scope list_scope.

(** ** Text: the [str] methods the script uses *)

Module Text.

(** [str.isspace] on one character: TAB, LF, VT, FF, CR, the separators
    FS, GS, RS, US, the space, NEL and the no-break space. *)
Definition is_space (c : ascii) : bool :=
  let n := nat_of_ascii c in
  (((9 <=? n) && (n <=? 13)) || ((28 <=? n) && (n <=? 32))
   || (n =? 133) || (n =? 160))%nat.

Fixpoint lstrip (s : string) : string :=
  match s with
  | "" => ""
  | String c s' => if is_space c then lstrip s' else s
  end.

Fixpoint rstrip (s : string) : string :=
  match s with
  | "" => ""
  | String c s' =>
      match rstrip s' with
      | "" => if is_space c then "" else String c ""
      | r => String c r
      end
  end.

(** [s.strip()] *)
Definition strip (s : string) : string := rstrip (lstrip s).

(** Python truth value of a [str]. *)
Definition nonempty (s : string) : bool :=
  match s with "" => false | _ => true end.

(** [c.upper()] for one character.  Among the code points 0..255
    [str.upper] changes the letters a..z, the letters 224..254 other than
    the division sign 247, and the sharp s 223, which becomes [SS]. *)
Definition upper_char (c : ascii) : string :=
  let n := nat_of_ascii c in
  if (((97 <=? n) && (n <=? 122))
      || ((224 <=? n) && (n <=? 254) && negb (n =? 247)))%nat
  then String (ascii_of_nat (n - 32)) ""
  else if (n =? 223)%nat then "SS"
  else String c "".

(** The upper-case letters of the micro sign 181 and of the y with
    diaeresis 255 are the code points 924 and 376: a text with one of
    them has no upper-cased text among the texts of code points 0..255,
    and [upper] is the method [str.upper] for the other texts only. *)
Definition has_upper (c : ascii) : bool :=
  let n := nat_of_ascii c in
  (negb (n =? 181) && negb (n =? 255))%nat.

Fixpoint map_chars (f : ascii -> ascii) (s : string) : string :=
  match s with
  | "" => ""
  | String c s' => String (f c) (map_chars f s')
  end.

(** [s.upper()], for a text whose characters all satisfy [has_upper]. *)
Fixpoint upper (s : string) : string :=
  match s with
  | "" => ""
  | String c s' => upper_char c +:+ upper s'
  end.

(** [s.replace(a, b)] for one-character [a] and [b]. *)
Definition replace (a b : ascii) : string -> string :=
  map_chars (fun c => if Ascii.eqb c a then b else c).

(** [s.split(sep)] for a non-empty separator: cut at every occurrence
    of [sep], scanning from the left, occurrences not overlapping.
    [skip] counts the characters of a separator still to pass over. *)
Fixpoint split_go (sep : string) (skip : nat) (s : string) : list string :=
  match s with
  | "" => [""]
  | String c s' =>
      match skip with
      | S k => split_go sep k s'
      | O =>
          if String.prefix sep s
          then "" :: split_go sep (String.length sep - 1) s'
          else match split_go sep 0 s' with
               | field :: fields => String c field :: fields
               | [] => [String c ""]
               end
      end
  end.

Definition split (sep s : string) : list string := split_go sep 0 s.

(** [sep.join(l)] *)
Fixpoint join (sep : string) (l : list string) : string :=
  match l with
  | [] => ""
  | [x] => x
  | x :: l' => x +:+ sep +:+ join sep l'
  end.

(** [l[-1]] of a non-empty list; [split] never returns an empty one. *)
Definition last_field (l : list string) : string := List.last l "".

(** [l[0]] of the list a [split] returns. *)
Definition first_field (l : list string) : string := List.hd "" l.

(** [s.endswith(suf)] *)
Definition endswith (suf s : string) : bool :=
  String.prefix (String.rev suf) (String.rev s).

Definition LF : ascii := ascii_of_nat 10.
Definition CR : ascii := ascii_of_nat 13.

(** What a text-mode [open(path)] hands out: CR LF and a lone CR are
    read as LF. *)
Fixpoint universal_newlines (s : string) : string :=
  match s with
  | "" => ""
  | String c s' =>
      if Ascii.eqb c CR then
        match s' with
        | String c' s'' =>
            if Ascii.eqb c' LF then universal_newlines s'
            else String LF (universal_newlines s')
        | "" => String LF ""
        end
      else String c (universal_newlines s')
  end.

(** Cut a text after every LF, each line keeping its LF; a last line
    without LF is kept as it is. *)
Fixpoint lines (s : string) : list string :=
  match s with
  | "" => []
  | String c s' =>
      if Ascii.eqb c LF then String c "" :: lines s'
      else match lines s' with
           | line :: rest => String c line :: rest
           | [] => [String c ""]
           end
  end.

(** [f.readlines()] on a file whose bytes are [content]. *)
Definition readlines (content : string) : list string :=
  lines (universal_newlines content).

(** [f.readline()] right after [open]. *)
Definition readline (content : string) : string :=
  List.hd "" (readlines content).

End Text.

(** ** Values, exceptions, events *)

(** A decoded JSON document.  An object is the list of its members in
    document order; [JNum] carries the integral numbers. *)
#[local] Unset Elimination Schemes.
Inductive json :=
| JNull
| JBool (b : bool)
| JNum (n : Z)
| JStr (s : string)
| JArr (items : list json)
| JObj (members : list (string * json)).
#[local] Set Elimination Schemes.

(** A [dict] whose keys and values are text, in insertion order. *)
Abbreviation dict := (list (string * string)).

Fixpoint dict_get {V} (key : string) (d : list (string * V)) : option V :=
  match d with
  | [] => None
  | (k, v) :: d' => if String.eqb k key then Some v else dict_get key d'
  end.

(** [d[key] = v]: an existing key keeps its place. *)
Fixpoint dict_set {V} (key : string) (v : V) (d : list (string * V))
  : list (string * V) :=
  match d with
  | [] => [(key, v)]
  | (k, v') :: d' =>
      if String.eqb k key then (k, v) :: d' else (k, v') :: dict_set key v d'
  end.

(** [d.update(other)] *)
Definition dict_update {V} (d other : list (string * V)) : list (string * V) :=
  fold_left (fun acc kv => dict_set (fst kv) (snd kv) acc) other d.

Definition dict_keys {V} (d : list (string * V)) : list string := map fst d.

(** The exceptions the script raises or lets through. *)
Inductive exn :=
| KeyError (key : string)
| NameError (name : string)
| TypeError
| IndexError
| ValueError (text : string)
| AssertionError
| MissingEntry (feature_index : nat) (json_param : string) (json_root : json)
  (* the [Exception] of [read_json_param] *)
| SystemExit (code : Z)
| CalledProcessError
| SyntaxError
| OSError
| RequestException
| JSONDecodeError.

(** The status the process ends with on [SystemExit(code)]. *)
Definition exit_status (code : Z) : Z := code mod 256.

Inductive level := DEBUG | INFO | WARNING | ERROR.

(** One constructor per [logging] call of the script; the wall-clock
    duration in [Downloaded] is left out. *)
Inductive msg :=
| QueryWillBeUsed (query : string)
| CredentialWillBeUsed (path : option string)
| ResultFileWillBeUsed (path : string)
| QueryParameters
| QueryParametersDict (url_params : dict)
| NoQueryParameters
| NoRequestConfigured
| Requesting (query : string)
| ProcessingPage (page_index : nat)
| FeaturesMissing (json_root : json) (url_params_page : json)
| DuplicatedProducts
| FoundProducts (count : nat)
| ListingResults (path : string)
| TokenError (out : dict)
| NoCredentialFile
| CredentialParseError (path : string)
| NoResultFile
| ResultFileParseError (path : string)
| Downloaded (hrsi_filepath : string)
| TryFailed (ntries : nat)
| Downloading (dl_filename url : string)
| ProductCount (total_count : nat)
| DLFilepath (hrsi_filepath : string)
| DLCommand (product_url hrsi_filepath : string)
| CreatingDirectory (path : string)
| ExistingDirectory (path : string)
| NoResultFileGiven
| StartDownloading
| DownloadingComplete
| NoProductsDownloaded
| TheEnd.

(** What the script does to the outside, one constructor per call site:
    a [logging] call, [requests.get(url)], the three [subprocess] calls
    with the command line they hand to the shell ([shell=True]), and
    [time.sleep]. *)
Inductive event :=
| Log (lv : level) (m : msg)
| HttpGet (url : string)
| TokenCall (command : string)
  (* [subprocess.check_output(command, shell=True)] in [__get_token__] *)
| HeadCall (command : string)
  (* [subprocess.check_output(command, shell=True)] in [download_with_curl] *)
| TransferCall (command : string)
  (* [subprocess.check_call(command, shell=True)] in [download_with_curl] *)
| Sleep (seconds : Z).

(** The double quote, as a text of one character. *)
Definition DQ : string := String (ascii_of_nat 34) "".

(** [" ".join(command)] for the five parts of [__get_token__]: the
    user name and the password are put between double quotes as they
    are. *)
Definition token_command (username password : string) : string :=
  Text.join " "
    ["curl -s -d " +:+ DQ +:+ "client_id=PUBLIC" +:+ DQ;
     "-d " +:+ DQ +:+ "username=" +:+ username +:+ DQ;
     "-d " +:+ DQ +:+ "password=" +:+ password +:+ DQ;
     "-d " +:+ DQ +:+ "grant_type=password" +:+ DQ;
     DQ +:+ "https://cryo.land.copernicus.eu/auth/realms/cryo/protocol/openid-connect/token"
        +:+ DQ].

(** ['curl -sI %s'%(product_url)] *)
Definition head_command (product_url : string) : string :=
  "curl -sI " +:+ product_url.

(** ['curl %s -o %s -s'%(product_url, hrsi_filepath)]: the address and
    the path are put in the line as they are, without quotes. *)
Definition transfer_command (product_url hrsi_filepath : string) : string :=
  "curl " +:+ product_url +:+ " -o " +:+ hrsi_filepath +:+ " -s".

(** The three calls, written by what the script puts into their command
    lines. *)
Definition CurlToken (username password : string) : event :=
  TokenCall (token_command username password).

Definition CurlHead (url : string) : event := HeadCall (head_command url).

Definition CurlDownload (url path : string) : event :=
  TransferCall (transfer_command url path).

(** The fields of an [HRSIRequest] object, the files on disk and what has
    happened so far. *)
Record state := State {
  outputPath : string;
  hrsi_http_request : option string;
  hrsi_credential : option string;
  result_file : option string;
  files : gmap string string;
  events : list event
}.

(** ** The outside world *)

(** What [requests.get] gives back: it raises, or a response with its
    truth value ([ok]: status below 400) and its body decoded by
    [response.json()], which raises when the body is no JSON. *)
Inductive get_reply :=
| GetRaises
| Response (ok : bool) (body : option json).

(** What the shell commands of one download try answer:
    - [token_out]: the evaluated output of the token request, a mapping of
      field names to text; [None] when [check_output] or [eval] raises;
    - [token_error]: what is raised then: [CalledProcessError] when the
      command ends with a status other than 0, and what [eval] raises on
      an output that is no Python expression ([SyntaxError], [NameError]);
    - [probe_filename]: what the header probe and the [filename=] search
      extract; [None] when the command fails or nothing matches;
    - [probe_error]: what is raised then: [CalledProcessError] when the
      command fails, [IndexError] when no [filename=] is found;
    - [transfer_ok]: whether the transfer command exits with status 0. *)
Record curl_replies := Replies {
  token_out : option dict;
  token_error : exn;
  probe_filename : option string;
  probe_error : exn;
  transfer_ok : bool
}.

(** Answers in which what fails is the command. *)
Definition CurlReplies (token_out : option dict)
  (probe_filename : option string) (transfer_ok : bool) : curl_replies :=
  Replies token_out CalledProcessError probe_filename CalledProcessError
          transfer_ok.

(** What a value is as a member of a [set]: [True] and [1] are one
    member, as are [False] and [0]; a list or an object cannot be one. *)
Inductive hkey :=
| KNone
| KNum (n : Z)
| KStr (s : string).

Global Instance hkey_eq_dec : EqDecision hkey.
Proof. solve_decision. Defined.

Global Instance hkey_countable : Countable hkey.
Proof.
  refine (inj_countable'
    (fun k => match k with
              | KNone => inl tt
              | KNum n => inr (inl n)
              | KStr s => inr (inr s)
              end)
    (fun x => match x with
              | inl _ => KNone
              | inr (inl n) => KNum n
              | inr (inr s) => KStr s
              end) _).
  intros []; reflexivity.
Defined.

(** [catalogue i] answers the request of page [i]; [curl i n] answers the
    commands of the try with [ntries = n] on the [i]-th product of the
    list (counted from 0); [set_order] is the order in which the
    interpreter iterates over a set; [output_dir_exists] is what
    [os.path.exists] answers for the output directory, which can be made
    when it is not there; [cwd] is what [os.getcwd()] returns. *)
Record world := World {
  catalogue : nat -> get_reply;
  curl : nat -> nat -> curl_replies;
  set_order : gset (hkey * hkey) -> list (hkey * hkey);
  output_dir_exists : bool;
  cwd : string
}.

(** ** Computations *)

Inductive result (A : Type) :=
| Ok (v : A)
| Raise (e : exn).
Arguments Ok {A} v.
Arguments Raise {A} e.

Definition M (A : Type) : Type := state -> result A * state.

Definition ret {A} (v : A) : M A := fun s => (Ok v, s).

Definition bind {A B} (m : M A) (k : A -> M B) : M B :=
  fun s => match m s with
           | (Ok v, s') => k v s'
           | (Raise e, s') => (Raise e, s')
           end.

Definition raise {A} (e : exn) : M A := fun s => (Raise e, s).

(** [try: body  except: handler] *)
Definition try_except {A} (body : M A) (handler : exn -> M A) : M A :=
  fun s => match body s with
           | (Ok v, s') => (Ok v, s')
           | (Raise e, s') => handler e s'
           end.

Declare Scope py_scope.
Delimit Scope py_scope with py.
Notation "x <- m ;; k" := (bind m (fun x => k))
  (at level 100, m at next level, right associativity) : py_scope.
Notation "m ;;; k" := (bind m (fun _ => k))
  (at level 100, right associativity) : py_scope.
Local Open Scope py_scope.

(** The state after the events [evs] have happened. *)
Definition add_events (s : state) (evs : list event) : state :=
  State (outputPath s) (hrsi_http_request s) (hrsi_credential s)
        (result_file s) (files s) (events s ++ evs).

Definition emit (e : event) : M unit := fun s => (Ok tt, add_events s [e]).

Definition logging (lv : level) (m : msg) : M unit := emit (Log lv m).

Definition get_state : M state := fun s => (Ok s, s).

(** [sys.exit(code)] *)
Definition sys_exit {A} (code : Z) : M A := raise (SystemExit code).

(** Loading a name that no assignment, parameter, import or builtin
    binds. *)
Definition unbound_name {A} (name : string) : M A := raise (NameError name).

(** [with open(path) as f: f.read()] *)
Definition read_file (path : string) : M string :=
  fun s => match files s !! path with
           | Some content => (Ok content, s)
           | None => (Raise OSError, s)
           end.

(** [with open(path, 'w') as f: f.writelines(lines)] *)
Definition write_file (path : string) (content : string) : M unit :=
  fun s => (Ok tt, State (outputPath s) (hrsi_http_request s)
                         (hrsi_credential s) (result_file s)
                         (<[path := content]> (files s)) (events s)).

(** [os.path.join(a, b)] *)
Definition path_join (a b : string) : string :=
  if String.prefix "/" b then b
  else if negb (Text.nonempty a) || Text.endswith "/" a then a +:+ b
  else a +:+ "/" +:+ b.

(** One turn of the loop of [os.path.normpath] over the parts between
    the slashes: an empty part and [.] are skipped, [..] takes the part
    before it away, and is kept where there is none to take (in a
    relative path) or the one before is itself [..]. *)
Definition normpath_step (rooted : bool) (new_comps : list string)
  (comp : string) : list string :=
  if String.eqb comp "" || String.eqb comp "." then new_comps
  else if negb (String.eqb comp "..")
          || (negb rooted && bool_decide (new_comps = []))
          || String.eqb (List.last new_comps "") ".."
       then new_comps ++ [comp]
       else removelast new_comps.

(** [os.path.normpath(path)]: two slashes at the start are kept, one or
    more than two become one. *)
Definition normpath (path : string) : string :=
  if negb (Text.nonempty path) then "."
  else
    let initial_slashes :=
      if String.prefix "/" path
      then if String.prefix "//" path && negb (String.prefix "///" path)
           then "//" else "/"
      else "" in
    let comps :=
      fold_left (normpath_step (String.prefix "/" path))
                (Text.split "/" path) [] in
    let path := initial_slashes +:+ Text.join "/" comps in
    if Text.nonempty path then path else ".".

(** [os.path.abspath(path)] in the directory [cwd]. *)
Definition abspath (cwd path : string) : string :=
  normpath (if String.prefix "/" path then path else path_join cwd path).

(** ** [datetime.datetime.strptime(date_text, '%Y-%m-%dT%H:%M:%SZ')]

    The library compiles the format into a regular expression, one
    alternation per directive, matches it case-insensitively at the start
    of the text, refuses text left over, and builds the [datetime] from the
    fields, which refuses a date that does not exist. *)

Module Strptime.

Inductive regex :=
| Lit (c : ascii)             (* the character, in either case *)
| Digit                       (* \d *)
| Range (lo hi : ascii)       (* [lo-hi] *)
| Seq (r1 r2 : regex)
| Alt (r1 r2 : regex)         (* r1|r2, r1 tried first *)
| Group (r : regex).          (* a capturing group *)

Definition is_digit (c : ascii) : bool :=
  let n := nat_of_ascii c in ((48 <=? n) && (n <=? 57))%nat.

(** The letters of the format are [T] and [Z]: the match that ignores
    case takes each in its two ASCII cases. *)
Definition fold_case (c : ascii) : ascii :=
  let n := nat_of_ascii c in
  if ((97 <=? n) && (n <=? 122))%nat then ascii_of_nat (n - 32) else c.

Definition in_range (lo hi c : ascii) : bool :=
  ((nat_of_ascii lo <=? nat_of_ascii c)
   && (nat_of_ascii c <=? nat_of_ascii hi))%nat.

Definition one_char (p : ascii -> bool) {R} (s : string)
  (k : string -> option R) : option R :=
  match s with
  | String c s' => if p c then k s' else None
  | "" => None
  end.

(** Backtracking match of [r] at the start of [s]; [k] receives the rest
    of the text and the groups captured so far. *)
Fixpoint rmatch {R} (r : regex) (s : string) (groups : list string)
  (k : string -> list string -> option R) : option R :=
  match r with
  | Lit c =>
      one_char (fun a => Ascii.eqb (fold_case a) (fold_case c))
               s (fun s' => k s' groups)
  | Digit => one_char is_digit s (fun s' => k s' groups)
  | Range lo hi => one_char (in_range lo hi) s (fun s' => k s' groups)
  | Seq r1 r2 =>
      rmatch r1 s groups (fun s' groups' => rmatch r2 s' groups' k)
  | Alt r1 r2 =>
      match rmatch r1 s groups k with
      | Some x => Some x
      | None => rmatch r2 s groups k
      end
  | Group r' =>
      rmatch r' s groups (fun s' groups' =>
        k s' (groups' ++
              [String.substring 0 (String.length s - String.length s') s]))
  end.

Definition seq (rs : list regex) (last : regex) : regex :=
  fold_right Seq last rs.

(* %Y  \d\d\d\d *)
Definition re_Y := seq [Digit; Digit; Digit] Digit.
(* %m  1[0-2]|0[1-9]|[1-9] *)
Definition re_m :=
  Alt (Seq (Lit "1") (Range "0" "2"))
      (Alt (Seq (Lit "0") (Range "1" "9")) (Range "1" "9")).
(* %d  3[0-1]|[1-2]\d|0[1-9]|[1-9]| [1-9] *)
Definition re_d :=
  Alt (Seq (Lit "3") (Range "0" "1"))
      (Alt (Seq (Range "1" "2") Digit)
           (Alt (Seq (Lit "0") (Range "1" "9"))
                (Alt (Range "1" "9") (Seq (Lit " ") (Range "1" "9"))))).
(* %H  2[0-3]|[0-1]\d|\d *)
Definition re_H :=
  Alt (Seq (Lit "2") (Range "0" "3"))
      (Alt (Seq (Range "0" "1") Digit) Digit).
(* %M  [0-5]\d|\d *)
Definition re_M := Alt (Seq (Range "0" "5") Digit) Digit.
(* %S  6[0-1]|[0-5]\d|\d *)
Definition re_S :=
  Alt (Seq (Lit "6") (Range "0" "1")) (Alt (Seq (Range "0" "5") Digit) Digit).

(** The expression of ['%Y-%m-%dT%H:%M:%SZ']. *)
Definition format_regex : regex :=
  seq [Group re_Y; Lit "-"; Group re_m; Lit "-"; Group re_d; Lit "T";
       Group re_H; Lit ":"; Group re_M; Lit ":"; Group re_S] (Lit "Z").

(** [int(s)] of a field: digits, after an optional space. *)
Fixpoint int_go (acc : nat) (s : string) : nat :=
  match s with
  | "" => acc
  | String c s' =>
      if is_digit c then int_go (10 * acc + (nat_of_ascii c - 48)) s'
      else int_go acc s'
  end.
Definition int (s : string) : nat := int_go 0 s.

Definition is_leap (year : nat) : bool :=
  ((year mod 4 =? 0) && (negb (year mod 100 =? 0) || (year mod 400 =? 0)))%nat.

Definition days_in_month (year month : nat) : nat :=
  match month with
  | 2 => if is_leap year then 29 else 28
  | 4 | 6 | 9 | 11 => 30
  | _ => 31
  end.

(** The checks of the [datetime] constructor that the expression leaves
    open: the year is at least 1, the day exists, the second is below 60. *)
Definition datetime_ok (fields : list string) : bool :=
  match map int fields with
  | [year; month; day; hour; minute; second] =>
      ((1 <=? year) && (day <=? days_in_month year month)
       && (second <=? 59))%nat
  | _ => false
  end.

(** Whether [strptime] returns (rather than raises). *)
Definition parses (data_string : string) : bool :=
  match rmatch format_regex data_string [] (fun rest gs => Some (rest, gs)) with
  | Some ("", fields) => datetime_ok fields
  | _ => false
  end.

End Strptime.

(** ** The query builder *)

Definition validate_Rfc3339 (date_text : string) : M string :=
  if Strptime.parses date_text then ret date_text
  else raise (ValueError "Incorrect date format, should be YYYY-MM-DDTHH:MM:SSZ").

Definition URL_ROOT : string :=
  "https://cryo.land.copernicus.eu/resto/api/collections/HRSI/search.json".
Definition URL_PARAM_GEOMETRY : string := "geometry".
Definition URL_PARAM_PUBLISHED_AFTER : string := "publishedAfter".
Definition URL_PARAM_PUBLISHED_BEFORE : string := "publishedBefore".
Definition URL_PARAM_OBSERVATIONDATE_AFTER : string := "startDate".
Definition URL_PARAM_OBSERVATIONDATE_BEFORE : string := "completionDate".
Definition URL_PARAM_PRODUCT_IDENTIFIER : string := "productIdentifier".
Definition URL_PARAM_PRODUCT_TYPE : string := "productType".
Definition URL_PARAM_MISSION : string := "mission".
Definition URL_PARAM_CLOUD_COVER : string := "cloudCover".
Definition URL_PARAM_TEXTUAL_SEARCH : string := "q".
Definition URL_PARAM_PAGE_INDEX : string := "page".

(** The value of [maxRecords] is the number 1000, here as ['%s'] prints it. *)
Definition URL_STATIC_PARAMS : dict :=
  [("status", "all"); ("maxRecords", "1000"); ("dataset", "ESA-DATASET");
   ("sortParam", "startDate"); ("sortOrder", "descending")].

(** The keyword arguments of [build_request]; [None] is Python's [None]. *)
Record SearchFilter := {
  productIdentifier : option string;
  productType : option string;
  mission : option string;
  obsDateMin : option string;
  obsDateMax : option string;
  publicationDateMin : option string;
  publicationDateMax : option string;
  cloudCoverageMax : option Z;
  geometry : option string;
  textualSearch : option string
}.

(** Python truth value of an [int]. *)
Definition nonzero (n : Z) : bool := negb (n =? 0)%Z.

(** [if field: url_params = body(field)] *)
Definition if_truthy {A} (truthy : A -> bool) (field : option A)
  (url_params : dict) (body : A -> M dict) : M dict :=
  match field with
  | Some v => if truthy v then body v else ret url_params
  | None => ret url_params
  end.

Definition if_str := @if_truthy string Text.nonempty.
Definition if_int := @if_truthy Z nonzero.

Definition set_hrsi_http_request (query : string) : M unit :=
  logging INFO (QueryWillBeUsed query) ;;;
  fun s => (Ok tt, State (outputPath s) (Some query) (hrsi_credential s)
                         (result_file s) (files s) (events s)).

Definition set_hrsi_credential (path : option string) : M unit :=
  logging INFO (CredentialWillBeUsed path) ;;;
  fun s => (Ok tt, State (outputPath s) (hrsi_http_request s) path
                         (result_file s) (files s) (events s)).

Definition set_result_file (path : string) : M unit :=
  logging INFO (ResultFileWillBeUsed path) ;;;
  fun s => (Ok tt, State (outputPath s) (hrsi_http_request s)
                         (hrsi_credential s) (Some path) (files s) (events s)).

(** ['&'.join(['%s=%s'%(key, value) for key, value in url_params.items()])]
    after the root and ['?']. *)
Definition render_query (url_params : dict) : string :=
  URL_ROOT +:+ "?" +:+
  Text.join "&" (map (fun kv => fst kv +:+ "=" +:+ snd kv) url_params).

Definition build_request (f : SearchFilter) : M unit :=
  let url_params : dict := [] in
  url_params <- if_str (productIdentifier f) url_params (fun v =>
    ret (dict_set URL_PARAM_PRODUCT_IDENTIFIER
                  ("%25" +:+ Text.upper v +:+ "%25") url_params)) ;;
  url_params <- if_str (productType f) url_params (fun v =>
    ret (dict_set URL_PARAM_PRODUCT_TYPE (Text.upper v) url_params)) ;;
  url_params <- if_str (mission f) url_params (fun v =>
    ret (dict_set URL_PARAM_MISSION (Text.upper v) url_params)) ;;
  url_params <- if_str (obsDateMin f) url_params (fun v =>
    d <- validate_Rfc3339 v ;;
    ret (dict_set URL_PARAM_OBSERVATIONDATE_AFTER d url_params)) ;;
  url_params <- if_str (obsDateMax f) url_params (fun v =>
    d <- validate_Rfc3339 v ;;
    ret (dict_set URL_PARAM_OBSERVATIONDATE_BEFORE d url_params)) ;;
  url_params <- if_str (publicationDateMin f) url_params (fun v =>
    d <- validate_Rfc3339 v ;;
    ret (dict_set URL_PARAM_PUBLISHED_AFTER d url_params)) ;;
  url_params <- if_str (publicationDateMax f) url_params (fun v =>
    d <- validate_Rfc3339 v ;;
    ret (dict_set URL_PARAM_PUBLISHED_BEFORE d url_params)) ;;
  url_params <- if_int (cloudCoverageMax f) url_params (fun v =>
    ret (dict_set URL_PARAM_CLOUD_COVER ("[0," +:+ pretty v +:+ "]")
                  url_params)) ;;
  url_params <- if_str (geometry f) url_params (fun v =>
    ret (dict_set URL_PARAM_GEOMETRY v url_params)) ;;
  url_params <- if_str (textualSearch f) url_params (fun v =>
    ret (dict_set URL_PARAM_TEXTUAL_SEARCH (Text.replace " " "+" v)
                  url_params)) ;;
  match url_params with
  | _ :: _ =>
      let url_params := dict_update url_params URL_STATIC_PARAMS in
      logging INFO QueryParameters ;;;
      logging INFO (QueryParametersDict url_params) ;;;
      set_hrsi_http_request (render_query url_params)
  | [] =>
      logging ERROR NoQueryParameters ;;;
      sys_exit (-2)
  end.

(** ** The paginated search *)

(** [obj[key]] for a text [key]. *)
Definition getitem (obj : json) (key : string) : M json :=
  match obj with
  | JObj members =>
      match dict_get key members with
      | Some v => ret v
      | None => raise (KeyError key)
      end
  | _ => raise TypeError
  end.

(** The items a [for] loop takes from a value: the items of a list, the
    keys of an object, the characters of a text. *)
Fixpoint chars (s : string) : list json :=
  match s with
  | "" => []
  | String c s' => JStr (String c "") :: chars s'
  end.

Definition iterate (v : json) : M (list json) :=
  match v with
  | JArr items => ret items
  | JObj members => ret (map (fun kv => JStr (fst kv)) members)
  | JStr s => ret (chars s)
  | _ => raise TypeError
  end.

Definition read_json_param (json_root feature : json) (feature_index : nat)
  (json_param : string) : M json :=
  try_except
    (properties <- getitem feature "properties" ;;
     getitem properties json_param)
    (fun e => match e with
              | KeyError _ =>
                  raise (MissingEntry feature_index json_param json_root)
              | _ => raise e
              end).

(** The pair [(hrsi_url, hrsi_title)] as decoded. *)
Abbreviation product := (json * json)%type.

Definition read_hrsi_feature (json_root feature : json) (feature_index : nat)
  : M product :=
  let read := read_json_param json_root feature feature_index in
  hrsi_path <- read "productIdentifier" ;;
  hrsi_title <- read "title" ;;
  hrsi_obs_date <- read "startDate" ;;
  hrsi_product_type <- read "productType" ;;
  hrsi_mission <- read "mission" ;;
  services <- read "services" ;;
  download <- getitem services "download" ;;
  hrsi_url <- getitem download "url" ;;
  services <- read "services" ;;
  download <- getitem services "download" ;;
  hrsi_size <- getitem download "size" ;;
  hrsi_publication_date <- read "published" ;;
  ret (hrsi_url, hrsi_title).

(** [for feature_index, feature in enumerate(features):
       hrsi_products.append(read_hrsi_feature(...))] *)
Fixpoint for_features (json_root : json) (feature_index : nat)
  (features : list json) (hrsi_products : list product) : M (list product) :=
  match features with
  | [] => ret hrsi_products
  | feature :: rest =>
      p <- read_hrsi_feature json_root feature feature_index ;;
      for_features json_root (S feature_index) rest (hrsi_products ++ [p])
  end.

(** [requests.get(url)] *)
Definition requests_get (w : world) (page_index : nat) (url : string)
  : M (bool * option json) :=
  emit (HttpGet url) ;;;
  match catalogue w page_index with
  | GetRaises => raise RequestException
  | Response ok body => ret (ok, body)
  end.

Definition page_url (http_request : string) (page_index : nat) : string :=
  http_request +:+ "&page=" +:+ pretty page_index.

(** The part of [request_page] that follows the request: read the JSON
    response, get the features, read each feature. *)
Definition read_response (response : bool * option json) : M (list product) :=
  json_root <-
    (if fst response
     then match snd response with
          | Some j => ret j
          | None => raise JSONDecodeError
          end
     else ret (JObj [])) ;;
  features <-
    try_except (getitem json_root "features")
      (fun e => match e with
                | KeyError _ =>
                    let features := JObj [] in
                    (* the arguments of the logging call are evaluated
                       first; nothing binds [url_params_page] *)
                    url_params_page <- unbound_name "url_params_page" ;;
                    logging ERROR (FeaturesMissing json_root url_params_page) ;;;
                    ret features
                | _ => raise e
                end) ;;
  items <- iterate features ;;
  for_features json_root 0 items [].

Definition request_page (w : world) (http_request : string) (page_index : nat)
  : M (list product) :=
  let current_page := page_url http_request page_index in
  logging INFO (ProcessingPage page_index) ;;;
  response <- requests_get w page_index current_page ;;
  read_response response.

(** [max_requested_pages is not None and requested_pages >= max_requested_pages] *)
Definition first_exit_condition (max_requested_pages : option Z)
  (requested_pages : nat) : bool :=
  match max_requested_pages with
  | None => false
  | Some m => (m <=? Z.of_nat requested_pages)%Z
  end.

(** A computation that may not end: [None] when [fuel] iterations were
    not enough. *)
Definition R (A : Type) : Type := state -> option (result A * state).

Definition lift {A} (m : M A) : R A := fun s => Some (m s).

Definition rbind {A B} (m : R A) (k : A -> R B) : R B :=
  fun s => match m s with
           | None => None
           | Some (Ok v, s') => k v s'
           | Some (Raise e, s') => Some (Raise e, s')
           end.

Notation "x <~ m ;; k" := (rbind m (fun x => k))
  (at level 100, m at next level, right associativity) : py_scope.

(** The [while] loop of [execute_request]. *)
Fixpoint page_loop (fuel : nat) (w : world) (http_request : string)
  (max_requested_pages : option Z) (requested_pages : nat)
  (hrsi_products : list product) : R (list product) :=
  match fuel with
  | O => fun _ => None
  | S fuel' =>
      if first_exit_condition max_requested_pages requested_pages
      then lift (ret hrsi_products)
      else
        let requested_pages := requested_pages + 1 in
        hrsi_products_aux <~ lift (request_page w http_request requested_pages) ;;
        match hrsi_products_aux with
        | [] => lift (ret hrsi_products)
        | _ => page_loop fuel' w http_request max_requested_pages
                         requested_pages (hrsi_products ++ hrsi_products_aux)
        end
  end.

Definition hash_key (v : json) : option hkey :=
  match v with
  | JNull => Some KNone
  | JBool b => Some (KNum (if b then 1 else 0))
  | JNum n => Some (KNum n)
  | JStr s => Some (KStr s)
  | JArr _ | JObj _ => None
  end.

Definition hash_product (p : product) : option (hkey * hkey) :=
  match hash_key (fst p), hash_key (snd p) with
  | Some u, Some t => Some (u, t)
  | _, _ => None
  end.

(** [set(hrsi_products)] *)
Fixpoint set_of (hrsi_products : list product) : M (gset (hkey * hkey)) :=
  match hrsi_products with
  | [] => ret ∅
  | p :: rest =>
      match hash_product p with
      | Some k => members <- set_of rest ;; ret ({[k]} ∪ members)
      | None => raise TypeError
      end
  end.

(** [";".join(res)+"\n"] *)
Definition result_line (url title : string) : string :=
  url +:+ ";" +:+ title +:+ String Text.LF "".

Definition join_product (res : hkey * hkey) : M string :=
  match res with
  | (KStr url, KStr title) => ret (result_line url title)
  | _ => raise TypeError
  end.

Fixpoint result_lines (members : list (hkey * hkey)) : M (list string) :=
  match members with
  | [] => ret []
  | res :: rest =>
      line <- join_product res ;;
      lines <- result_lines rest ;;
      ret (line :: lines)
  end.

(** What follows the loop in [execute_request]. *)
Definition save_results (w : world) (hrsi_products : list product) : M unit :=
  let total_count := length hrsi_products in
  logging DEBUG (ProductCount total_count) ;;;
  hrsi_products <- set_of hrsi_products ;;
  (if negb (size hrsi_products =? total_count)%nat
   then logging WARNING DuplicatedProducts else ret tt) ;;;
  logging INFO (FoundProducts (size hrsi_products)) ;;;
  s <- get_state ;;
  let path := path_join (outputPath s) "result_file.txt" in
  set_result_file path ;;;
  logging INFO (ListingResults path) ;;;
  write_file path "" ;;;
  lines <- result_lines (set_order w hrsi_products) ;;
  write_file path (String.concat "" lines).

Definition execute_request (fuel : nat) (w : world)
  (max_requested_pages : option Z) : R unit :=
  s <~ lift get_state ;;
  match hrsi_http_request s with
  | None => lift (logging ERROR NoRequestConfigured ;;; sys_exit (-2))
  | Some http_request =>
      _ <~ lift (logging INFO (Requesting http_request)) ;;
      hrsi_products <~ page_loop fuel w http_request max_requested_pages 0 [] ;;
      lift (save_results w hrsi_products)
  end.

(** ** The download *)

(** [__get_token__]: the command is built from [credentials[0]] and
    [credentials[1]], run, and its output evaluated. *)
Definition get_token (r : curl_replies) (credentials : list string) : M string :=
  match credentials with
  | username :: password :: _ =>
      emit (TokenCall (token_command username password)) ;;;
      match token_out r with
      | None => raise (token_error r)
      | Some out =>
          (if bool_decide (is_Some (dict_get "error" out))
           then logging ERROR (TokenError out) else ret tt) ;;;
          match dict_get "access_token" out with
          | Some token => ret token
          | None => raise (KeyError "access_token")
          end
      end
  | _ => raise IndexError
  end.

(** [__hrsi_adress__] *)
Definition hrsi_adress (r : curl_replies) (adress_id : string)
  (credentials : list string) : M string :=
  token <- get_token r credentials ;;
  ret (adress_id +:+ "?token=" +:+ token).

Definition download_with_curl (r : curl_replies) (product_url : string)
  (dl_filename : option string) : M string :=
  dl_filename <-
    match dl_filename with
    | None =>
        emit (HeadCall (head_command product_url)) ;;;
        match probe_filename r with
        | None => raise (probe_error r)
        | Some name =>
            if Text.endswith ".zip" name then ret name
            else raise AssertionError
        end
    | Some name => ret name
    end ;;
  logging INFO (Downloading dl_filename
                  (Text.first_field (Text.split "?token" product_url))) ;;;
  s <- get_state ;;
  let hrsi_filepath := path_join (outputPath s) dl_filename in
  logging DEBUG (DLFilepath hrsi_filepath) ;;;
  emit (TransferCall (transfer_command product_url hrsi_filepath)) ;;;
  (if transfer_ok r then ret tt else raise CalledProcessError) ;;;
  logging DEBUG (DLCommand product_url hrsi_filepath) ;;;
  ret hrsi_filepath.

(** The body of the [try] in the loop of [download]. *)
Definition try_download (r : curl_replies) (credentials : list string)
  (info_product : list string) : M unit :=
  match info_product with
  | [] => raise IndexError
  | product_url :: _ =>
      adress <- hrsi_adress r product_url credentials ;;
      let dl_filename :=
        match info_product with
        | _ :: title :: _ =>
            Some (Text.last_field (Text.split "/" title) +:+ ".zip")
        | _ => None
        end in
      hrsi_filepath <- download_with_curl r adress dl_filename ;;
      logging INFO (Downloaded hrsi_filepath)
  end.

(** [while(ntries < max_retry)] with its [try]/[except]: a try that
    returns leaves the loop, one that raises is counted, re-raised when the
    count reaches [max_retry] and otherwise followed by a sleep of
    [5.*ntries] seconds and another turn. *)
Equations? download_product (w : world) (credentials : list string)
  (i : nat) (info_product : list string) (max_retry ntries : nat)
  : M unit by wf (max_retry - ntries) lt :=
download_product w credentials i info_product max_retry ntries
  with decide (ntries < max_retry) := {
  | left _ =>
      try_except (try_download (curl w i ntries) credentials info_product)
        (fun e =>
           let ntries' := ntries + 1 in
           if decide (ntries' = max_retry) then raise e
           else
             emit (Sleep (5 * Z.of_nat ntries')) ;;;
             logging INFO (TryFailed ntries') ;;;
             download_product w credentials i info_product max_retry ntries')
  | right _ => ret tt }.
Proof. lia. Qed.

(** [for info_product in product_list:] *)
Fixpoint for_products (w : world) (credentials : list string) (max_retry : nat)
  (i : nat) (product_list : list (list string)) : M unit :=
  match product_list with
  | [] => ret tt
  | info_product :: rest =>
      download_product w credentials i info_product max_retry 0 ;;;
      for_products w credentials max_retry (S i) rest
  end.

(** [[x.strip().split(';') for x in content if x.strip()]] *)
Definition parse_result_list (content : list string) : list (list string) :=
  map (fun x => Text.split ";" (Text.strip x))
      (filter (fun x => Text.nonempty (Text.strip x) = true) content).

Definition max_retry : nat := 1.

Definition download (w : world) : M unit :=
  s <- get_state ;;
  match hrsi_credential s with
  | None => logging ERROR NoCredentialFile ;;; sys_exit (-2)
  | Some credential_path =>
      credentials <-
        try_except
          (content <- read_file credential_path ;;
           ret (Text.split ":" (Text.rstrip (Text.readline content))))
          (fun e => logging ERROR (CredentialParseError credential_path) ;;;
                    raise e) ;;
      match result_file s with
      | None => logging ERROR NoResultFile ;;; sys_exit (-2)
      | Some result_path =>
          product_list <-
            try_except
              (content <- read_file result_path ;;
               ret (parse_result_list (Text.readlines content)))
              (fun e => logging ERROR (ResultFileParseError result_path) ;;;
                        raise e) ;;
          for_products w credentials max_retry 0 product_list
      end
  end.

(** ** The command line *)

Inductive mode := Query | QueryAndDownload | Download.

Record arguments := {
  output_dir : string;
  run_mode : mode;
  queryURL : option string;
  query_params : SearchFilter;
  hrsi_credentials : option string;
  arg_result_file : option string
}.

(** [HRSIRequest(outputPath)]: the object keeps the absolute path of the
    directory, and the directory is made when it is not there; a run in
    which [os.makedirs] raises ends there and is not among the runs of
    [main] below. *)
Definition init (w : world) (outputPath : string) (disk : gmap string string)
  : state :=
  let outputPath := abspath (cwd w) outputPath in
  State outputPath None None None disk
        [if output_dir_exists w
         then Log WARNING (ExistingDirectory outputPath)
         else Log INFO (CreatingDirectory outputPath)].

Definition truthy (o : option string) : option string :=
  match o with
  | Some v => if Text.nonempty v then Some v else None
  | None => None
  end.

Definition main_body (fuel : nat) (w : world) (args : arguments) : R unit :=
  _ <~ (match run_mode args with
        | Query | QueryAndDownload =>
            _ <~ lift (match truthy (queryURL args) with
                       | Some q => set_hrsi_http_request q
                       | None => build_request (query_params args)
                       end) ;;
            execute_request fuel w None
        | Download => lift (ret tt)
        end) ;;
  _ <~ lift (match run_mode args with
             | Download =>
                 match truthy (arg_result_file args) with
                 | Some path => set_result_file path
                 | None => logging ERROR NoResultFileGiven
                 end
             | _ => ret tt
             end) ;;
  _ <~ lift (match run_mode args with
             | QueryAndDownload | Download =>
                 set_hrsi_credential (hrsi_credentials args) ;;;
                 logging INFO StartDownloading ;;;
                 download w ;;;
                 logging INFO DownloadingComplete
             | Query => logging INFO NoProductsDownloaded
             end) ;;
  lift (logging INFO TheEnd).

(** [main()], started with the files [disk]. *)
Definition main (fuel : nat) (w : world) (args : arguments)
  (disk : gmap string string) : option (result unit * state) :=
  main_body fuel w args (init w (output_dir args) disk).

(** ** Notions used in the statements *)

(** An event that reaches the network. *)
Definition is_network (e : event) : bool :=
  match e with
  | HttpGet _ | TokenCall _ | HeadCall _ | TransferCall _ => true
  | Log _ _ | Sleep _ => false
  end.

Definition is_error_log (e : event) : bool :=
  match e with
  | Log ERROR _ => true
  | _ => false
  end.

Definition is_sleep (e : event) : bool :=
  match e with
  | Sleep _ => true
  | _ => false
  end.

Definition is_set {A} (field : option A) : bool :=
  match field with Some _ => true | None => false end.

Definition empty_filter : SearchFilter :=
  {| productIdentifier := None; productType := None; mission := None;
     obsDateMin := None; obsDateMax := None; publicationDateMin := None;
     publicationDateMax := None; cloudCoverageMax := None; geometry := None;
     textualSearch := None |}.

(** At least one field of the filter is given. *)
Definition some_field_set (f : SearchFilter) : bool :=
  is_set (productIdentifier f) || is_set (productType f) || is_set (mission f)
  || is_set (obsDateMin f) || is_set (obsDateMax f)
  || is_set (publicationDateMin f) || is_set (publicationDateMax f)
  || is_set (cloudCoverageMax f) || is_set (geometry f)
  || is_set (textualSearch f).

Definition key_if {A} (field : option A) (key : string) : list string :=
  if is_set field then [key] else [].

(** The catalogue names of the fields that are given, in the order in
    which the builder looks at them. *)
Definition mapped_keys (f : SearchFilter) : list string :=
  key_if (productIdentifier f) URL_PARAM_PRODUCT_IDENTIFIER
  ++ key_if (productType f) URL_PARAM_PRODUCT_TYPE
  ++ key_if (mission f) URL_PARAM_MISSION
  ++ key_if (obsDateMin f) URL_PARAM_OBSERVATIONDATE_AFTER
  ++ key_if (obsDateMax f) URL_PARAM_OBSERVATIONDATE_BEFORE
  ++ key_if (publicationDateMin f) URL_PARAM_PUBLISHED_AFTER
  ++ key_if (publicationDateMax f) URL_PARAM_PUBLISHED_BEFORE
  ++ key_if (cloudCoverageMax f) URL_PARAM_CLOUD_COVER
  ++ key_if (geometry f) URL_PARAM_GEOMETRY
  ++ key_if (textualSearch f) URL_PARAM_TEXTUAL_SEARCH.

Definition given_text (field : option string) : bool :=
  match field with Some v => Text.nonempty v | None => true end.

Definition given_date (field : option string) : bool :=
  match field with
  | Some v => Text.nonempty v && Strptime.parses v
  | None => true
  end.

Definition given_number (field : option Z) : bool :=
  match field with Some n => nonzero n | None => true end.

(** Every given text is non-empty, every given date has the expected
    format, a given cloud cover is not 0. *)
Definition usable (f : SearchFilter) : bool :=
  given_text (productIdentifier f) && given_text (productType f)
  && given_text (mission f)
  && given_date (obsDateMin f) && given_date (obsDateMax f)
  && given_date (publicationDateMin f) && given_date (publicationDateMax f)
  && given_number (cloudCoverageMax f)
  && given_text (geometry f) && given_text (textualSearch f).

(** One assignment of the builder: [url_params[key] = v] when the field
    is given, nothing otherwise. *)
Definition assign (url_params : dict) (a : string * option string) : dict :=
  match snd a with
  | Some v => dict_set (fst a) v url_params
  | None => url_params
  end.

(** The assignments of [build_request], in program order, each with the
    value it stores. *)
Definition assignments (f : SearchFilter) : list (string * option string) :=
  [(URL_PARAM_PRODUCT_IDENTIFIER,
     (fun v => "%25" +:+ Text.upper v +:+ "%25") <$> productIdentifier f);
   (URL_PARAM_PRODUCT_TYPE, Text.upper <$> productType f);
   (URL_PARAM_MISSION, Text.upper <$> mission f);
   (URL_PARAM_OBSERVATIONDATE_AFTER, obsDateMin f);
   (URL_PARAM_OBSERVATIONDATE_BEFORE, obsDateMax f);
   (URL_PARAM_PUBLISHED_AFTER, publicationDateMin f);
   (URL_PARAM_PUBLISHED_BEFORE, publicationDateMax f);
   (URL_PARAM_CLOUD_COVER,
     (fun v => "[0," +:+ pretty v +:+ "]") <$> cloudCoverageMax f);
   (URL_PARAM_GEOMETRY, geometry f);
   (URL_PARAM_TEXTUAL_SEARCH, Text.replace " " "+" <$> textualSearch f)].

(** The parameters of the query that [build_request] configures for a
    usable filter. *)
Definition built_params (f : SearchFilter) : dict :=
  dict_update (fold_left assign (assignments f) []) URL_STATIC_PARAMS.

(** The state once the query [q], built from [url_params], is configured. *)
Definition with_query (s : state) (url_params : dict) : state :=
  State (outputPath s) (Some (render_query url_params)) (hrsi_credential s)
        (result_file s) (files s)
        (events s ++ [Log INFO QueryParameters;
                      Log INFO (QueryParametersDict url_params);
                      Log INFO (QueryWillBeUsed (render_query url_params))]).

(** The filter that gives only the start of the observation range, as a
    date without a time. *)
Definition date_only_filter : SearchFilter :=
  {| productIdentifier := None; productType := None; mission := None;
     obsDateMin := Some "2020-06-02"; obsDateMax := None;
     publicationDateMin := None; publicationDateMax := None;
     cloudCoverageMax := None; geometry := None; textualSearch := None |}.

(** A filter on the product type, the tile, a month of observations and
    the cloud cover. *)
Definition sample_filter : SearchFilter :=
  {| productIdentifier := Some "31TCH"; productType := Some "fsc";
     mission := None;
     obsDateMin := Some "2020-06-01T00:00:00Z";
     obsDateMax := Some "2020-06-30T00:00:00Z";
     publicationDateMin := None; publicationDateMax := None;
     cloudCoverageMax := Some 20%Z; geometry := None; textualSearch := None |}.

(** The product type, and a cloud cover of at most 0 percent. *)
Definition cloudless_filter : SearchFilter :=
  {| productIdentifier := None; productType := Some "FSC"; mission := None;
     obsDateMin := None; obsDateMax := None;
     publicationDateMin := None; publicationDateMax := None;
     cloudCoverageMax := Some 0%Z; geometry := None; textualSearch := None |}.

Definition initial_state : state := State "/out" None None None ∅ [].

(** The keys of the assignments that store something. *)
Definition given_keys (l : list (string * option string)) : list string :=
  flat_map (fun a => key_if (snd a) (fst a)) l.

(** ** Sample inputs *)

(** A catalogue record with every entry that [read_hrsi_feature] reads. *)
Definition feature_of (url title : string) : json :=
  JObj [("properties",
         JObj [("productIdentifier", JStr "/HRSI/CLMS/product");
               ("title", JStr title);
               ("startDate", JStr "2020-06-01T10:30:00Z");
               ("productType", JStr "FSC");
               ("mission", JStr "S2");
               ("services",
                JObj [("download", JObj [("url", JStr url); ("size", JNum 4096)])]);
               ("published", JStr "2020-06-02T08:00:00Z")])].

(** A response of status 200 whose body has the given features. *)
Definition page_of (features : list json) : get_reply :=
  Response true (Some (JObj [("features", JArr features)])).

(** A response of status 200 whose body is the empty object. *)
Definition page_without_features : get_reply := Response true (Some (JObj [])).

Definition token_granted : curl_replies :=
  CurlReplies (Some [("access_token", "TOK")]) (Some "product.zip") true.

Definition transfer_fails : curl_replies :=
  CurlReplies (Some [("access_token", "TOK")]) (Some "product.zip") false.

(** The token endpoint answers with both an error and a token. *)
Definition error_and_token : dict :=
  [("error", "invalid_grant"); ("access_token", "TOK")].

(** Page 1 has one product, page 2 has no [features] entry. *)
Definition world_missing_features : world :=
  {| catalogue := fun i => match i with
                           | 1 => page_of [feature_of "u1" "t1"]
                           | _ => page_without_features
                           end;
     curl := fun _ _ => token_granted;
     set_order := elements;
     output_dir_exists := false;
     cwd := "/" |}.

(** The first try on every product fails in the transfer, a second try
    would go through. *)
Definition world_fail_then_ok : world :=
  {| catalogue := fun _ => page_of [];
     curl := fun _ ntries => match ntries with
                             | 0 => transfer_fails
                             | _ => token_granted
                             end;
     set_order := elements;
     output_dir_exists := false;
     cwd := "/" |}.

Definition sample_query : string := "https://catalogue/search.json?productType=FSC".

Definition query_state : state :=
  State "/out" (Some sample_query) None None ∅ [].

(** Ready to download: a credential file and a result list of two
    products on disk. *)
Definition download_state (result_list : string) : state :=
  State "/out" None (Some "/auth.txt") (Some "/out/result_file.txt")
        (<["/auth.txt" := "login:password" +:+ String Text.LF ""]>
           (<["/out/result_file.txt" := result_list]> ∅))
        [].

Definition one_product : string := result_line "u1" "t1".
Definition two_products : string := result_line "u1" "t1" +:+ result_line "u2" "t2".

(** ** The entries a download run works on *)

(** The entries for which the body of the [for] loop of [download] is
    run: the first one, and each next one when the body has returned for
    the one before. *)
Fixpoint attempted (w : world) (credentials : list string) (max_retry : nat)
  (i : nat) (product_list : list (list string)) (s : state)
  : list (list string) :=
  match product_list with
  | [] => []
  | info_product :: rest =>
      info_product ::
      match download_product w credentials i info_product max_retry 0 s with
      | (Ok _, s') => attempted w credentials max_retry (S i) rest s'
      | (Raise _, _) => []
      end
  end.

(** [f.readline().rstrip().split(':')] on the credential file. *)
Definition credentials_of (content : string) : list string :=
  Text.split ":" (Text.rstrip (Text.readline content)).

(** A line that is empty or has only whitespace. *)
Fixpoint is_blank (line : string) : bool :=
  match line with
  | "" => true
  | String c line' => Text.is_space c && is_blank line'
  end.

(** The lines of the file that are not blank, in file order. *)
Definition nonblank_lines (content : string) : list string :=
  List.filter (fun line => negb (is_blank line)) (Text.readlines content).

(** A line without the whitespace around it, cut at every [;]: the URL
    comes first, a title may follow. *)
Definition fields (line : string) : list string :=
  Text.split ";" (Text.strip line).

(** Command lines and worlds for the examples. *)
Definition query_without_params : arguments :=
  {| output_dir := "/out"; run_mode := Query; queryURL := None;
     query_params := empty_filter; hrsi_credentials := None;
     arg_result_file := None |}.

(** Every page is empty and every command succeeds. *)
Definition quiet_world : world :=
  {| catalogue := fun _ => page_of [];
     curl := fun _ _ => token_granted;
     set_order := elements;
     output_dir_exists := false;
     cwd := "/" |}.

(** The transfer of the second product of the list fails, every other
    command succeeds. *)
Definition world_second_fails : world :=
  {| catalogue := fun _ => page_of [];
     curl := fun i _ => match i with
                        | 1 => transfer_fails
                        | _ => token_granted
                        end;
     set_order := elements;
     output_dir_exists := false;
     cwd := "/" |}.

(** The transfer of the first product of the list fails. *)
Definition world_first_fails : world :=
  {| catalogue := fun _ => page_of [];
     curl := fun i _ => match i with
                        | 0 => transfer_fails
                        | _ => token_granted
                        end;
     set_order := elements;
     output_dir_exists := false;
     cwd := "/" |}.

Definition three_products : string :=
  result_line "u1" "t1" +:+ result_line "u2" "t2" +:+ result_line "u3" "t3".

(** The entries a run of [download] works on, for the files of [s]. *)
Definition download_attempts (w : world) (s : state) : list (list string) :=
  match hrsi_credential s, result_file s with
  | Some credential_path, Some result_path =>
      match files s !! credential_path, files s !! result_path with
      | Some credential, Some content =>
          attempted w (credentials_of credential) max_retry 0
                    (parse_result_list (Text.readlines content)) s
      | _, _ => []
      end
  | _, _ => []
  end.

(** A result list with an empty line and a line of blanks in it, and a
    product without title. *)
Definition spaced_list : string :=
  result_line "u1" "t1" +:+ String Text.LF ""
  +:+ "   " +:+ String Text.LF "" +:+ " u2 " +:+ String Text.LF "".

(** ** The result list as a file *)

Fixpoint all_chars (p : ascii -> bool) (s : string) : bool :=
  match s with
  | "" => true
  | String c s' => p c && all_chars p s'
  end.

Definition SEMICOLON : ascii := ";"%char.

(** A character that is neither the separator nor a line break. *)
Definition plain_char (c : ascii) : bool :=
  negb (Ascii.eqb c SEMICOLON) && negb (Ascii.eqb c Text.LF)
  && negb (Ascii.eqb c Text.CR).

(** A pair that one line holds as it is: no [;] and no line break in the
    URL or in the title, no whitespace at the start of the URL or at the
    end of the title. *)
Definition line_safe (url title : string) : bool :=
  all_chars plain_char url && all_chars plain_char title
  && String.eqb (Text.lstrip url) url && String.eqb (Text.rstrip title) title.

(** What [writelines] puts in the file for the entries in this order. *)
Definition serialize (entries : list (string * string)) : string :=
  String.concat "" (map (fun p => result_line (fst p) (snd p)) entries).

Definition pair_fields (p : string * string) : list string := [fst p; snd p].

Definition sample_set : gset (string * string) :=
  {[ ("https://host/dl/1", "FSC_20200601T103000_S2A_T31TCH_V100_1");
     ("https://host/dl/2", "two words/and a path") ]}.

(** ** The pages of a search *)

(** A computation that leaves the state alone and whose result does not
    depend on it. *)
Definition pure {A} (m : M A) : Prop := exists r, forall s, m s = (r, s).

(** What [request_page] returns or raises for page [page_index]. *)
Definition page_result (w : world) (http_request : string) (page_index : nat)
  : result (list product) :=
  fst (request_page w http_request page_index initial_state).

(** What the request of one page adds to the events. *)
Definition page_events (http_request : string) (page_index : nat) : list event :=
  [Log INFO (ProcessingPage page_index);
   HttpGet (page_url http_request page_index)].

(** A reference as the catalogue gives it, and as a member of a set. *)
Definition str_product (p : string * string) : product :=
  (JStr (fst p), JStr (snd p)).

Definition key_of (p : string * string) : hkey * hkey :=
  (KStr (fst p), KStr (snd p)).

Definition unkey (k : hkey * hkey) : string * string :=
  match k with
  | (KStr url, KStr title) => (url, title)
  | _ => ("", "")
  end.

(** The entries [execute_request] writes for the references [refs], in the
    order in which the interpreter goes through the set. *)
Definition written_entries (w : world) (refs : list (string * string))
  : list (string * string) :=
  map unkey (set_order w (list_to_set (map key_of refs))).

Definition result_path (s : state) : string :=
  path_join (outputPath s) "result_file.txt".

(** The state [save_results] leaves for the references [refs]. *)
Definition saved (w : world) (refs : list (string * string)) (s : state) : state :=
  let members : gset (hkey * hkey) := list_to_set (map key_of refs) in
  State (outputPath s) (hrsi_http_request s) (hrsi_credential s)
        (Some (result_path s))
        (<[result_path s := serialize (written_entries w refs)]> (files s))
        (events s
         ++ [Log DEBUG (ProductCount (length refs))]
         ++ (if negb (size members =? length refs)%nat
             then [Log WARNING DuplicatedProducts] else [])
         ++ [Log INFO (FoundProducts (size members));
             Log INFO (ResultFileWillBeUsed (result_path s));
             Log INFO (ListingResults (result_path s))]).

(** Three pages: two references, then two of which one was on page 1
    already, then none. *)
Definition sample_refs (page_index : nat) : list (string * string) :=
  match page_index with
  | 1 => [("u1", "t1"); ("u2", "t2")]
  | 2 => [("u1", "t1"); ("u3", "t3")]
  | _ => []
  end.

Definition sample_catalogue : world :=
  {| catalogue := fun i =>
       page_of (map (fun p => feature_of (fst p) (snd p)) (sample_refs i));
     curl := fun _ _ => token_granted;
     set_order := elements;
     output_dir_exists := false;
     cwd := "/" |}.


(** ** More notions for the query builder *)

Definition truthy_int (o : option Z) : option Z :=
  match o with
  | Some n => if nonzero n then Some n else None
  | None => None
  end.

(** The filter as the tests [if field:] see it: an empty text and a cloud
    cover of 0 count as not given. *)
Definition effective (f : SearchFilter) : SearchFilter :=
  {| productIdentifier := truthy (productIdentifier f);
     productType := truthy (productType f);
     mission := truthy (mission f);
     obsDateMin := truthy (obsDateMin f);
     obsDateMax := truthy (obsDateMax f);
     publicationDateMin := truthy (publicationDateMin f);
     publicationDateMax := truthy (publicationDateMax f);
     cloudCoverageMax := truthy_int (cloudCoverageMax f);
     geometry := truthy (geometry f);
     textualSearch := truthy (textualSearch f) |}.

(** A date that is not given, is empty, or has the expected format. *)
Definition date_ok (field : option string) : bool :=
  match truthy field with
  | Some v => Strptime.parses v
  | None => true
  end.

Definition dates_ok (f : SearchFilter) : bool :=
  date_ok (obsDateMin f) && date_ok (obsDateMax f)
  && date_ok (publicationDateMin f) && date_ok (publicationDateMax f).

Definition date_error : exn :=
  ValueError "Incorrect date format, should be YYYY-MM-DDTHH:MM:SSZ".

(** Every field is given, as an empty text or as 0. *)
Definition hollow_filter : SearchFilter :=
  {| productIdentifier := Some ""; productType := Some ""; mission := Some "";
     obsDateMin := Some ""; obsDateMax := Some "";
     publicationDateMin := Some ""; publicationDateMax := Some "";
     cloudCoverageMax := Some 0%Z; geometry := Some "";
     textualSearch := Some "" |}.

(** A usable product type and tile, and a publication limit without the
    final Z. *)
Definition late_error_filter : SearchFilter :=
  {| productIdentifier := Some "31TCH"; productType := Some "FSC";
     mission := None;
     obsDateMin := Some "2020-06-01T00:00:00Z"; obsDateMax := None;
     publicationDateMin := None;
     publicationDateMax := Some "2020-06-30T00:00:00";
     cloudCoverageMax := None; geometry := None; textualSearch := None |}.

(** A product type, an empty mission, a cloud cover of 0 and a search
    text. *)
Definition mixed_filter : SearchFilter :=
  {| productIdentifier := None; productType := Some "gfsc";
     mission := Some "";
     obsDateMin := None; obsDateMax := None;
     publicationDateMin := None; publicationDateMax := None;
     cloudCoverageMax := Some 0%Z; geometry := None;
     textualSearch := Some "winter in finland" |}.

(** ** Notions for the feature extractor *)

(** The member [key] of an object, if [obj] is an object that has it. *)
Definition entry (obj : json) (key : string) : option json :=
  match obj with
  | JObj members => dict_get key members
  | _ => None
  end.

(** The reference of a record that has all the entries the extractor
    reads: the eight entries are there, the reference is the URL of the
    download service and the title. *)
Definition reference_of (feature : json) : option product :=
  match entry feature "properties" with
  | Some properties =>
      match entry properties "productIdentifier", entry properties "title",
            entry properties "startDate", entry properties "productType",
            entry properties "mission", entry properties "services",
            entry properties "published" with
      | Some _, Some title, Some _, Some _, Some _, Some services, Some _ =>
          match entry services "download" with
          | Some download =>
              match entry download "url", entry download "size" with
              | Some url, Some _ => Some (url, title)
              | _, _ => None
              end
          | None => None
          end
      | _, _, _, _, _, _, _ => None
      end
  | None => None
  end.

(** The entries of [properties] in the order in which they are read. *)
Definition read_order : list string :=
  ["productIdentifier"; "title"; "startDate"; "productType"; "mission";
   "services"; "published"].

(** The references of the records of a page, when each record has one. *)
Fixpoint references_of (features : list json) : option (list product) :=
  match features with
  | [] => Some []
  | feature :: rest =>
      match reference_of feature, references_of rest with
      | Some p, Some ps => Some (p :: ps)
      | _, _ => None
      end
  end.

(** A record as [feature_of] builds it, without its product type. *)
Definition feature_without_type (url title : string) : json :=
  JObj [("properties",
         JObj [("productIdentifier", JStr "/HRSI/CLMS/product");
               ("title", JStr title);
               ("startDate", JStr "2020-06-01T10:30:00Z");
               ("mission", JStr "S2");
               ("services",
                JObj [("download", JObj [("url", JStr url); ("size", JNum 4096)])]);
               ("published", JStr "2020-06-02T08:00:00Z")])].

(** A record as [feature_of] builds it, without the size of the download. *)
Definition feature_without_size (url title : string) : json :=
  JObj [("properties",
         JObj [("productIdentifier", JStr "/HRSI/CLMS/product");
               ("title", JStr title);
               ("startDate", JStr "2020-06-01T10:30:00Z");
               ("productType", JStr "FSC");
               ("mission", JStr "S2");
               ("services", JObj [("download", JObj [("url", JStr url)])]);
               ("published", JStr "2020-06-02T08:00:00Z")])].

(** Page 1 holds a complete record and then one without product type. *)
Definition world_incomplete_record : world :=
  {| catalogue := fun i =>
       match i with
       | 1 => page_of [feature_of "u1" "t1"; feature_without_type "u2" "t2";
                       feature_of "u3" "t3"]
       | _ => page_of []
       end;
     curl := fun _ _ => token_granted;
     set_order := elements;
     output_dir_exists := false;
     cwd := "/" |}.

(** ** Notions for the result list *)

(** The members of the set that the products give, when each product can
    be a member. *)
Fixpoint keys_of (hrsi_products : list product) : option (list (hkey * hkey)) :=
  match hrsi_products with
  | [] => Some []
  | p :: rest =>
      match hash_product p, keys_of rest with
      | Some k, Some ks => Some (k :: ks)
      | _, _ => None
      end
  end.

(** A member whose URL and title are both texts. *)
Definition is_text_key (k : hkey * hkey) : bool :=
  match k with
  | (KStr _, KStr _) => true
  | _ => false
  end.

(** Every page holds one more record than the page before. *)
Definition growing_catalogue : world :=
  {| catalogue := fun i =>
       page_of (map (fun k => feature_of ("u" +:+ pretty k) "t") (seq 0 i));
     curl := fun _ _ => token_granted;
     set_order := elements;
     output_dir_exists := false;
     cwd := "/" |}.

(** ** Notions for one try of a download *)

(** What the token request leaves in the events: the request, and the
    error record when the answer has an [error] field. *)
Definition token_events (username password : string) (out : dict) : list event :=
  CurlToken username password
  :: (if bool_decide (is_Some (dict_get "error" out))
      then [Log ERROR (TokenError out)] else []).

(** What a try leaves in the events from the transfer to [path] on: the
    three records of [download_with_curl] and, when the transfer succeeds,
    its debug record and the success record of the loop. *)
Definition transfer_events (r : curl_replies) (dl_filename adress path : string)
  : list event :=
  [Log INFO (Downloading dl_filename
               (Text.first_field (Text.split "?token" adress)));
   Log DEBUG (DLFilepath path);
   CurlDownload adress path]
  ++ (if transfer_ok r
      then [Log DEBUG (DLCommand adress path); Log INFO (Downloaded path)]
      else []).

Definition is_head (e : event) : bool :=
  match e with
  | HeadCall _ => true
  | _ => false
  end.

Definition is_transfer (e : event) : bool :=
  match e with
  | TransferCall _ => true
  | _ => false
  end.

Definition SLASH : ascii := "/"%char.

(** The header probe names a file outside the output directory. *)
Definition absolute_name_replies : curl_replies :=
  CurlReplies (Some [("access_token", "TOK")]) (Some "/tmp/elsewhere.zip") true.

(** The header probe names a file that is no archive. *)
Definition html_name_replies : curl_replies :=
  CurlReplies (Some [("access_token", "TOK")]) (Some "error.html") true.

(** Ready to download with a credential file that has no colon. *)
Definition colonless_state : state :=
  State "/out" None (Some "/auth.txt") (Some "/out/result_file.txt")
        (<["/auth.txt" := "login password" +:+ String Text.LF ""]>
           (<["/out/result_file.txt" := two_products]> ∅))
        [].

(** ** What a run adds to the events *)

(** Every event that [m] adds satisfies [P]. *)
Definition emits {A} (P : event -> bool) (m : M A) : Prop :=
  forall s, exists new,
    events (snd (m s)) = events s ++ new /\ forallb P new = true.

(** The same for a computation that may not end, when it ends. *)
Definition remits {A} (P : event -> bool) (m : R A) : Prop :=
  forall s r s', m s = Some (r, s') ->
    exists new, events s' = events s ++ new /\ forallb P new = true.

(** A log record or a request to the catalogue. *)
Definition is_search_event (e : event) : bool :=
  match e with
  | Log _ _ | HttpGet _ => true
  | _ => false
  end.

(** Anything but a request to the catalogue. *)
Definition is_not_get (e : event) : bool :=
  match e with
  | HttpGet _ => false
  | _ => true
  end.

Definition query_only (url : option string) (f : SearchFilter) : arguments :=
  {| output_dir := "/out"; run_mode := Query; queryURL := url;
     query_params := f; hrsi_credentials := None; arg_result_file := None |}.

Definition download_only (credential result_list : option string) : arguments :=
  {| output_dir := "/out"; run_mode := Download; queryURL := None;
     query_params := empty_filter; hrsi_credentials := credential;
     arg_result_file := result_list |}.

(** A disk with a credential file and a result list of two products. *)
Definition sample_disk : gmap string string :=
  <["/auth.txt" := "login:password" +:+ String Text.LF ""]>
    (<["/list.txt" := two_products]> ∅).

(** ** Notions for a whole download *)

(** The commands answer a try with [token] and transfer the file. *)
Definition grants (r : curl_replies) (token : string) : Prop :=
  exists out,
    token_out r = Some out
    /\ dict_get "access_token" out = Some token
    /\ transfer_ok r = true.

(** The name of the file for the title of an entry. *)
Definition zip_name (title : string) : string :=
  Text.last_field (Text.split "/" title) +:+ ".zip".

(** The command line of the token request as one text: the user name and
    the password stand between double quotes, as they are. *)
Definition token_line (username password : string) : string :=
  "curl -s -d " +:+ DQ +:+ "client_id=PUBLIC" +:+ DQ
  +:+ " -d " +:+ DQ +:+ "username=" +:+ username +:+ DQ
  +:+ " -d " +:+ DQ +:+ "password=" +:+ password +:+ DQ
  +:+ " -d " +:+ DQ +:+ "grant_type=password" +:+ DQ
  +:+ " " +:+ DQ
  +:+ "https://cryo.land.copernicus.eu/auth/realms/cryo/protocol/openid-connect/token"
  +:+ DQ.

(** One token command and one transfer command for each entry in turn;
    the entry number [i] of the list is transferred with the token
    [token_at i]. *)
Fixpoint traffic (username password out_path : string) (token_at : nat -> string)
  (i : nat) (entries : list (string * string)) : list event :=
  match entries with
  | [] => []
  | p :: rest =>
      [TokenCall (token_line username password);
       TransferCall ("curl " +:+ (fst p +:+ "?token=" +:+ token_at i)
                     +:+ " -o " +:+ path_join out_path (zip_name (snd p))
                     +:+ " -s")]
      ++ traffic username password out_path token_at (S i) rest
  end.


(** ** Notions for the credential file *)

Definition COLON : ascii := ":"%char.

(** A character that is neither a colon nor a line break. *)
Definition login_char (c : ascii) : bool :=
  negb (Ascii.eqb c COLON) && negb (Ascii.eqb c Text.LF)
  && negb (Ascii.eqb c Text.CR).

Definition line_char (c : ascii) : bool :=
  negb (Ascii.eqb c Text.LF) && negb (Ascii.eqb c Text.CR).

(** A credential file of one line with a second colon in it. *)
Definition credential_line (login password tail : string) : string :=
  login +:+ String COLON (password +:+ String COLON (tail +:+ String Text.LF "")).

(** ** Notions for the answers of the catalogue *)

(** Every request is answered with an error status and a body that has
    an empty list of features. *)
Definition world_error_status : world :=
  {| catalogue := fun _ => Response false (Some (JObj [("features", JArr [])]));
     curl := fun _ _ => token_granted;
     set_order := elements;
     output_dir_exists := false;
     cwd := "/" |}.

(** Only a cloud cover of at most 0 percent. *)
Definition zero_cloud_filter : SearchFilter :=
  {| productIdentifier := None; productType := None; mission := None;
     obsDateMin := None; obsDateMax := None;
     publicationDateMin := None; publicationDateMax := None;
     cloudCoverageMax := Some 0%Z; geometry := None; textualSearch := None |}.

(** ** Notions for the upper-casing *)

(** A field that is absent, or whose text has its upper-cased text among
    the texts of code points 0..255. *)
Definition upper_known (field : option string) : bool :=
  match field with
  | Some v => all_chars Text.has_upper v
  | None => true
  end.

(** A tile in lower case, a type that starts with the e with acute accent
    (code point 233), a mission that starts with the sharp s (223). *)
Definition accented_filter : SearchFilter :=
  {| productIdentifier := Some "31tch";
     productType := Some (String (ascii_of_nat 233) "t");
     mission := Some (String (ascii_of_nat 223) "2");
     obsDateMin := None; obsDateMax := None;
     publicationDateMin := None; publicationDateMax := None;
     cloudCoverageMax := Some 20%Z; geometry := None; textualSearch := None |}.

(** * Properties *)

(** ** The query builder *)

Lemma add_events_app s a b :
  add_events (add_events s a) b = add_events s (a ++ b).
Proof. unfold add_events; simpl. by rewrite <- app_assoc. Qed.

Lemma add_events_nil s : add_events s [] = s.
Proof. destruct s; unfold add_events; simpl. by rewrite app_nil_r. Qed.

Ltac by_compute := apply (bool_decide_unpack _); vm_compute; exact I.

Ltac run_py :=
  unfold bind, ret, raise, sys_exit, logging, emit, try_except, get_state,
    lift, rbind; simpl.

Lemma build_request_empty s :
  build_request empty_filter s
  = (Raise (SystemExit (-2)), add_events s [Log ERROR NoQueryParameters]).
Proof. reflexivity. Qed.

(** C7.  With no query given and an empty filter, a run in a query mode
    ends in [SystemExit(-2)], a non-zero exit status, having logged the
    error and reached the network not once. *)
Theorem empty_filter_exits_before_any_request
  (fuel : nat) (w : world) (args : arguments) (disk : gmap string string) :
  run_mode args <> Download ->
  truthy (queryURL args) = None ->
  query_params args = empty_filter ->
  exists s,
    main fuel w args disk = Some (Raise (SystemExit (-2)), s)
    /\ exit_status (-2) <> 0%Z
    /\ hrsi_http_request s = None
    /\ In (Log ERROR NoQueryParameters) (events s)
    /\ forallb (fun e => negb (is_network e)) (events s) = true.
Proof.
  intros Hmode Hurl Hf.
  eexists. unfold main, main_body.
  destruct (run_mode args) eqn:Hm; [| |congruence];
    rewrite Hurl, Hf; (split; [reflexivity|]);
    (split; [by vm_compute|]); (split; [reflexivity|]);
    simpl; (split; [auto|]); by destruct (output_dir_exists w).
Qed.


Lemma empty_filter_exits_before_any_request_witness :
  run_mode query_without_params <> Download
  /\ truthy (queryURL query_without_params) = None
  /\ query_params query_without_params = empty_filter
  /\ exists s,
       main 3 quiet_world query_without_params ∅
       = Some (Raise (SystemExit (-2)), s)
       /\ exit_status (-2) <> 0%Z
       /\ hrsi_http_request s = None
       /\ In (Log ERROR NoQueryParameters) (events s)
       /\ forallb (fun e => negb (is_network e)) (events s) = true.
Proof.
  split; [discriminate|]. split; [reflexivity|]. split; [reflexivity|].
  apply (empty_filter_exits_before_any_request 3 quiet_world
           query_without_params ∅); [discriminate | reflexivity | reflexivity].
Defined.

Section Builder.

Implicit Types (d : dict) (s : state).

Lemma step_text (field : option string) d (key : string)
      (val : string -> string) {B} (k : dict -> M B) s :
  given_text field = true ->
  bind (if_str field d (fun v => ret (dict_set key (val v) d))) k s
  = k (assign d (key, val <$> field)) s.
Proof.
  unfold if_str, if_truthy, assign, given_text, bind, ret.
  destruct field as [v|]; simpl; [intros ->|]; reflexivity.
Qed.

Lemma step_date (field : option string) d (key : string)
      {B} (k : dict -> M B) s :
  given_date field = true ->
  bind (if_str field d (fun v =>
          bind (validate_Rfc3339 v) (fun t => ret (dict_set key t d)))) k s
  = k (assign d (key, field)) s.
Proof.
  unfold if_str, if_truthy, assign, given_date, validate_Rfc3339, bind, ret.
  destruct field as [v|]; simpl; [|reflexivity].
  intros [-> ->]%andb_prop. reflexivity.
Qed.

Lemma step_number (field : option Z) d (key : string)
      (val : Z -> string) {B} (k : dict -> M B) s :
  given_number field = true ->
  bind (if_int field d (fun v => ret (dict_set key (val v) d))) k s
  = k (assign d (key, val <$> field)) s.
Proof.
  unfold if_int, if_truthy, assign, given_number, bind, ret.
  destruct field as [v|]; simpl; [intros ->|]; reflexivity.
Qed.

(** What [build_request] does once the assignments are made. *)
Lemma build_request_usable (f : SearchFilter) s :
  usable f = true ->
  build_request f s
  = match fold_left assign (assignments f) [] with
    | _ :: _ => (Ok tt, with_query s (built_params f))
    | [] => (Raise (SystemExit (-2)),
             add_events s [Log ERROR NoQueryParameters])
    end.
Proof.
  unfold usable. intros Hu.
  repeat (apply andb_prop in Hu; destruct Hu as [Hu ?]).
  unfold build_request.
  rewrite (step_text (productIdentifier f) [] _
             (fun v => "%25" +:+ Text.upper v +:+ "%25")) by assumption.
  rewrite (step_text (productType f) _ _ Text.upper) by assumption.
  rewrite (step_text (mission f) _ _ Text.upper) by assumption.
  rewrite !step_date by assumption.
  rewrite (step_number (cloudCoverageMax f) _ _
             (fun v => "[0," +:+ pretty v +:+ "]")) by assumption.
  rewrite (step_text (geometry f) _ _ (fun v => v)) by assumption.
  rewrite (step_text (textualSearch f) _ _ (Text.replace " " "+"))
    by assumption.
  unfold built_params, assignments; simpl fold_left.
  replace ((fun v => v) <$> geometry f) with (geometry f)
    by (by destruct (geometry f)).
  match goal with
  | |- match ?d with _ => _ end _ = _ => destruct d eqn:Hd
  end; [reflexivity|].
  generalize (dict_update (p :: l) URL_STATIC_PARAMS). intros url_params.
  run_py. unfold with_query, add_events, set_hrsi_http_request; run_py.
  rewrite <- !app_assoc. reflexivity.
Qed.

Lemma dict_keys_set_fresh {V} (key : string) (v : V) (m : list (string * V)) :
  key ∉ dict_keys m -> dict_keys (dict_set key v m) = dict_keys m ++ [key].
Proof.
  induction m as [|[k v'] m IH]; simpl; [reflexivity|].
  intros Hk. apply not_elem_of_cons in Hk as [Hne Hk].
  destruct (String.eqb_spec k key) as [->|_]; [congruence|].
  simpl. by rewrite IH.
Qed.

Lemma dict_keys_update {V} (other m : list (string * V)) :
  NoDup (dict_keys other) ->
  (forall k, k ∈ dict_keys other -> k ∉ dict_keys m) ->
  dict_keys (dict_update m other) = dict_keys m ++ dict_keys other.
Proof.
  unfold dict_update. revert m.
  induction other as [|[k v] other IH]; intros m Hnd Hdisj; simpl.
  - by rewrite app_nil_r.
  - apply NoDup_cons in Hnd as [Hk Hnd].
    rewrite IH; [| assumption |].
    + rewrite dict_keys_set_fresh by (apply Hdisj; simpl; left).
      by rewrite <- app_assoc.
    + intros k' Hk'. rewrite dict_keys_set_fresh
        by (apply Hdisj; simpl; left).
      intros [Hin | ->%list_elem_of_singleton]%elem_of_app.
      * revert Hin. apply Hdisj. simpl. by right.
      * contradiction.
Qed.

Lemma dict_keys_assignments (l : list (string * option string)) d :
  NoDup (map fst l) ->
  (forall k, k ∈ map fst l -> k ∉ dict_keys d) ->
  dict_keys (fold_left assign l d) = dict_keys d ++ given_keys l.
Proof.
  revert d. induction l as [|[k [v|]] l IH]; intros d Hnd Hdisj; simpl.
  - by rewrite app_nil_r.
  - apply NoDup_cons in Hnd as [Hk Hnd]. simpl in Hk.
    unfold assign at 2; simpl.
    rewrite IH; [| assumption |].
    + rewrite dict_keys_set_fresh by (apply Hdisj; simpl; left).
      by rewrite <- app_assoc.
    + intros k' Hk'. rewrite dict_keys_set_fresh
        by (apply Hdisj; simpl; left).
      intros [Hin | ->%list_elem_of_singleton]%elem_of_app.
      * revert Hin. apply Hdisj. simpl. by right.
      * contradiction.
  - apply NoDup_cons in Hnd as [Hk Hnd].
    unfold assign at 2; simpl. apply IH; [assumption|].
    intros k' Hk'. apply Hdisj. simpl. by right.
Qed.

Lemma key_if_fmap {A B} (g : A -> B) (field : option A) (key : string) :
  key_if (g <$> field) key = key_if field key.
Proof. by destruct field. Qed.

Lemma given_keys_assignments (f : SearchFilter) :
  given_keys (assignments f) = mapped_keys f.
Proof.
  unfold given_keys, assignments, mapped_keys; simpl.
  rewrite !key_if_fmap, app_nil_r. reflexivity.
Qed.

Lemma assignments_keys (f : SearchFilter) :
  map fst (assignments f)
  = [URL_PARAM_PRODUCT_IDENTIFIER; URL_PARAM_PRODUCT_TYPE; URL_PARAM_MISSION;
     URL_PARAM_OBSERVATIONDATE_AFTER; URL_PARAM_OBSERVATIONDATE_BEFORE;
     URL_PARAM_PUBLISHED_AFTER; URL_PARAM_PUBLISHED_BEFORE;
     URL_PARAM_CLOUD_COVER; URL_PARAM_GEOMETRY; URL_PARAM_TEXTUAL_SEARCH].
Proof. reflexivity. Qed.

Lemma given_keys_subset (l : list (string * option string)) (k : string) :
  k ∈ given_keys l -> k ∈ map fst l.
Proof.
  induction l as [|[k' [v|]] l IH]; simpl; [done | |].
  - intros [->|Hin]%elem_of_cons; [left | right; auto].
  - intros Hin. right. auto.
Qed.

Lemma static_keys_apart (f : SearchFilter) (k : string) :
  k ∈ dict_keys URL_STATIC_PARAMS -> k ∈ map fst (assignments f) -> False.
Proof.
  rewrite assignments_keys. revert k.
  apply (proj1 (Forall_forall (fun k => k ∉ _) _)). by_compute.
Qed.

Lemma assigned_keys (f : SearchFilter) :
  dict_keys (fold_left assign (assignments f) []) = mapped_keys f.
Proof.
  rewrite dict_keys_assignments.
  - apply given_keys_assignments.
  - rewrite assignments_keys. by_compute.
  - intros k _. simpl. apply not_elem_of_nil.
Qed.

Lemma built_params_keys (f : SearchFilter) :
  dict_keys (built_params f) = mapped_keys f ++ dict_keys URL_STATIC_PARAMS.
Proof.
  unfold built_params. rewrite dict_keys_update.
  - by rewrite assigned_keys.
  - by_compute.
  - intros k Hk. rewrite assigned_keys, <- given_keys_assignments.
    intros Hin%given_keys_subset.
    exact (static_keys_apart f k Hk Hin).
Qed.

Lemma mapped_keys_nonempty (f : SearchFilter) :
  some_field_set f = true -> mapped_keys f <> [].
Proof.
  unfold some_field_set, mapped_keys, key_if. intros Hs Hnil.
  repeat (apply app_eq_nil in Hnil; destruct Hnil as [? Hnil]).
  repeat match goal with
         | H : (if is_set ?x then _ else _) = [] |- _ =>
             destruct (is_set x); [discriminate H | clear H]
         end.
  discriminate Hs.
Qed.

End Builder.

(** C4, on the code.  A cloud cover of 0 is a field that is set, and its
    key is not in the parameters: the test [if cloudCoverageMax:] reads 0
    as not given.  Beside a product type the query is configured without
    [cloudCover]; alone, a cloud cover of 0 makes the builder report that
    no parameter was given and exit. *)
Theorem build_request_drops_zero_cloud_cover :
  is_set (cloudCoverageMax cloudless_filter) = true
  /\ In "cloudCover" (mapped_keys cloudless_filter)
  /\ (exists url_params,
        build_request cloudless_filter initial_state
        = (Ok tt, with_query initial_state url_params)
        /\ dict_keys url_params
           = ["productType"; "status"; "maxRecords"; "dataset"; "sortParam";
              "sortOrder"])
  /\ is_set (cloudCoverageMax zero_cloud_filter) = true
  /\ some_field_set zero_cloud_filter = true
  /\ build_request zero_cloud_filter initial_state
     = (Raise (SystemExit (-2)),
        add_events initial_state [Log ERROR NoQueryParameters]).
Proof.
  split; [reflexivity|]. split; [simpl; auto|].
  split.
  { exists (dict_update [("productType", "FSC")] URL_STATIC_PARAMS).
    split; reflexivity. }
  repeat split.
Qed.

(** ** The token exchange *)

(** C9, as the code has it.  When the answer of the token endpoint has an
    [error] field, [__get_token__] logs it; it then raises [KeyError] when
    the answer has no [access_token], and returns the [access_token] when
    the answer has one. *)
Theorem get_token_error_field
  (r : curl_replies) (username password : string) (rest : list string)
  (out : dict) (s : state) :
  token_out r = Some out ->
  is_Some (dict_get "error" out) ->
  get_token r (username :: password :: rest) s
  = (match dict_get "access_token" out with
     | Some token => Ok token
     | None => Raise (KeyError "access_token")
     end,
     add_events s [CurlToken username password; Log ERROR (TokenError out)]).
Proof.
  intros Hout Herr. unfold get_token. rewrite Hout.
  rewrite bool_decide_eq_true_2 by assumption.
  run_py. rewrite add_events_app. simpl.
  destruct (dict_get "access_token" out); reflexivity.
Qed.

Lemma get_token_error_field_witness :
  token_out (CurlReplies (Some error_and_token) None true) = Some error_and_token
  /\ is_Some (dict_get "error" error_and_token)
  /\ get_token (CurlReplies (Some error_and_token) None true)
               ["login"; "password"] initial_state
     = (Ok "TOK",
        add_events initial_state
          [CurlToken "login" "password"; Log ERROR (TokenError error_and_token)]).
Proof.
  split; [reflexivity|]. split; [by eexists|].
  apply (get_token_error_field
           (CurlReplies (Some error_and_token) None true)
           "login" "password" [] error_and_token initial_state);
    [reflexivity | by eexists].
Defined.

(** C9, as stated, fails: the answer carries an [error] field and an
    [access_token]; the token is returned and the download address is
    built from it. *)
Lemma get_token_returns_token_despite_error :
  dict_get "error" error_and_token = Some "invalid_grant"
  /\ fst (get_token (CurlReplies (Some error_and_token) None true)
                    ["login"; "password"] initial_state) = Ok "TOK"
  /\ fst (hrsi_adress (CurlReplies (Some error_and_token) None true)
                      "u1" ["login"; "password"] initial_state)
     = Ok "u1?token=TOK".
Proof. repeat split. Qed.

(** ** A page without [features] *)

(** A response that is falsy, or whose body is an object without a
    [features] member, makes [request_page] raise [NameError]: the name
    [url_params_page] is loaded for the log message before the logging
    call is made, so nothing is logged. *)
Lemma request_page_missing_features
  (w : world) (http_request : string) (page_index : nat) (s : state)
  (ok : bool) (body : option json) :
  catalogue w page_index = Response ok body ->
  ok = false
  \/ (exists members, body = Some (JObj members)
                      /\ dict_get "features" members = None) ->
  request_page w http_request page_index s
  = (Raise (NameError "url_params_page"),
     add_events s [Log INFO (ProcessingPage page_index);
                   HttpGet (page_url http_request page_index)]).
Proof.
  intros Hcat Hbody. unfold request_page, requests_get, read_response. run_py.
  rewrite Hcat. simpl. rewrite add_events_app. simpl.
  destruct Hbody as [-> | (members & -> & Hnone)]; simpl.
  - reflexivity.
  - destruct ok; simpl; [rewrite Hnone|]; reflexivity.
Qed.

(** C2, on the code.  Page 1 has a product and the body of page 2 is the
    empty object: the run ends in [NameError], no error record was
    logged, and no result list was written. *)
Theorem missing_features_not_reported :
  exists s,
    execute_request 5 world_missing_features None query_state
    = Some (Raise (NameError "url_params_page"), s)
    /\ events s
       = [Log INFO (Requesting sample_query);
          Log INFO (ProcessingPage 1); HttpGet (page_url sample_query 1);
          Log INFO (ProcessingPage 2); HttpGet (page_url sample_query 2)]
    /\ List.filter is_error_log (events s) = []
    /\ result_file s = None
    /\ files s = ∅.
Proof. eexists. repeat split. Qed.

(** ** The tries of one download *)

(** With [max_retry = 1] the loop makes one try and hands on what it
    raises. *)
Lemma download_product_single_try
  (w : world) (credentials : list string) (i : nat)
  (info_product : list string) (s : state) :
  download_product w credentials i info_product max_retry 0 s
  = try_download (curl w i 0) credentials info_product s.
Proof.
  unfold max_retry. simp download_product. simpl.
  unfold try_except. simp download_product.
  destruct (try_download _ _ _ s) as [[v|e] s']; [by destruct v | reflexivity].
Qed.

(** With a bound of 2 a first failure is followed by a sleep of 5 seconds
    and a second try. *)
Lemma download_product_second_try
  (w : world) (credentials : list string) (i : nat)
  (info_product : list string) (s s1 : state) (e : exn) :
  try_download (curl w i 0) credentials info_product s = (Raise e, s1) ->
  download_product w credentials i info_product 2 0 s
  = try_download (curl w i 1) credentials info_product
      (add_events s1 [Sleep 5; Log INFO (TryFailed 1)]).
Proof.
  intros Hfirst. simp download_product. simpl.
  unfold try_except at 1. rewrite Hfirst. simpl.
  run_py. rewrite add_events_app. simpl.
  change (5 * Z.of_nat 1)%Z with 5%Z.
  generalize (add_events s1 [Sleep 5; Log INFO (TryFailed 1)]). intros s2.
  simp download_product. simpl. unfold try_except.
  destruct (try_download _ _ _ s2) as [[[]|e'] s']; reflexivity.
Qed.

(** C3, on the code.  The result list has one product; its first try
    fails in the transfer and a second try would succeed.  The run ends in
    the error of the first try: one token request, one transfer, no sleep,
    no second try. *)
Theorem download_gives_up_after_first_failure :
  fst (try_download (curl world_fail_then_ok 0 1) ["login"; "password"]
                    ["u1"; "t1"] (download_state one_product)) = Ok tt
  /\ exists s,
       download world_fail_then_ok (download_state one_product)
       = (Raise CalledProcessError, s)
       /\ events s
          = [CurlToken "login" "password";
             Log INFO (Downloading "t1.zip" "u1");
             Log DEBUG (DLFilepath "/out/t1.zip");
             CurlDownload "u1?token=TOK" "/out/t1.zip"]
       /\ List.filter is_sleep (events s) = [].
Proof. split; [reflexivity|]. eexists. repeat split. Qed.

(** ** The loop over the result list *)

Section Loop.

Variables (w : world) (credentials : list string) (bound : nat).

Lemma for_products_app (before rest : list (list string)) (i : nat) (s : state) :
  for_products w credentials bound i (before ++ rest) s
  = match for_products w credentials bound i before s with
    | (Ok _, s1) =>
        for_products w credentials bound (i + length before) rest s1
    | (Raise e, s1) => (Raise e, s1)
    end.
Proof.
  revert i s. induction before as [|p before IH]; intros i s; simpl.
  - by rewrite Nat.add_0_r.
  - unfold bind.
    destruct (download_product w credentials i p bound 0 s) as [[v|e] s1];
      [|reflexivity].
    rewrite IH. by rewrite Nat.add_succ_comm.
Qed.

Lemma attempted_app (before rest : list (list string)) (i : nat) (s : state) :
  attempted w credentials bound i (before ++ rest) s
  = match for_products w credentials bound i before s with
    | (Ok _, s1) =>
        before ++ attempted w credentials bound (i + length before) rest s1
    | (Raise _, _) => attempted w credentials bound i before s
    end.
Proof.
  revert i s. induction before as [|p before IH]; intros i s; simpl.
  - by rewrite Nat.add_0_r.
  - unfold bind.
    destruct (download_product w credentials i p bound 0 s) as [[v|e] s1];
      [|reflexivity].
    rewrite IH. rewrite Nat.add_succ_comm.
    by destruct (for_products w credentials bound (S i) before s1) as [[]].
Qed.

(** The run stops at the first entry whose download raises: that entry
    is the last one worked on. *)
Lemma attempted_stops (l : list (list string)) (i : nat) (s : state) :
  match for_products w credentials bound i l s with
  | (Ok _, _) => attempted w credentials bound i l s = l
  | (Raise e, s2) =>
      exists before p after s1,
        l = before ++ p :: after
        /\ for_products w credentials bound i before s = (Ok tt, s1)
        /\ download_product w credentials (i + length before) p bound 0 s1
           = (Raise e, s2)
        /\ attempted w credentials bound i l s = before ++ [p]
  end.
Proof.
  revert i s. induction l as [|p l IH]; intros i s; simpl; [reflexivity|].
  unfold bind.
  destruct (download_product w credentials i p bound 0 s) as [[[]|e] s1] eqn:Hp.
  - specialize (IH (S i) s1).
    destruct (for_products w credentials bound (S i) l s1) as [[v|e] s2].
    + by rewrite IH.
    + destruct IH as (before & q & after & s1' & -> & Hbefore & Hq & Hatt).
      exists (p :: before), q, after, s1'. simpl.
      unfold bind. rewrite Hp, Hbefore, Hatt.
      rewrite <- Nat.add_succ_comm. auto.
  - exists [], p, l, s. simpl. rewrite Nat.add_0_r. auto.
Qed.

(** When every try on an entry raises, the bound is reached and the
    loop over the tries raises. *)
Lemma download_product_exhausted (i : nat) (p : list string) :
  (forall n s, n < bound ->
     exists e, fst (try_download (curl w i n) credentials p s) = Raise e) ->
  forall k ntries s,
    bound - ntries = S k ->
    exists e s', download_product w credentials i p bound ntries s = (Raise e, s').
Proof.
  intros Hfail k. induction k as [|k IH]; intros ntries s Hk;
    simp download_product;
    (destruct (decide (ntries < bound)) as [Hlt|]; [|lia]); simpl;
    unfold try_except;
    destruct (Hfail ntries s Hlt) as [e He];
    destruct (try_download (curl w i ntries) credentials p s) as [r s1];
    simpl in He; subst r.
  - destruct (decide (ntries + 1 = bound)); [|lia]. by eexists _, _.
  - destruct (decide (ntries + 1 = bound)); [lia|].
    run_py. apply IH. lia.
Qed.

End Loop.

(** What [download] does when the credential file and the result list
    are configured and on disk. *)
Lemma download_run (w : world) (s : state)
  (credential_path credential result_path content : string) :
  hrsi_credential s = Some credential_path ->
  files s !! credential_path = Some credential ->
  result_file s = Some result_path ->
  files s !! result_path = Some content ->
  download w s
  = for_products w (credentials_of credential) max_retry 0
      (parse_result_list (Text.readlines content)) s.
Proof.
  intros Hc Hcf Hr Hrf. unfold download, read_file. run_py.
  rewrite Hc. simpl. rewrite Hcf. simpl. rewrite Hr. simpl. rewrite Hrf.
  reflexivity.
Qed.

(** C5.  When the result list reads [before ++ p :: after], the downloads
    of [before] return and every try on [p] raises, then [download] raises
    in the state in which the last try on [p] ended: [p] is the last entry
    worked on, no entry of [after] is. *)
Theorem download_halts_at_exhausted_product
  (w : world) (s s1 : state)
  (credential_path credential result_path content : string)
  (before after : list (list string)) (p : list string) :
  hrsi_credential s = Some credential_path ->
  files s !! credential_path = Some credential ->
  result_file s = Some result_path ->
  files s !! result_path = Some content ->
  parse_result_list (Text.readlines content) = before ++ p :: after ->
  for_products w (credentials_of credential) max_retry 0 before s = (Ok tt, s1) ->
  (forall n s', n < max_retry ->
     exists e, fst (try_download (curl w (length before) n)
                                 (credentials_of credential) p s') = Raise e) ->
  exists e s2,
    download_product w (credentials_of credential) (length before) p max_retry 0 s1
    = (Raise e, s2)
    /\ download w s = (Raise e, s2)
    /\ attempted w (credentials_of credential) max_retry 0
                 (before ++ p :: after) s = before ++ [p].
Proof.
  intros Hc Hcf Hr Hrf Hlist Hbefore Hfail.
  destruct (download_product_exhausted w (credentials_of credential) max_retry
              (length before) p Hfail 0 0 s1 eq_refl) as (e & s2 & Hp).
  exists e, s2. split; [exact Hp|].
  assert (Hrun : for_products w (credentials_of credential) max_retry 0
                   (before ++ p :: after) s = (Raise e, s2)).
  { rewrite for_products_app, Hbefore. simpl. unfold bind. by rewrite Hp. }
  split.
  - rewrite (download_run w s _ _ _ _ Hc Hcf Hr Hrf), Hlist. exact Hrun.
  - rewrite attempted_app, Hbefore. simpl. by rewrite Hp.
Qed.

Lemma download_halts_at_exhausted_product_witness :
  let s := download_state three_products in
  let credentials := credentials_of ("login:password" +:+ String Text.LF "") in
  parse_result_list (Text.readlines three_products)
  = [["u1"; "t1"]] ++ ["u2"; "t2"] :: [["u3"; "t3"]]
  /\ (forall n s', n < max_retry ->
        exists e, fst (try_download (curl world_second_fails 1 n)
                                    credentials ["u2"; "t2"] s') = Raise e)
  /\ exists e s2,
       download_product world_second_fails credentials 1 ["u2"; "t2"] max_retry 0
         (snd (for_products world_second_fails credentials max_retry 0
                 [["u1"; "t1"]] s))
       = (Raise e, s2)
       /\ download world_second_fails s = (Raise e, s2)
       /\ attempted world_second_fails credentials max_retry 0
            ([["u1"; "t1"]] ++ ["u2"; "t2"] :: [["u3"; "t3"]]) s
          = [["u1"; "t1"]] ++ [["u2"; "t2"]].
Proof.
  intros s credentials.
  assert (Hfail : forall n s', n < max_retry ->
            exists e, fst (try_download (curl world_second_fails 1 n)
                                        credentials ["u2"; "t2"] s') = Raise e).
  { intros n s' Hn. exists CalledProcessError.
    destruct n; [reflexivity | unfold max_retry in Hn; lia]. }
  split; [reflexivity|]. split; [exact Hfail|].
  apply (download_halts_at_exhausted_product world_second_fails s
           (snd (for_products world_second_fails credentials max_retry 0
                   [["u1"; "t1"]] s))
           "/auth.txt" ("login:password" +:+ String Text.LF "")
           "/out/result_file.txt" three_products
           [["u1"; "t1"]] [["u3"; "t3"]] ["u2"; "t2"]);
    try reflexivity.
  exact Hfail.
Defined.

(** ** Reading the result list *)

Section Lines.

Lemma lstrip_blank (x : string) : is_blank x = true -> Text.lstrip x = "".
Proof.
  induction x as [|c x IH]; simpl; [reflexivity|].
  intros [-> Hx]%andb_prop. auto.
Qed.

Lemma lstrip_not_blank (x : string) :
  is_blank x = false ->
  exists c r, Text.lstrip x = String c r /\ Text.is_space c = false.
Proof.
  induction x as [|c x IH]; simpl; [discriminate|].
  destruct (Text.is_space c) eqn:Hc; simpl; [auto | eauto].
Qed.

Lemma rstrip_cons (c : ascii) (r : string) :
  Text.is_space c = false ->
  Text.rstrip (String c r) = String c (Text.rstrip r).
Proof. intros Hc. simpl. rewrite Hc. by destruct (Text.rstrip r). Qed.

(** The test [if x.strip()] keeps the lines that are not blank. *)
Lemma strip_nonempty (x : string) :
  Text.nonempty (Text.strip x) = negb (is_blank x).
Proof.
  unfold Text.strip. destruct (is_blank x) eqn:Hb.
  - by rewrite lstrip_blank.
  - destruct (lstrip_not_blank x Hb) as (c & r & -> & Hc).
    by rewrite rstrip_cons.
Qed.

Lemma parse_result_list_fields (content : list string) :
  parse_result_list content
  = map fields (List.filter (fun line => negb (is_blank line)) content).
Proof.
  unfold parse_result_list.
  induction content as [|x l IH]; [reflexivity|].
  rewrite filter_cons. simpl. rewrite <- strip_nonempty.
  destruct (Text.nonempty (Text.strip x)) eqn:Hx.
  - rewrite decide_True by reflexivity. simpl. by rewrite <- IH.
  - rewrite decide_False by discriminate. exact IH.
Qed.

Lemma split_not_nil (sep s : string) : Text.split sep s <> [].
Proof.
  unfold Text.split. generalize 0. induction s as [|c s IH]; intros k; simpl.
  - discriminate.
  - destruct k; [|apply IH].
    match goal with
    | |- (if ?b then _ else _) <> _ => destruct b; [discriminate|]
    end.
    by destruct (Text.split_go sep 0 s).
Qed.

End Lines.

(** C10, as the code has it.  The entries [download] works on are the
    non-blank lines of the result list in file order, each stripped and
    cut at [;] (never into nothing: a URL field is always there): all of
    them when [download] returns, and when it raises those up to and
    including the first entry whose download raised. *)
Theorem download_attempts_nonblank_lines
  (w : world) (s : state)
  (credential_path credential result_path content : string) :
  hrsi_credential s = Some credential_path ->
  files s !! credential_path = Some credential ->
  result_file s = Some result_path ->
  files s !! result_path = Some content ->
  let product_list := map fields (nonblank_lines content) in
  Forall (fun info_product => info_product <> []) product_list
  /\ match download w s with
     | (Ok _, _) => download_attempts w s = product_list
     | (Raise e, s2) =>
         exists before p after s1,
           product_list = before ++ p :: after
           /\ for_products w (credentials_of credential) max_retry 0 before s
              = (Ok tt, s1)
           /\ download_product w (credentials_of credential) (length before)
                               p max_retry 0 s1 = (Raise e, s2)
           /\ download_attempts w s = before ++ [p]
     end.
Proof.
  intros Hc Hcf Hr Hrf product_list. split.
  - subst product_list.
    induction (nonblank_lines content) as [|line l IH]; simpl;
      constructor; [apply split_not_nil | exact IH].
  - rewrite (download_run w s _ _ _ _ Hc Hcf Hr Hrf).
    unfold download_attempts. rewrite Hc, Hr, Hcf, Hrf.
    rewrite parse_result_list_fields. fold (nonblank_lines content).
    fold product_list.
    exact (attempted_stops w (credentials_of credential) max_retry
             product_list 0 s).
Qed.

Lemma download_attempts_nonblank_lines_witness :
  let s := download_state spaced_list in
  hrsi_credential s = Some "/auth.txt"
  /\ files s !! "/auth.txt" = Some ("login:password" +:+ String Text.LF "")
  /\ result_file s = Some "/out/result_file.txt"
  /\ files s !! "/out/result_file.txt" = Some spaced_list
  /\ map fields (nonblank_lines spaced_list) = [["u1"; "t1"]; ["u2"]]
  /\ download_attempts quiet_world s = [["u1"; "t1"]; ["u2"]].
Proof.
  intros s. repeat (split; [reflexivity|]).
  pose proof (download_attempts_nonblank_lines quiet_world s
                "/auth.txt" ("login:password" +:+ String Text.LF "")
                "/out/result_file.txt" spaced_list
                eq_refl eq_refl eq_refl eq_refl) as [_ H].
  exact H.
Defined.

(** C10, as stated, fails: the list has two products and the download of
    the first one raises; the second line is not blank and is never
    worked on. *)
Lemma download_attempts_stop_at_failure :
  map fields (nonblank_lines two_products) = [["u1"; "t1"]; ["u2"; "t2"]]
  /\ download_attempts world_first_fails (download_state two_products)
     = [["u1"; "t1"]]
  /\ fst (download world_first_fails (download_state two_products))
     = Raise CalledProcessError.
Proof. repeat split. Qed.

(** ** Writing the result list and reading it back *)

Section RoundTrip.

Lemma sapp_nil (s : string) : "" +:+ s = s.
Proof. reflexivity. Qed.

Lemma sapp_cons (c : ascii) (s t : string) :
  String c s +:+ t = String c (s +:+ t).
Proof. reflexivity. Qed.

Lemma sapp_assoc (a b c : string) : (a +:+ b) +:+ c = a +:+ b +:+ c.
Proof.
  induction a as [|x a IH]; [reflexivity|].
  rewrite !sapp_cons. by rewrite IH.
Qed.

Lemma all_chars_app (p : ascii -> bool) (a b : string) :
  all_chars p (a +:+ b) = all_chars p a && all_chars p b.
Proof.
  induction a as [|x a IH]; [reflexivity|].
  rewrite sapp_cons. simpl. rewrite IH. by rewrite andb_assoc.
Qed.

Lemma all_chars_weaken (p q : ascii -> bool) (s : string) :
  (forall c, p c = true -> q c = true) ->
  all_chars p s = true -> all_chars q s = true.
Proof.
  intros Hpq. induction s as [|c s IH]; simpl; [reflexivity|].
  intros [Hc Hs]%andb_prop. rewrite (Hpq c Hc). auto.
Qed.

Lemma universal_newlines_id (s : string) :
  all_chars (fun c => negb (Ascii.eqb c Text.CR)) s = true ->
  Text.universal_newlines s = s.
Proof.
  induction s as [|c s IH]; simpl; [reflexivity|].
  intros [Hc Hs]%andb_prop. apply negb_true_iff in Hc. rewrite Hc.
  by rewrite IH.
Qed.

Lemma lines_first (x rest : string) :
  all_chars (fun c => negb (Ascii.eqb c Text.LF)) x = true ->
  Text.lines (x +:+ String Text.LF rest)
  = (x +:+ String Text.LF "") :: Text.lines rest.
Proof.
  induction x as [|c x IH]; [reflexivity|].
  rewrite !sapp_cons. simpl.
  intros [Hc Hx]%andb_prop. apply negb_true_iff in Hc. rewrite Hc.
  by rewrite IH.
Qed.

Lemma lstrip_length (s : string) :
  String.length (Text.lstrip s) <= String.length s.
Proof.
  induction s as [|c s IH]; simpl; [lia|].
  destruct (Text.is_space c); simpl; lia.
Qed.

Lemma lstrip_fixed (u rest : string) (c : ascii) :
  Text.lstrip u = u -> Text.is_space c = false ->
  Text.lstrip (u +:+ String c rest) = u +:+ String c rest.
Proof.
  intros Hu Hc. destruct u as [|a u].
  - rewrite sapp_nil. simpl. by rewrite Hc.
  - rewrite sapp_cons. simpl in *.
    destruct (Text.is_space a); [|reflexivity].
    pose proof (lstrip_length u) as Hlen. rewrite Hu in Hlen.
    simpl in Hlen. lia.
Qed.

Lemma rstrip_space_end (t : string) (c : ascii) :
  Text.is_space c = true ->
  Text.rstrip (t +:+ String c "") = Text.rstrip t.
Proof.
  intros Hc. induction t as [|a t IH].
  - rewrite sapp_nil. simpl. by rewrite Hc.
  - rewrite sapp_cons. simpl. by rewrite IH.
Qed.

Lemma rstrip_after (a b : string) :
  Text.rstrip b <> "" -> Text.rstrip (a +:+ b) = a +:+ Text.rstrip b.
Proof.
  intros Hb. induction a as [|x a IH]; [reflexivity|].
  rewrite !sapp_cons. simpl. rewrite IH.
  destruct (a +:+ Text.rstrip b) eqn:Hab; [|reflexivity].
  destruct a; [|discriminate]. rewrite sapp_nil in Hab. contradiction.
Qed.

Lemma prefix_semicolon (c : ascii) (s : string) :
  String.prefix ";" (String c s) = Ascii.eqb c SEMICOLON.
Proof.
  cbn [String.prefix]. destruct (ascii_dec ";" c) as [<-|Hne].
  - by destruct s.
  - symmetry. apply Ascii.eqb_neq. unfold SEMICOLON. congruence.
Qed.

Lemma split_plain (t : string) :
  all_chars (fun c => negb (Ascii.eqb c SEMICOLON)) t = true ->
  Text.split_go ";" 0 t = [t].
Proof.
  induction t as [|c t IH]; [reflexivity|].
  intros [Hc Ht]%andb_prop. apply negb_true_iff in Hc.
  cbn [Text.split_go]. rewrite prefix_semicolon, Hc. by rewrite IH.
Qed.

Lemma split_first (u rest : string) :
  all_chars (fun c => negb (Ascii.eqb c SEMICOLON)) u = true ->
  Text.split_go ";" 0 (u +:+ String SEMICOLON rest)
  = u :: Text.split_go ";" 0 rest.
Proof.
  induction u as [|c u IH].
  - intros _. rewrite sapp_nil. cbn [Text.split_go].
    rewrite prefix_semicolon. reflexivity.
  - intros [Hc Hu]%andb_prop. apply negb_true_iff in Hc.
    rewrite sapp_cons. cbn [Text.split_go].
    rewrite prefix_semicolon, Hc. by rewrite IH.
Qed.

Lemma plain_not_semicolon c :
  plain_char c = true -> negb (Ascii.eqb c SEMICOLON) = true.
Proof. unfold plain_char. by intros [[? ?]%andb_prop ?]%andb_prop. Qed.

Lemma plain_not_LF c :
  plain_char c = true -> negb (Ascii.eqb c Text.LF) = true.
Proof. unfold plain_char. by intros [[? ?]%andb_prop ?]%andb_prop. Qed.

Lemma plain_not_CR c :
  plain_char c = true -> negb (Ascii.eqb c Text.CR) = true.
Proof. unfold plain_char. by intros [[? ?]%andb_prop ?]%andb_prop. Qed.

Variables url title : string.
Hypothesis safe : line_safe url title = true.

Lemma safe_parts :
  all_chars plain_char url = true /\ all_chars plain_char title = true
  /\ Text.lstrip url = url /\ Text.rstrip title = title.
Proof using safe.
  unfold line_safe in safe.
  apply andb_prop in safe as [[[? ?]%andb_prop Hl]%andb_prop Hr].
  apply String.eqb_eq in Hl, Hr. auto.
Qed.

(** Stripping a written line gives back [url;title]. *)
Lemma strip_result_line :
  Text.strip (result_line url title) = url +:+ String SEMICOLON title.
Proof using safe.
  destruct safe_parts as (_ & _ & Hl & Hr).
  unfold Text.strip, result_line.
  change (";" +:+ title +:+ String Text.LF "")
    with (String SEMICOLON (title +:+ String Text.LF "")).
  rewrite lstrip_fixed by (assumption || reflexivity).
  assert (Hend : Text.rstrip (String SEMICOLON (title +:+ String Text.LF ""))
                 = String SEMICOLON title).
  { rewrite rstrip_cons by reflexivity.
    rewrite rstrip_space_end by reflexivity. by rewrite Hr. }
  rewrite rstrip_after; rewrite Hend; [reflexivity | discriminate].
Qed.

Lemma fields_result_line : fields (result_line url title) = [url; title].
Proof using safe.
  destruct safe_parts as (Hu & Ht & _ & _).
  unfold fields, Text.split. rewrite strip_result_line.
  rewrite split_first
    by (eapply all_chars_weaken; [apply plain_not_semicolon | exact Hu]).
  rewrite split_plain
    by (eapply all_chars_weaken; [apply plain_not_semicolon | exact Ht]).
  reflexivity.
Qed.

Lemma result_line_not_blank : is_blank (result_line url title) = false.
Proof using safe.
  apply negb_true_iff. rewrite <- strip_nonempty, strip_result_line.
  by destruct url.
Qed.

Lemma result_line_no_CR :
  all_chars (fun c => negb (Ascii.eqb c Text.CR)) (result_line url title)
  = true.
Proof using safe.
  destruct safe_parts as (Hu & Ht & _ & _).
  unfold result_line. rewrite !all_chars_app.
  rewrite (all_chars_weaken _ _ url plain_not_CR Hu).
  rewrite (all_chars_weaken _ _ title plain_not_CR Ht). reflexivity.
Qed.

Lemma lines_result_line (rest : string) :
  Text.lines (result_line url title +:+ rest)
  = result_line url title :: Text.lines rest.
Proof using safe.
  destruct safe_parts as (Hu & Ht & _ & _).
  unfold result_line.
  replace ((url +:+ ";" +:+ title +:+ String Text.LF "") +:+ rest)
    with ((url +:+ ";" +:+ title) +:+ String Text.LF rest)
    by (by rewrite !sapp_assoc).
  rewrite lines_first; [by rewrite !sapp_assoc|].
  rewrite !all_chars_app.
  rewrite (all_chars_weaken _ _ url plain_not_LF Hu).
  rewrite (all_chars_weaken _ _ title plain_not_LF Ht). reflexivity.
Qed.

End RoundTrip.

Lemma concat_cons (x : string) (l : list string) :
  String.concat "" (x :: l) = x +:+ String.concat "" l.
Proof.
  destruct l as [|y l]; simpl; [|reflexivity].
  induction x as [|c x IH]; [reflexivity|]. rewrite sapp_cons. by rewrite <- IH.
Qed.

Lemma serialize_cons (p : string * string) (entries : list (string * string)) :
  serialize (p :: entries) = result_line (fst p) (snd p) +:+ serialize entries.
Proof. unfold serialize. simpl map. apply concat_cons. Qed.

Lemma serialize_no_CR (entries : list (string * string)) :
  Forall (fun p => line_safe (fst p) (snd p) = true) entries ->
  all_chars (fun c => negb (Ascii.eqb c Text.CR)) (serialize entries) = true.
Proof.
  induction 1 as [|p entries Hp _ IH]; [reflexivity|].
  rewrite serialize_cons, all_chars_app, IH.
  by rewrite (result_line_no_CR _ _ Hp).
Qed.

Lemma readlines_serialize (entries : list (string * string)) :
  Forall (fun p => line_safe (fst p) (snd p) = true) entries ->
  Text.readlines (serialize entries)
  = map (fun p => result_line (fst p) (snd p)) entries.
Proof.
  intros Hsafe. unfold Text.readlines.
  rewrite universal_newlines_id by by apply serialize_no_CR.
  induction Hsafe as [|p entries Hp _ IH]; [reflexivity|].
  rewrite serialize_cons, (lines_result_line _ _ Hp), IH. reflexivity.
Qed.

(** Reading back what was written for safe pairs gives the pairs, in the
    order in which they were written. *)
Lemma parse_serialize (entries : list (string * string)) :
  Forall (fun p => line_safe (fst p) (snd p) = true) entries ->
  parse_result_list (Text.readlines (serialize entries))
  = map pair_fields entries.
Proof.
  intros Hsafe. rewrite readlines_serialize by assumption.
  rewrite parse_result_list_fields.
  induction Hsafe as [|p entries Hp _ IH]; [reflexivity|].
  simpl. rewrite (result_line_not_blank _ _ Hp). simpl.
  rewrite (fields_result_line _ _ Hp), IH. reflexivity.
Qed.

(** C8, as the code has it.  For a set of pairs in which no URL and no
    title has a [;] or a line break, no URL starts and no title ends with
    whitespace, written in any order, the parser of the downloader reads
    back one entry [[url; title]] per pair of the set and nothing else. *)
Theorem result_list_round_trip
  (pairs : gset (string * string)) (entries : list (string * string)) :
  entries ≡ₚ elements pairs ->
  Forall (fun p => line_safe (fst p) (snd p) = true) entries ->
  let read_back := parse_result_list (Text.readlines (serialize entries)) in
  read_back = map pair_fields entries
  /\ (forall url title, [url; title] ∈ read_back <-> (url, title) ∈ pairs)
  /\ (forall info, info ∈ read_back -> exists url title, info = [url; title])
  /\ NoDup read_back.
Proof.
  intros Hperm Hsafe read_back. subst read_back.
  rewrite parse_serialize by assumption.
  assert (Hmem : forall p, p ∈ entries <-> p ∈ pairs).
  { intros p. rewrite Hperm. apply elem_of_elements. }
  assert (Hin : forall info, info ∈ map pair_fields entries
                  <-> exists p, info = pair_fields p /\ p ∈ entries).
  { intros info. apply (list_elem_of_fmap pair_fields entries info). }
  split; [reflexivity|]. split; [|split].
  - intros url title. rewrite Hin. split.
    + intros ([u t] & Heq & Hp). injection Heq as -> ->. by apply Hmem.
    + intros Hp. exists (url, title). split; [reflexivity | by apply Hmem].
  - intros info ([u t] & -> & _)%Hin. by exists u, t.
  - assert (Hinj : Inj (=) (=) pair_fields).
    { intros [u t] [u' t'] Heq. by injection Heq as -> ->. }
    apply (NoDup_fmap_2 pair_fields).
    rewrite Hperm. apply NoDup_elements.
Qed.

Lemma result_list_round_trip_witness :
  elements sample_set ≡ₚ elements sample_set
  /\ Forall (fun p => line_safe (fst p) (snd p) = true) (elements sample_set)
  /\ forall url title,
       [url; title] ∈ parse_result_list
                        (Text.readlines (serialize (elements sample_set)))
       <-> (url, title) ∈ sample_set.
Proof.
  assert (Hsafe : Forall (fun p => line_safe (fst p) (snd p) = true)
                         (elements sample_set)) by by_compute.
  split; [reflexivity|]. split; [exact Hsafe|].
  exact (proj1 (proj2 (result_list_round_trip sample_set (elements sample_set)
                         (reflexivity _) Hsafe))).
Defined.

(** C8, as stated, fails: a title with a [;] in it is read back as two
    fields, the entry has three fields and is not the pair. *)
Lemma round_trip_breaks_on_separator :
  parse_result_list (Text.readlines (serialize [("u1", "a;b")]))
  = [["u1"; "a"; "b"]]
  /\ pair_fields ("u1", "a;b") = ["u1"; "a;b"]
  /\ ["u1"; "a;b"] ∉ parse_result_list
                       (Text.readlines (serialize [("u1", "a;b")])).
Proof.
  split; [reflexivity|]. split; [reflexivity|].
  intros Hin. apply list_elem_of_singleton in Hin. discriminate.
Qed.

(** ** The pages of a search *)

Section Pure.

Lemma pure_ret {A} (v : A) : pure (ret v).
Proof. by exists (Ok v). Qed.

Lemma pure_raise {A} (e : exn) : pure (@raise A e).
Proof. by exists (Raise e). Qed.

Lemma pure_bind {A B} (m : M A) (k : A -> M B) :
  pure m -> (forall v, pure (k v)) -> pure (bind m k).
Proof.
  intros [[v|e] Hm] Hk; unfold bind.
  - destruct (Hk v) as [r Hr]. exists r. intros s. by rewrite Hm, Hr.
  - exists (Raise e). intros s. by rewrite Hm.
Qed.

Lemma pure_try {A} (m : M A) (h : exn -> M A) :
  pure m -> (forall e, pure (h e)) -> pure (try_except m h).
Proof.
  intros [[v|e] Hm] Hh; unfold try_except.
  - exists (Ok v). intros s. by rewrite Hm.
  - destruct (Hh e) as [r Hr]. exists r. intros s. by rewrite Hm, Hr.
Qed.

Lemma pure_getitem (obj : json) (key : string) : pure (getitem obj key).
Proof.
  unfold getitem. destruct obj; try apply pure_raise.
  destruct (dict_get key members); [apply pure_ret | apply pure_raise].
Qed.

Lemma pure_read_json_param json_root feature feature_index json_param :
  pure (read_json_param json_root feature feature_index json_param).
Proof.
  unfold read_json_param. apply pure_try.
  - apply pure_bind; [apply pure_getitem | intros; apply pure_getitem].
  - intros []; apply pure_raise.
Qed.

Lemma pure_read_hrsi_feature json_root feature feature_index :
  pure (read_hrsi_feature json_root feature feature_index).
Proof.
  unfold read_hrsi_feature.
  repeat (apply pure_bind;
          [first [apply pure_read_json_param | apply pure_getitem] | intros]).
  apply pure_ret.
Qed.

Lemma pure_for_features json_root features :
  forall feature_index hrsi_products,
    pure (for_features json_root feature_index features hrsi_products).
Proof.
  induction features as [|feature rest IH]; intros i acc; simpl.
  - apply pure_ret.
  - apply pure_bind; [apply pure_read_hrsi_feature | intros; apply IH].
Qed.

Lemma pure_iterate (v : json) : pure (iterate v).
Proof. destruct v; simpl; first [apply pure_ret | apply pure_raise]. Qed.

End Pure.

Lemma pure_read_response (response : bool * option json) :
  pure (read_response response).
Proof.
  destruct response as [ok body]. unfold read_response. apply pure_bind.
  - simpl. destruct ok; [|apply pure_ret].
    destruct body; [apply pure_ret | apply pure_raise].
  - intros json_root. apply pure_bind.
    + apply pure_try; [apply pure_getitem|].
      intros []; try apply pure_raise.
    + intros features. apply pure_bind; [apply pure_iterate|].
      intros items. apply pure_for_features.
Qed.

Lemma pure_at {A} (m : M A) (s1 s2 : state) :
  pure m -> m s1 = (fst (m s2), s1).
Proof. intros [r Hr]. by rewrite !Hr. Qed.

(** A page request adds its two events, whatever comes back, and what
    comes back depends on the world only. *)
Lemma request_page_run (w : world) (http_request : string) (page_index : nat)
  (s : state) :
  request_page w http_request page_index s
  = (page_result w http_request page_index,
     add_events s (page_events http_request page_index)).
Proof.
  unfold page_result, request_page, requests_get, page_events.
  unfold logging, emit, bind.
  destruct (catalogue w page_index) as [|ok body]; simpl.
  - by rewrite add_events_app.
  - rewrite add_events_app. apply pure_at, pure_read_response.
Qed.

Section PageLoop.

Variables (w : world) (http_request : string) (ceiling : option Z)
          (pages : nat -> list product) (n : nat).

Hypothesis page_ok :
  forall i, 1 <= i <= n -> page_result w http_request i = Ok (pages i).
Hypothesis below_ceiling :
  forall j, j < n -> first_exit_condition ceiling j = false.
Hypothesis not_empty : forall i, 1 <= i < n -> pages i <> [].

(** The loop from the state in which [k] pages were requested: it
    requests the pages [k+1 .. n] and adds what they hold. *)
Lemma page_loop_from (d : nat) :
  forall k fuel hrsi_products s,
    n = k + d ->
    (k < n /\ pages n = []) \/ first_exit_condition ceiling n = true ->
    d < fuel ->
    page_loop fuel w http_request ceiling k hrsi_products s
    = Some (Ok (hrsi_products ++ concat (map pages (seq (S k) d))),
            add_events s (flat_map (page_events http_request) (seq (S k) d))).
Proof using page_ok below_ceiling not_empty.
  induction d as [|d IH]; intros k fuel acc s Hn Hstop Hfuel;
    (destruct fuel as [|fuel]; [lia|]); cbn [page_loop].
  - assert (k = n) as -> by lia.
    destruct Hstop as [[? _]|Hc]; [lia|]. rewrite Hc.
    simpl. by rewrite app_nil_r, add_events_nil.
  - rewrite below_ceiling by lia.
    unfold rbind, lift. rewrite request_page_run.
    rewrite Nat.add_1_r, page_ok by lia.
    destruct (pages (S k)) as [|p ps] eqn:Hpage.
    + assert (S k = n) as Heq.
      { destruct (decide (S k = n)); [assumption|].
        exfalso. apply (not_empty (S k)); [lia | assumption]. }
      assert (d = 0) as -> by lia.
      simpl. rewrite Hpage. simpl. by rewrite !app_nil_r.
    + assert (Hstop' : (S k < n /\ pages n = [])
                       \/ first_exit_condition ceiling n = true).
      { destruct Hstop as [[? Hempty]|?]; [left | by right].
        split; [|assumption].
        destruct (decide (S k = n)) as [Heq|]; [|lia].
        rewrite <- Heq, Hpage in Hempty. discriminate. }
      rewrite <- Hpage.
      rewrite (IH (S k) fuel) by (assumption || lia).
      rewrite add_events_app. cbn [seq map concat flat_map].
      by rewrite <- app_assoc.
Qed.

End PageLoop.

(** The loop from the start. *)
Lemma page_loop_run
  (w : world) (http_request : string) (ceiling : option Z)
  (pages : nat -> list product) (n fuel : nat) (s : state) :
  (forall i, 1 <= i <= n -> page_result w http_request i = Ok (pages i)) ->
  (forall j, j < n -> first_exit_condition ceiling j = false) ->
  (forall i, 1 <= i < n -> pages i <> []) ->
  (1 <= n /\ pages n = []) \/ first_exit_condition ceiling n = true ->
  n < fuel ->
  page_loop fuel w http_request ceiling 0 [] s
  = Some (Ok (concat (map pages (seq 1 n))),
          add_events s (flat_map (page_events http_request) (seq 1 n))).
Proof.
  intros Hok Hceil Hne Hstop Hfuel.
  apply (page_loop_from w http_request ceiling pages n Hok Hceil Hne n 0);
    [reflexivity | | assumption].
  destruct Hstop as [[? ?]|?]; [left; split; [lia | assumption] | by right].
Qed.


(** Without an empty page and without a ceiling the loop does not end. *)
Lemma page_loop_goes_on
  (w : world) (http_request : string) (ceiling : option Z)
  (pages : nat -> list product) :
  (forall i, 1 <= i -> page_result w http_request i = Ok (pages i)) ->
  (forall i, 1 <= i -> pages i <> []) ->
  (forall j, first_exit_condition ceiling j = false) ->
  forall fuel k hrsi_products s,
    page_loop fuel w http_request ceiling k hrsi_products s = None.
Proof.
  intros Hok Hne Hceil fuel.
  induction fuel as [|fuel IH]; intros k acc s; cbn [page_loop]; [reflexivity|].
  rewrite Hceil. unfold rbind, lift. rewrite request_page_run.
  rewrite Hok by lia.
  destruct (pages (k + 1)) eqn:Hpage; [|apply IH].
  exfalso. apply (Hne (k + 1)); [lia | assumption].
Qed.


(** ** Saving the result list *)

Section Save.

Implicit Types (refs entries : list (string * string)) (s : state).

Lemma key_of_inj : Inj (=) (=) key_of.
Proof. intros [u t] [u' t'] Heq. by injection Heq as -> ->. Qed.

Lemma unkey_key_of (p : string * string) : unkey (key_of p) = p.
Proof. by destruct p. Qed.

Lemma set_of_strings refs s :
  set_of (map str_product refs) s = (Ok (list_to_set (map key_of refs)), s).
Proof.
  induction refs as [|p refs IH]; simpl; [reflexivity|].
  unfold bind. by rewrite IH.
Qed.

Lemma result_lines_keys entries s :
  result_lines (map key_of entries) s
  = (Ok (map (fun p => result_line (fst p) (snd p)) entries), s).
Proof.
  induction entries as [|p entries IH]; simpl; [reflexivity|].
  unfold bind, ret. by rewrite IH.
Qed.

Lemma keys_of_unkey (l : list (hkey * hkey)) :
  (forall k, k ∈ l -> exists p, k = key_of p) ->
  map key_of (map unkey l) = l.
Proof.
  induction l as [|k l IH]; intros Hl; simpl; [reflexivity|].
  destruct (Hl k) as [p ->]; [left|].
  rewrite unkey_key_of, IH; [reflexivity|].
  intros k' Hk'. apply Hl. by right.
Qed.

Lemma size_list_to_set_le (l : list (hkey * hkey)) :
  size (list_to_set l : gset (hkey * hkey)) <= length l.
Proof.
  induction l as [|k l IH]; [by vm_compute|].
  cbn [list_to_set foldr length].
  rewrite size_union_alt, size_singleton.
  assert (size (list_to_set l ∖ {[k]} : gset (hkey * hkey))
          <= size (list_to_set l : gset (hkey * hkey)))
    by (apply subseteq_size, subseteq_difference_l; reflexivity).
  lia.
Qed.

(** The sizes differ exactly when a reference is listed twice. *)
Lemma size_list_to_set_NoDup (l : list (hkey * hkey)) :
  size (list_to_set l : gset (hkey * hkey)) = length l <-> NoDup l.
Proof.
  split; [|apply size_list_to_set].
  induction l as [|k l IH]; simpl; [constructor|].
  intros Hsize. pose proof (size_list_to_set_le l) as Hle.
  destruct (decide (k ∈ l)) as [Hin|Hnin].
  - rewrite subseteq_union_1_L in Hsize
      by (by apply singleton_subseteq_l, elem_of_list_to_set).
    lia.
  - rewrite size_union in Hsize
      by (by apply disjoint_singleton_l; rewrite elem_of_list_to_set).
    rewrite size_singleton in Hsize.
    apply NoDup_cons. split; [assumption|]. apply IH. lia.
Qed.

Variable w : world.
Hypothesis set_order_perm :
  forall members : gset (hkey * hkey), set_order w members ≡ₚ elements members.

Lemma set_order_keys refs :
  map key_of (written_entries w refs)
  = set_order w (list_to_set (map key_of refs)).
Proof using set_order_perm.
  unfold written_entries. apply keys_of_unkey.
  intros k Hk. rewrite set_order_perm in Hk.
  apply elem_of_elements, elem_of_list_to_set in Hk.
  apply (list_elem_of_fmap key_of refs k) in Hk as (p & -> & _). by exists p.
Qed.

Lemma written_entries_elem refs (p : string * string) :
  p ∈ written_entries w refs <-> p ∈ refs.
Proof using set_order_perm.
  pose proof key_of_inj.
  rewrite <- (list_elem_of_fmap_inj key_of (written_entries w refs) p).
  change (key_of <$> written_entries w refs)
    with (map key_of (written_entries w refs)).
  rewrite set_order_keys, set_order_perm, elem_of_elements, elem_of_list_to_set.
  apply (list_elem_of_fmap_inj key_of refs p).
Qed.

Lemma written_entries_NoDup refs : NoDup (written_entries w refs).
Proof using set_order_perm.
  apply (NoDup_fmap_1 key_of).
  change (key_of <$> written_entries w refs)
    with (map key_of (written_entries w refs)).
  rewrite set_order_keys, set_order_perm. apply NoDup_elements.
Qed.

(** What follows the loop, for references that are pairs of texts. *)
Lemma save_results_run refs s :
  save_results w (map str_product refs) s = (Ok tt, saved w refs s).
Proof using set_order_perm.
  unfold save_results, saved, bind, logging, emit.
  rewrite set_of_strings, length_map.
  set (members := list_to_set (map key_of refs) : gset (hkey * hkey)).
  assert (Hlines : forall s',
            result_lines (set_order w members) s'
            = (Ok (map (fun p => result_line (fst p) (snd p))
                       (written_entries w refs)), s')).
  { intros s'. subst members. rewrite <- set_order_keys.
    apply result_lines_keys. }
  unfold set_result_file, write_file, get_state, bind, logging, emit, ret,
    add_events, result_path, serialize.
  destruct (negb (size members =? length refs)%nat); simpl;
    rewrite Hlines; simpl; rewrite insert_insert_eq;
    repeat rewrite <- app_assoc; reflexivity.
Qed.

End Save.

Lemma concat_str_products (refs : nat -> list (string * string)) (l : list nat) :
  concat (map (fun i => map str_product (refs i)) l)
  = map str_product (concat (map refs l)).
Proof.
  induction l as [|i l IH]; simpl; [reflexivity|].
  by rewrite IH, map_app.
Qed.

(** A whole search whose pages hold pairs of texts: the pages 1 .. [n]
    are requested and the references they hold are saved. *)
Lemma execute_request_run
  (w : world) (http_request : string) (ceiling : option Z)
  (refs : nat -> list (string * string)) (n fuel : nat) (s : state) :
  (forall members : gset (hkey * hkey), set_order w members ≡ₚ elements members) ->
  hrsi_http_request s = Some http_request ->
  (forall i, 1 <= i <= n ->
     page_result w http_request i = Ok (map str_product (refs i))) ->
  (forall j, j < n -> first_exit_condition ceiling j = false) ->
  (forall i, 1 <= i < n -> refs i <> []) ->
  (1 <= n /\ refs n = []) \/ first_exit_condition ceiling n = true ->
  n < fuel ->
  execute_request fuel w ceiling s
  = Some (Ok tt,
          saved w (concat (map refs (seq 1 n)))
            (add_events s (Log INFO (Requesting http_request)
                           :: flat_map (page_events http_request) (seq 1 n)))).
Proof.
  intros Hord Hq Hok Hceil Hne Hstop Hfuel.
  unfold execute_request, rbind, lift, get_state. rewrite Hq.
  unfold logging, emit.
  rewrite (page_loop_run w http_request ceiling
             (fun i => map str_product (refs i)) n fuel); try assumption.
  - rewrite concat_str_products, add_events_app.
    by rewrite (save_results_run w Hord).
  - intros i Hi Hnil. apply (Hne i Hi). by destruct (refs i).
  - destruct Hstop as [[? Hnil]|?]; [left | by right].
    split; [assumption|]. by rewrite Hnil.
Qed.

Lemma elem_concat_map {A} (f : nat -> list A) (l : list nat) (x : A) :
  x ∈ concat (map f l) <-> exists k, k ∈ l /\ x ∈ f k.
Proof.
  induction l as [|a l IH]; simpl.
  - split; [intros H; by apply elem_of_nil in H
           | intros (k & Hk & _); by apply elem_of_nil in Hk].
  - rewrite elem_of_app, IH. split.
    + intros [Hx | (k & Hk & Hx)]; [exists a | exists k];
        (split; [|assumption]); [left | by right].
    + intros (k & Hk & Hx). apply elem_of_cons in Hk as [->|Hk];
        [by left | right; eauto].
Qed.

(** A reference held by two pages occurs twice in the collection. *)
Lemma two_pages_not_NoDup {A} (f : nat -> list A) (n : nat) (x : A) :
  forall a i j,
    a <= i -> i < j -> j < a + n -> x ∈ f i -> x ∈ f j ->
    ~ NoDup (concat (map f (seq a n))).
Proof.
  induction n as [|n IH]; intros a i j Hai Hij Hjn Hi Hj Hnd; [lia|].
  simpl in Hnd. apply NoDup_app in Hnd as (_ & Hdisj & Hrest).
  destruct (decide (i = a)) as [->|Hne].
  - apply (Hdisj x Hi). apply elem_concat_map. exists j.
    split; [|assumption]. apply elem_of_seq. lia.
  - apply (IH (S a) i j); (assumption || lia).
Qed.

(** C6.  When two pages of a search both hold the reference [p], the
    result list is written with exactly one entry for [p] and the warning
    about duplicates is logged; every reference of every page read has
    its entry, so two references that differ in the URL or in the title
    each have their own, and no reference has two. *)
Theorem duplicate_reference_written_once
  (w : world) (http_request : string) (ceiling : option Z)
  (refs : nat -> list (string * string)) (n fuel : nat) (s : state)
  (i j : nat) (p : string * string) :
  (forall members : gset (hkey * hkey), set_order w members ≡ₚ elements members) ->
  hrsi_http_request s = Some http_request ->
  (forall i, 1 <= i <= n ->
     page_result w http_request i = Ok (map str_product (refs i))) ->
  (forall j, j < n -> first_exit_condition ceiling j = false) ->
  (forall i, 1 <= i < n -> refs i <> []) ->
  (1 <= n /\ refs n = []) \/ first_exit_condition ceiling n = true ->
  n < fuel ->
  1 <= i <= n -> 1 <= j <= n -> i <> j -> p ∈ refs i -> p ∈ refs j ->
  exists s' entries,
    execute_request fuel w ceiling s = Some (Ok tt, s')
    /\ result_file s' = Some (result_path s)
    /\ files s' !! result_path s = Some (serialize entries)
    /\ (exists before after,
          entries = before ++ p :: after /\ (p ∉ before) /\ (p ∉ after))
    /\ In (Log WARNING DuplicatedProducts) (events s')
    /\ (forall k q, 1 <= k <= n -> q ∈ refs k -> q ∈ entries)
    /\ NoDup entries.
Proof.
  intros Hord Hq Hok Hceil Hne Hstop Hfuel Hi Hj Hij Hpi Hpj.
  set (all := concat (map refs (seq 1 n))).
  assert (Hall : forall k q, 1 <= k <= n -> q ∈ refs k -> q ∈ all).
  { intros k q Hk Hqk. apply elem_concat_map. exists k.
    split; [apply elem_of_seq; lia | assumption]. }
  assert (Hdup : ~ NoDup all).
  { destruct (Nat.lt_trichotomy i j) as [Hlt | [Heq | Hgt]]; [|lia|].
    - apply (two_pages_not_NoDup refs n p 1 i j); (assumption || lia).
    - apply (two_pages_not_NoDup refs n p 1 j i); (assumption || lia). }
  eexists _, (written_entries w all).
  split; [by apply execute_request_run|].
  split; [reflexivity|].
  split; [unfold saved; simpl; apply lookup_insert_eq|].
  split; [|split; [|split]].
  - pose proof (written_entries_NoDup w Hord all) as Hnd.
    assert (Hin : p ∈ written_entries w all)
      by (apply (written_entries_elem w Hord), (Hall i); assumption).
    apply list_elem_of_split in Hin as (before & after & Heq).
    exists before, after. rewrite Heq in Hnd.
    apply NoDup_app in Hnd as (_ & Hdisj & [Hafter _]%NoDup_cons).
    repeat split; [assumption | | assumption].
    intros Hbefore. apply (Hdisj p Hbefore). left.
  - subst all. unfold saved; simpl.
    set (all := concat (map refs (seq 1 n))) in *.
    destruct (size (list_to_set (map key_of all) : gset (hkey * hkey))
              =? length all)%nat eqn:Hsize.
    + exfalso. apply Hdup. apply Nat.eqb_eq in Hsize.
      rewrite <- (length_map key_of) in Hsize.
      apply size_list_to_set_NoDup in Hsize.
      pose proof key_of_inj. by apply (NoDup_fmap_1 key_of).
    + simpl. apply in_or_app. right. simpl. auto.
  - intros k q Hk Hqk. apply (written_entries_elem w Hord). eauto.
  - apply (written_entries_NoDup w Hord).
Qed.

Lemma duplicate_reference_written_once_witness :
  exists s' entries,
    execute_request 4 sample_catalogue None query_state = Some (Ok tt, s')
    /\ result_file s' = Some (result_path query_state)
    /\ files s' !! result_path query_state = Some (serialize entries)
    /\ (exists before after,
          entries = before ++ ("u1", "t1") :: after
          /\ (("u1", "t1") ∉ before) /\ (("u1", "t1") ∉ after))
    /\ In (Log WARNING DuplicatedProducts) (events s')
    /\ (forall k q, 1 <= k <= 3 -> q ∈ sample_refs k -> q ∈ entries)
    /\ NoDup entries.
Proof.
  apply (duplicate_reference_written_once sample_catalogue sample_query None
           sample_refs 3 4 query_state 1 2 ("u1", "t1")).
  - reflexivity.
  - reflexivity.
  - intros i Hi. destruct i as [|[|[|[|i]]]]; try lia; reflexivity.
  - reflexivity.
  - intros i Hi. destruct i as [|[|[|i]]]; try lia; discriminate.
  - left. split; [lia | reflexivity].
  - lia.
  - lia.
  - lia.
  - lia.
  - left.
  - left.
Defined.


(** * Further properties *)

(** ** The query builder, for every filter *)

Lemma if_str_truthy (field : option string) (d : dict) (body : string -> M dict) :
  if_str (truthy field) d body = if_str field d body.
Proof.
  unfold if_str, if_truthy, truthy.
  destruct field as [v|]; [|reflexivity].
  destruct (Text.nonempty v) eqn:Hv; [by rewrite Hv | reflexivity].
Qed.

Lemma if_int_truthy (field : option Z) (d : dict) (body : Z -> M dict) :
  if_int (truthy_int field) d body = if_int field d body.
Proof.
  unfold if_int, if_truthy, truthy_int.
  destruct field as [v|]; [|reflexivity].
  destruct (nonzero v) eqn:Hv; [by rewrite Hv | reflexivity].
Qed.

Lemma step_text_any (field : option string) (d : dict) (key : string)
      (val : string -> string) {B} (k : dict -> M B) (s : state) :
  bind (if_str field d (fun v => ret (dict_set key (val v) d))) k s
  = k (assign d (key, val <$> truthy field)) s.
Proof.
  unfold if_str, if_truthy, assign, truthy, bind, ret.
  destruct field as [v|]; simpl; [|reflexivity].
  destruct (Text.nonempty v); reflexivity.
Qed.

Lemma step_number_any (field : option Z) (d : dict) (key : string)
      (val : Z -> string) {B} (k : dict -> M B) (s : state) :
  bind (if_int field d (fun v => ret (dict_set key (val v) d))) k s
  = k (assign d (key, val <$> truthy_int field)) s.
Proof.
  unfold if_int, if_truthy, assign, truthy_int, bind, ret.
  destruct field as [v|]; simpl; [|reflexivity].
  destruct (nonzero v); reflexivity.
Qed.

Lemma step_date_any (field : option string) (d : dict) (key : string)
      {B} (k : dict -> M B) (s : state) :
  date_ok field = true ->
  bind (if_str field d (fun v =>
          bind (validate_Rfc3339 v) (fun t => ret (dict_set key t d)))) k s
  = k (assign d (key, truthy field)) s.
Proof.
  unfold date_ok, if_str, if_truthy, assign, truthy, validate_Rfc3339, bind, ret.
  destruct field as [v|]; simpl; [|reflexivity].
  destruct (Text.nonempty v); [|reflexivity]. by intros ->.
Qed.

Lemma step_date_bad (field : option string) (d : dict) (key : string)
      {B} (k : dict -> M B) (s : state) :
  date_ok field = false ->
  bind (if_str field d (fun v =>
          bind (validate_Rfc3339 v) (fun t => ret (dict_set key t d)))) k s
  = (Raise date_error, s).
Proof.
  unfold date_ok, if_str, if_truthy, truthy, validate_Rfc3339, bind, ret.
  destruct field as [v|]; simpl; [|discriminate].
  destruct (Text.nonempty v); [|discriminate]. by intros ->.
Qed.

Ltac text_steps :=
  rewrite (step_text_any (productIdentifier _) [] _
             (fun v => "%25" +:+ Text.upper v +:+ "%25"));
  rewrite (step_text_any (productType _) _ _ Text.upper);
  rewrite (step_text_any (mission _) _ _ Text.upper).

(** What [build_request] does when every date it looks at is fine. *)
Lemma build_request_dates_ok (f : SearchFilter) (s : state) :
  dates_ok f = true ->
  build_request f s
  = match fold_left assign (assignments (effective f)) [] with
    | _ :: _ => (Ok tt, with_query s (built_params (effective f)))
    | [] => (Raise (SystemExit (-2)),
             add_events s [Log ERROR NoQueryParameters])
    end.
Proof.
  unfold dates_ok. intros Hd.
  repeat (apply andb_prop in Hd; destruct Hd as [Hd ?]).
  unfold build_request. text_steps.
  rewrite !step_date_any by assumption.
  rewrite (step_number_any (cloudCoverageMax f) _ _
             (fun v => "[0," +:+ pretty v +:+ "]")).
  rewrite (step_text_any (geometry f) _ _ (fun v => v)).
  rewrite (step_text_any (textualSearch f) _ _ (Text.replace " " "+")).
  unfold built_params, assignments, effective; simpl fold_left.
  replace ((fun v => v) <$> truthy (geometry f)) with (truthy (geometry f))
    by (by destruct (truthy (geometry f))).
  match goal with
  | |- match ?d with _ => _ end _ = _ => destruct d eqn:Hdict
  end; [reflexivity|].
  generalize (dict_update (p :: l) URL_STATIC_PARAMS). intros url_params.
  run_py. unfold with_query, add_events, set_hrsi_http_request; run_py.
  rewrite <- !app_assoc. reflexivity.
Qed.

(** X1.  When a date that is given and not empty does not have the
    format, [build_request] raises [ValueError] and leaves the object as it
    was: no query is configured and nothing is logged, whatever the other
    fields are. *)
Theorem build_request_bad_date_changes_nothing (f : SearchFilter) (s : state) :
  dates_ok f = false ->
  build_request f s = (Raise date_error, s).
Proof.
  unfold dates_ok. intros Hd. unfold build_request. text_steps.
  destruct (date_ok (obsDateMin f)) eqn:H1;
    [rewrite step_date_any by assumption | by rewrite step_date_bad].
  destruct (date_ok (obsDateMax f)) eqn:H2;
    [rewrite step_date_any by assumption | by rewrite step_date_bad].
  destruct (date_ok (publicationDateMin f)) eqn:H3;
    [rewrite step_date_any by assumption | by rewrite step_date_bad].
  destruct (date_ok (publicationDateMax f)) eqn:H4;
    [discriminate Hd | by rewrite step_date_bad].
Qed.

Lemma build_request_bad_date_changes_nothing_witness :
  dates_ok late_error_filter = false
  /\ build_request late_error_filter query_state = (Raise date_error, query_state).
Proof.
  split; [reflexivity|].
  apply (build_request_bad_date_changes_nothing late_error_filter query_state).
  reflexivity.
Defined.

(** X2.  A filter in which every field is absent, an empty text or the
    number 0 is treated as the empty filter: the error is logged and the
    process exits with [sys.exit(-2)], no query configured. *)
Theorem build_request_nothing_truthy (f : SearchFilter) (s : state) :
  some_field_set (effective f) = false ->
  build_request f s
  = (Raise (SystemExit (-2)), add_events s [Log ERROR NoQueryParameters]).
Proof.
  intros Hnone.
  assert (Hfields : effective f = empty_filter).
  { unfold some_field_set in Hnone.
    repeat (apply orb_false_elim in Hnone; destruct Hnone as [Hnone ?]).
    unfold effective in *; simpl in *.
    repeat match goal with
           | H : is_set ?o = false |- _ =>
               destruct o; [discriminate H | clear H]
           end.
    reflexivity. }
  assert (Hdates : dates_ok f = true).
  { apply (f_equal (fun g => (obsDateMin g, obsDateMax g,
                              publicationDateMin g, publicationDateMax g)))
      in Hfields.
    simpl in Hfields. injection Hfields as E1 E2 E3 E4.
    unfold dates_ok, date_ok. by rewrite E1, E2, E3, E4. }
  rewrite build_request_dates_ok by assumption.
  by rewrite Hfields.
Qed.

Lemma build_request_nothing_truthy_witness :
  some_field_set hollow_filter = true
  /\ some_field_set (effective hollow_filter) = false
  /\ build_request hollow_filter query_state
     = (Raise (SystemExit (-2)),
        add_events query_state [Log ERROR NoQueryParameters]).
Proof.
  split; [reflexivity|]. split; [reflexivity|].
  apply (build_request_nothing_truthy hollow_filter query_state). reflexivity.
Defined.

(** X3.  For every filter whose dates are fine and in which some field
    has a truth value, the query is configured from a parameter dictionary
    whose keys are the catalogue names of the fields with a truth value
    (an empty text and a cloud cover of 0 leave no key), followed by the
    static parameters. *)
Theorem build_request_keys_of_truthy_fields (f : SearchFilter) (s : state) :
  dates_ok f = true ->
  some_field_set (effective f) = true ->
  build_request f s = (Ok tt, with_query s (built_params (effective f)))
  /\ dict_keys (built_params (effective f))
     = mapped_keys (effective f) ++ dict_keys URL_STATIC_PARAMS.
Proof.
  intros Hdates Hset. split; [|apply built_params_keys].
  rewrite build_request_dates_ok by assumption.
  pose proof (assigned_keys (effective f)) as Hkeys.
  pose proof (mapped_keys_nonempty (effective f) Hset) as Hne.
  destruct (fold_left assign (assignments (effective f)) []); [|reflexivity].
  simpl in Hkeys. congruence.
Qed.

Lemma build_request_keys_of_truthy_fields_witness :
  dates_ok mixed_filter = true
  /\ some_field_set (effective mixed_filter) = true
  /\ build_request mixed_filter query_state
     = (Ok tt, with_query query_state (built_params (effective mixed_filter)))
  /\ dict_keys (built_params (effective mixed_filter))
     = ["productType"; "q"; "status"; "maxRecords"; "dataset"; "sortParam";
        "sortOrder"].
Proof.
  split; [reflexivity|]. split; [reflexivity|].
  apply (build_request_keys_of_truthy_fields mixed_filter query_state);
    reflexivity.
Defined.

(** ** The values of the query parameters *)

Lemma dict_get_set {V} (key key' : string) (v : V) (d : list (string * V)) :
  dict_get key (dict_set key' v d)
  = if String.eqb key' key then Some v else dict_get key d.
Proof.
  induction d as [|[k0 v0] d IH]; simpl; [reflexivity|].
  destruct (String.eqb_spec k0 key') as [->|Hne]; simpl.
  - by destruct (String.eqb key' key).
  - rewrite IH. destruct (String.eqb_spec k0 key) as [->|_]; [|reflexivity].
    by destruct (String.eqb_spec key' key) as [->|_].
Qed.

Lemma dict_get_assign (key key' : string) (ov : option string) (d : dict) :
  dict_get key (assign d (key', ov))
  = if String.eqb key' key
    then match ov with Some v => Some v | None => dict_get key d end
    else dict_get key d.
Proof.
  unfold assign; simpl. destruct ov as [v|].
  - apply dict_get_set.
  - by destruct (String.eqb key' key).
Qed.

(** X4.  Let the identifier, the type and the mission be texts without
    the two characters of the range 0..255 whose upper-case letter lies
    beyond it (the micro sign and the y with diaeresis).  In the parameters
    that [build_request] configures, each field with a truth value has its
    encoded value under its catalogue name (the identifier upper-cased
    between two [%25], type and mission upper-cased, where the sharp s
    becomes [SS] and an accented letter its capital, the dates as given,
    the cloud cover as [[0,n]], the geometry as given, the search text
    with [+] for each space), a field without truth value has no entry,
    and the five static parameters have their fixed values. *)
Theorem build_request_values (f : SearchFilter) (s : state) :
  upper_known (productIdentifier f) = true ->
  upper_known (productType f) = true ->
  upper_known (mission f) = true ->
  dates_ok f = true ->
  some_field_set (effective f) = true ->
  exists url_params,
    build_request f s = (Ok tt, with_query s url_params)
    /\ dict_get "productIdentifier" url_params
       = (fun v => "%25" +:+ Text.upper v +:+ "%25") <$> truthy (productIdentifier f)
    /\ dict_get "productType" url_params = Text.upper <$> truthy (productType f)
    /\ dict_get "mission" url_params = Text.upper <$> truthy (mission f)
    /\ dict_get "startDate" url_params = truthy (obsDateMin f)
    /\ dict_get "completionDate" url_params = truthy (obsDateMax f)
    /\ dict_get "publishedAfter" url_params = truthy (publicationDateMin f)
    /\ dict_get "publishedBefore" url_params = truthy (publicationDateMax f)
    /\ dict_get "cloudCover" url_params
       = (fun n => "[0," +:+ pretty n +:+ "]") <$> truthy_int (cloudCoverageMax f)
    /\ dict_get "geometry" url_params = truthy (geometry f)
    /\ dict_get "q" url_params = Text.replace " " "+" <$> truthy (textualSearch f)
    /\ dict_get "status" url_params = Some "all"
    /\ dict_get "maxRecords" url_params = Some "1000"
    /\ dict_get "dataset" url_params = Some "ESA-DATASET"
    /\ dict_get "sortParam" url_params = Some "startDate"
    /\ dict_get "sortOrder" url_params = Some "descending".
Proof.
  intros _ _ _ Hdates Hset. exists (built_params (effective f)). split.
  - rewrite build_request_dates_ok by assumption.
    pose proof (assigned_keys (effective f)) as Hkeys.
    pose proof (mapped_keys_nonempty (effective f) Hset) as Hne.
    destruct (fold_left assign (assignments (effective f)) []); [|reflexivity].
    simpl in Hkeys. congruence.
  - unfold built_params, dict_update, assignments, effective, URL_STATIC_PARAMS.
    cbn [fold_left fst snd productIdentifier productType mission obsDateMin
         obsDateMax publicationDateMin publicationDateMax cloudCoverageMax
         geometry textualSearch].
    repeat split; rewrite !dict_get_set, !dict_get_assign; simpl;
      match goal with
      | |- match ?o with _ => _ end = _ => by destruct o
      | |- _ => reflexivity
      end.
Qed.

Lemma build_request_values_witness :
  upper_known (productIdentifier accented_filter) = true
  /\ upper_known (productType accented_filter) = true
  /\ upper_known (mission accented_filter) = true
  /\ dates_ok accented_filter = true
  /\ some_field_set (effective accented_filter) = true
  /\ exists url_params,
       build_request accented_filter query_state
       = (Ok tt, with_query query_state url_params)
       /\ dict_get "productIdentifier" url_params = Some "%2531TCH%25"
       /\ dict_get "productType" url_params
          = Some (String (ascii_of_nat 201) "T")
       /\ dict_get "mission" url_params = Some "SS2"
       /\ dict_get "cloudCover" url_params = Some "[0,20]"
       /\ dict_get "q" url_params = None
       /\ dict_get "maxRecords" url_params = Some "1000".
Proof.
  repeat (split; [reflexivity|]).
  destruct (build_request_values accented_filter query_state
              eq_refl eq_refl eq_refl eq_refl eq_refl)
    as (url_params & Hrun & Hid & Hty & Hmi & _ & _ & _ & _ & Hcc & _ & Hq
        & _ & Hmax & _).
  exists url_params. repeat split; assumption.
Defined.

(** ** The feature extractor *)

Lemma getitem_entry (obj : json) (key : string) (v : json) (s : state) :
  entry obj key = Some v -> getitem obj key s = (Ok v, s).
Proof. destruct obj; try discriminate. simpl. by intros ->. Qed.

Lemma getitem_Ok (obj : json) (key : string) (v : json) (s s' : state) :
  getitem obj key s = (Ok v, s') -> entry obj key = Some v.
Proof.
  destruct obj; try discriminate. simpl.
  destruct (dict_get key members); [|discriminate]. by intros [= ->].
Qed.

Lemma read_json_param_present
  (json_root feature properties v : json) (i : nat) (key : string) (s : state) :
  entry feature "properties" = Some properties ->
  entry properties key = Some v ->
  read_json_param json_root feature i key s = (Ok v, s).
Proof.
  intros Hp Hk. unfold read_json_param, try_except, bind.
  by rewrite (getitem_entry _ _ _ _ Hp), (getitem_entry _ _ _ _ Hk).
Qed.

Lemma read_json_param_Ok
  (json_root feature v : json) (i : nat) (key : string) (s s' : state) :
  read_json_param json_root feature i key s = (Ok v, s') ->
  exists properties,
    entry feature "properties" = Some properties
    /\ entry properties key = Some v.
Proof.
  unfold read_json_param, try_except, bind.
  destruct (getitem feature "properties" s) as [[properties|e] s1] eqn:Hp.
  - destruct (getitem properties key s1) as [[v'|e] s2] eqn:Hk.
    + intros [= -> ->]. exists properties.
      split; eapply getitem_Ok; eassumption.
    + by destruct e.
  - by destruct e.
Qed.

Lemma read_json_param_absent
  (json_root feature properties : json) (members : list (string * json))
  (i : nat) (key : string) (s : state) :
  entry feature "properties" = Some (JObj members) ->
  dict_get key members = None ->
  read_json_param json_root feature i key s
  = (Raise (MissingEntry i key json_root), s).
Proof.
  intros Hp Hk. unfold read_json_param, try_except, bind.
  rewrite (getitem_entry _ _ _ _ Hp). simpl. by rewrite Hk.
Qed.

Lemma getitem_cases (obj : json) (key : string) (s : state) :
  (exists v, entry obj key = Some v /\ getitem obj key s = (Ok v, s))
  \/ (entry obj key = None /\ exists e, getitem obj key s = (Raise e, s)).
Proof.
  destruct obj; simpl; try (right; split; [reflexivity | by eexists]).
  destruct (dict_get key members) as [v|]; [left; by exists v|].
  right. split; [reflexivity | by eexists].
Qed.

Lemma read_json_param_cases
  (json_root feature : json) (i : nat) (key : string) (s : state) :
  (exists properties v,
     entry feature "properties" = Some properties
     /\ entry properties key = Some v
     /\ read_json_param json_root feature i key s = (Ok v, s))
  \/ ((entry feature "properties" = None
       \/ exists properties, entry feature "properties" = Some properties
                             /\ entry properties key = None)
      /\ exists e, read_json_param json_root feature i key s = (Raise e, s)).
Proof.
  unfold read_json_param, try_except, bind.
  destruct (getitem_cases feature "properties" s)
    as [(properties & Hp & ->) | (Hp & e & ->)].
  - destruct (getitem_cases properties key s) as [(v & Hk & ->) | (Hk & e & ->)].
    + left. by exists properties, v.
    + right. split; [right; by exists properties|]. destruct e; by eexists.
  - right. split; [by left|]. destruct e; by eexists.
Qed.

Lemma read_hrsi_feature_reference
  (json_root feature : json) (i : nat) (p : product) (s : state) :
  read_hrsi_feature json_root feature i s = (Ok p, s)
  <-> reference_of feature = Some p.
Proof.
  unfold read_hrsi_feature, reference_of, bind.
  destruct (read_json_param_cases json_root feature i "productIdentifier" s)
    as [(properties & v1 & Hp & H1 & ->) | ([Hn | (pr & Hp & Hn)] & e & ->)];
    [| by rewrite Hn | by rewrite Hp, Hn].
  rewrite Hp, H1. cbv beta iota.
  destruct (read_json_param_cases json_root feature i "title" s)
    as [(pr & title & Hp' & H2 & ->) | ([Hn | (pr & Hp' & Hn)] & e & ->)];
    [| congruence |];
    (assert (pr = properties) as -> by congruence); clear Hp';
    [| rewrite Hn; split; intros; discriminate].
  rewrite H2. cbv beta iota.
  destruct (read_json_param_cases json_root feature i "startDate" s)
    as [(pr & v3 & Hp' & H3 & ->) | ([Hn | (pr & Hp' & Hn)] & e & ->)];
    [| congruence |];
    (assert (pr = properties) as -> by congruence); clear Hp';
    [| rewrite Hn; split; intros; discriminate].
  rewrite H3. cbv beta iota.
  destruct (read_json_param_cases json_root feature i "productType" s)
    as [(pr & v4 & Hp' & H4 & ->) | ([Hn | (pr & Hp' & Hn)] & e & ->)];
    [| congruence |];
    (assert (pr = properties) as -> by congruence); clear Hp';
    [| rewrite Hn; split; intros; discriminate].
  rewrite H4. cbv beta iota.
  destruct (read_json_param_cases json_root feature i "mission" s)
    as [(pr & v5 & Hp' & H5 & ->) | ([Hn | (pr & Hp' & Hn)] & e & ->)];
    [| congruence |];
    (assert (pr = properties) as -> by congruence); clear Hp';
    [| rewrite Hn; split; intros; discriminate].
  rewrite H5. cbv beta iota.
  destruct (read_json_param_cases json_root feature i "services" s)
    as [(pr & services & Hp' & H6 & ->) | ([Hn | (pr & Hp' & Hn)] & e & ->)];
    [| congruence |];
    (assert (pr = properties) as -> by congruence); clear Hp';
    [| rewrite Hn; split; intros; discriminate].
  rewrite H6. cbv beta iota.
  destruct (getitem_cases services "download" s)
    as [(download & H8 & ->) | (Hn & e & ->)]; cbv beta iota;
    [| rewrite Hn; destruct (entry properties "published");
       split; intros; discriminate].
  rewrite H8.
  destruct (getitem_cases download "url" s)
    as [(url & H9 & ->) | (Hn & e & ->)]; cbv beta iota;
    [| rewrite Hn; destruct (entry properties "published");
       split; intros; discriminate].
  rewrite H9.
  rewrite (read_json_param_present json_root feature properties services i
             "services" s Hp H6). cbv beta iota.
  rewrite (getitem_entry services "download" download s H8). cbv beta iota.
  destruct (getitem_cases download "size" s)
    as [(size & H10 & ->) | (Hn & e & ->)]; cbv beta iota;
    [| rewrite Hn; destruct (entry properties "published");
       split; intros; discriminate].
  rewrite H10.
  destruct (read_json_param_cases json_root feature i "published" s)
    as [(pr & v7 & Hp' & H7 & ->) | ([Hn | (pr & Hp' & Hn)] & e & ->)];
    [| congruence |];
    (assert (pr = properties) as -> by congruence); clear Hp';
    [| rewrite Hn; split; intros; discriminate].
  rewrite H7. unfold ret. split; intros [= <-]; reflexivity.
Qed.

(** X5.  [read_hrsi_feature] returns a reference exactly for the records
    that have all the entries it reads, the size of the download
    included; the reference is the URL of the download service and the
    title, and the state is left as it was. *)
Theorem read_hrsi_feature_complete_record
  (json_root feature : json) (i : nat) (p : product) (s : state) :
  read_hrsi_feature json_root feature i s = (Ok p, s)
  <-> reference_of feature = Some p.
Proof. apply read_hrsi_feature_reference. Qed.

Ltac read_present Hp Hbefore key :=
  let v := fresh "v" in
  let Hv := fresh "Hv" in
  destruct (Hbefore key ltac:(by_compute)) as [v Hv];
  rewrite (read_json_param_present _ _ _ v _ key _ Hp Hv); cbv beta iota.

(** X6.  When the [properties] of a record lack an entry, and the entries
    read before it are there, [read_hrsi_feature] raises the exception
    that names this entry, the index of the record and the whole
    response, and the state is left as it was. *)
Theorem read_hrsi_feature_names_missing_entry
  (json_root feature : json) (members : list (string * json)) (i : nat)
  (before after : list string) (key : string) (s : state) :
  entry feature "properties" = Some (JObj members) ->
  read_order = before ++ key :: after ->
  (forall k, k ∈ before -> is_Some (dict_get k members)) ->
  dict_get key members = None ->
  ("services" ∈ before ->
   exists services download,
     dict_get "services" members = Some services
     /\ entry services "download" = Some download
     /\ is_Some (entry download "url") /\ is_Some (entry download "size")) ->
  read_hrsi_feature json_root feature i s
  = (Raise (MissingEntry i key json_root), s).
Proof.
  intros Hp Horder Hbefore Hkey Hservices.
  unfold read_order in Horder.
  unfold read_hrsi_feature, bind.
  repeat (destruct before as [|? before];
          [ injection Horder as <- <-
          | injection Horder as <- Horder ]);
    try (by destruct before).
  - by rewrite (read_json_param_absent _ _ (JObj members) _ _ _ _ Hp Hkey).
  - read_present Hp Hbefore "productIdentifier".
    by rewrite (read_json_param_absent _ _ (JObj members) _ _ _ _ Hp Hkey).
  - read_present Hp Hbefore "productIdentifier".
    read_present Hp Hbefore "title".
    by rewrite (read_json_param_absent _ _ (JObj members) _ _ _ _ Hp Hkey).
  - read_present Hp Hbefore "productIdentifier".
    read_present Hp Hbefore "title".
    read_present Hp Hbefore "startDate".
    by rewrite (read_json_param_absent _ _ (JObj members) _ _ _ _ Hp Hkey).
  - read_present Hp Hbefore "productIdentifier".
    read_present Hp Hbefore "title".
    read_present Hp Hbefore "startDate".
    read_present Hp Hbefore "productType".
    by rewrite (read_json_param_absent _ _ (JObj members) _ _ _ _ Hp Hkey).
  - read_present Hp Hbefore "productIdentifier".
    read_present Hp Hbefore "title".
    read_present Hp Hbefore "startDate".
    read_present Hp Hbefore "productType".
    read_present Hp Hbefore "mission".
    by rewrite (read_json_param_absent _ _ (JObj members) _ _ _ _ Hp Hkey).
  - destruct Hservices as (services & download & Hs & Hd & [url Hu] & [size Hz]);
      [by_compute|].
    read_present Hp Hbefore "productIdentifier".
    read_present Hp Hbefore "title".
    read_present Hp Hbefore "startDate".
    read_present Hp Hbefore "productType".
    read_present Hp Hbefore "mission".
    rewrite (read_json_param_present _ _ _ services _ "services" _ Hp Hs).
    cbv beta iota.
    rewrite (getitem_entry _ _ _ _ Hd), (getitem_entry _ _ _ _ Hu).
    cbv beta iota.
    rewrite (read_json_param_present _ _ _ services _ "services" _ Hp Hs).
    cbv beta iota.
    rewrite (getitem_entry _ _ _ _ Hd), (getitem_entry _ _ _ _ Hz).
    cbv beta iota.
    by rewrite (read_json_param_absent _ _ (JObj members) _ _ _ _ Hp Hkey).
Qed.

Lemma read_hrsi_feature_names_missing_entry_witness :
  let json_root := JObj [("features", JArr [feature_without_type "u2" "t2"])] in
  reference_of (feature_without_type "u2" "t2") = None
  /\ read_hrsi_feature json_root (feature_without_type "u2" "t2") 1 query_state
     = (Raise (MissingEntry 1 "productType" json_root), query_state).
Proof.
  intros json_root. split; [reflexivity|].
  refine (read_hrsi_feature_names_missing_entry json_root
            (feature_without_type "u2" "t2") _ 1
            ["productIdentifier"; "title"; "startDate"] ["mission"; "services"; "published"]
            "productType" query_state eq_refl eq_refl _ eq_refl _).
  - intros k Hk.
    repeat (apply elem_of_cons in Hk as [->|Hk]; [by eexists|]).
    by apply elem_of_nil in Hk.
  - intros Hin.
    repeat (apply elem_of_cons in Hin as [Heq|Hin]; [discriminate Heq|]).
    by apply elem_of_nil in Hin.
Defined.

(** X7.  A record that has every entry but the size of the download is
    refused with a bare [KeyError] for [size], although the size is not
    part of the reference. *)
Theorem read_hrsi_feature_needs_size
  (json_root feature properties services download : json) (i : nat) (s : state) :
  entry feature "properties" = Some properties ->
  (forall k, k ∈ ["productIdentifier"; "title"; "startDate"; "productType";
                  "mission"] -> is_Some (entry properties k)) ->
  entry properties "services" = Some services ->
  entry services "download" = Some download ->
  is_Some (entry download "url") ->
  (exists members, download = JObj members) ->
  entry download "size" = None ->
  read_hrsi_feature json_root feature i s = (Raise (KeyError "size"), s).
Proof.
  intros Hp Hbefore Hs Hd [url Hu] [members ->] Hz.
  unfold read_hrsi_feature, bind.
  read_present Hp Hbefore "productIdentifier".
  read_present Hp Hbefore "title".
  read_present Hp Hbefore "startDate".
  read_present Hp Hbefore "productType".
  read_present Hp Hbefore "mission".
  rewrite (read_json_param_present _ _ _ services _ "services" _ Hp Hs).
  cbv beta iota.
  rewrite (getitem_entry _ _ _ _ Hd), (getitem_entry _ _ _ _ Hu).
  cbv beta iota.
  rewrite (read_json_param_present _ _ _ services _ "services" _ Hp Hs).
  cbv beta iota.
  rewrite (getitem_entry _ _ _ _ Hd). cbv beta iota.
  simpl in Hz. simpl. by rewrite Hz.
Qed.

Lemma read_hrsi_feature_needs_size_witness :
  read_hrsi_feature (JObj []) (feature_without_size "u1" "t1") 0 query_state
  = (Raise (KeyError "size"), query_state).
Proof.
  refine (read_hrsi_feature_needs_size (JObj []) (feature_without_size "u1" "t1")
            _ _ (JObj [("url", JStr "u1")]) 0 query_state
            eq_refl _ eq_refl eq_refl _ _ eq_refl).
  - intros k Hk.
    repeat (apply elem_of_cons in Hk as [->|Hk]; [by eexists|]).
    by apply elem_of_nil in Hk.
  - by eexists.
  - by eexists.
Defined.

(** ** The records of a page *)

Lemma read_hrsi_feature_result (json_root feature : json) (i : nat) (s : state) :
  read_hrsi_feature json_root feature i s
  = (fst (read_hrsi_feature json_root feature i s), s).
Proof. apply pure_at, pure_read_hrsi_feature. Qed.

Lemma read_hrsi_feature_incomplete (json_root feature : json) (i : nat) (s : state) :
  reference_of feature = None ->
  exists e, read_hrsi_feature json_root feature i s = (Raise e, s).
Proof.
  intros Hnone. rewrite read_hrsi_feature_result.
  destruct (fst (read_hrsi_feature json_root feature i s)) as [p|e] eqn:Hr;
    [|by exists e].
  assert (Hrun : read_hrsi_feature json_root feature i s = (Ok p, s))
    by (by rewrite read_hrsi_feature_result, Hr).
  apply read_hrsi_feature_reference in Hrun. congruence.
Qed.

Lemma for_features_complete (json_root : json) (features : list json) :
  forall (ps hrsi_products : list product) (i : nat) (s : state),
    references_of features = Some ps ->
    for_features json_root i features hrsi_products s
    = (Ok (hrsi_products ++ ps), s).
Proof.
  induction features as [|feature rest IH]; intros ps acc i s; simpl.
  - intros [= <-]. by rewrite app_nil_r.
  - destruct (reference_of feature) as [p|] eqn:Hp; [|discriminate].
    destruct (references_of rest) as [ps'|] eqn:Hrest; [|discriminate].
    intros [= <-]. unfold bind.
    rewrite (proj2 (read_hrsi_feature_reference json_root feature i p s) Hp).
    rewrite (IH ps') by reflexivity. by rewrite <- app_assoc.
Qed.

Lemma for_features_incomplete (json_root : json) (good : list json) :
  forall (ps hrsi_products : list product) (bad : json) (rest : list json)
         (i : nat) (s : state) (e : exn),
    references_of good = Some ps ->
    read_hrsi_feature json_root bad (i + length good) s = (Raise e, s) ->
    for_features json_root i (good ++ bad :: rest) hrsi_products s
    = (Raise e, s).
Proof.
  induction good as [|feature good IH]; intros ps acc bad rest i s e; simpl.
  - intros _ Hbad. rewrite Nat.add_0_r in Hbad. unfold bind. by rewrite Hbad.
  - destruct (reference_of feature) as [p|] eqn:Hp; [|discriminate].
    destruct (references_of good) as [ps'|] eqn:Hgood; [|discriminate].
    intros _ Hbad. unfold bind.
    rewrite (proj2 (read_hrsi_feature_reference json_root feature i p s) Hp).
    apply (IH ps'); [reflexivity|]. by rewrite Nat.add_succ_comm.
Qed.

Lemma request_page_features
  (w : world) (http_request : string) (page_index : nat) (s : state)
  (json_root : json) (features : list json) :
  catalogue w page_index = Response true (Some json_root) ->
  entry json_root "features" = Some (JArr features) ->
  request_page w http_request page_index s
  = for_features json_root 0 features []
      (add_events s (page_events http_request page_index)).
Proof.
  intros Hcat Hfeatures.
  unfold request_page, requests_get, read_response, page_events.
  unfold logging, emit, bind. rewrite Hcat. simpl.
  unfold try_except. rewrite (getitem_entry _ _ _ _ Hfeatures). simpl.
  by rewrite add_events_app.
Qed.

(** X8.  For a response whose [features] is a list of records that all
    have the entries read, [request_page] returns the references of the
    records in the order of the list, after one log record and one GET of
    the query with [&page=] and the index appended. *)
Theorem request_page_returns_references
  (w : world) (http_request : string) (page_index : nat) (s : state)
  (json_root : json) (features : list json) (ps : list product) :
  catalogue w page_index = Response true (Some json_root) ->
  entry json_root "features" = Some (JArr features) ->
  references_of features = Some ps ->
  request_page w http_request page_index s
  = (Ok ps,
     add_events s [Log INFO (ProcessingPage page_index);
                   HttpGet (http_request +:+ "&page=" +:+ pretty page_index)]).
Proof.
  intros Hcat Hfeatures Hrefs.
  rewrite (request_page_features w _ _ _ json_root features Hcat Hfeatures).
  by rewrite (for_features_complete json_root features ps []).
Qed.

Lemma request_page_returns_references_witness :
  request_page sample_catalogue sample_query 2 query_state
  = (Ok [(JStr "u1", JStr "t1"); (JStr "u3", JStr "t3")],
     add_events query_state
       [Log INFO (ProcessingPage 2);
        HttpGet (sample_query +:+ "&page=" +:+ pretty 2)]).
Proof.
  apply (request_page_returns_references sample_catalogue sample_query 2
           query_state
           (JObj [("features",
                   JArr (map (fun p => feature_of (fst p) (snd p)) (sample_refs 2)))])
           (map (fun p => feature_of (fst p) (snd p)) (sample_refs 2)));
    reflexivity.
Defined.

(** X9.  When a record of the page lacks an entry and the records before
    it are complete, [request_page] raises what [read_hrsi_feature] raises
    for this record at its index in the page: nothing of the page is
    returned, the complete records before and after it included. *)
Theorem request_page_fails_on_incomplete_record
  (w : world) (http_request : string) (page_index : nat) (s : state)
  (json_root bad : json) (good rest : list json) (ps : list product) :
  catalogue w page_index = Response true (Some json_root) ->
  entry json_root "features" = Some (JArr (good ++ bad :: rest)) ->
  references_of good = Some ps ->
  reference_of bad = None ->
  exists e,
    read_hrsi_feature json_root bad (length good) s = (Raise e, s)
    /\ request_page w http_request page_index s
       = (Raise e, add_events s (page_events http_request page_index)).
Proof.
  intros Hcat Hfeatures Hgood Hbad.
  destruct (read_hrsi_feature_incomplete json_root bad (length good) s Hbad)
    as [e He].
  exists e. split; [assumption|].
  rewrite (request_page_features w _ _ _ json_root _ Hcat Hfeatures).
  apply (for_features_incomplete json_root good ps); [assumption|].
  simpl.
  rewrite (pure_at _ _ s (pure_read_hrsi_feature json_root bad (length good))).
  by rewrite He.
Qed.

Lemma request_page_fails_on_incomplete_record_witness :
  let json_root :=
    JObj [("features", JArr [feature_of "u1" "t1"; feature_without_type "u2" "t2";
                             feature_of "u3" "t3"])] in
  request_page world_incomplete_record sample_query 1 query_state
  = (Raise (MissingEntry 1 "productType" json_root),
     add_events query_state (page_events sample_query 1)).
Proof.
  intros json_root.
  destruct (request_page_fails_on_incomplete_record world_incomplete_record
              sample_query 1 query_state json_root
              (feature_without_type "u2" "t2")
              [feature_of "u1" "t1"] [feature_of "u3" "t3"]
              [(JStr "u1", JStr "t1")] eq_refl eq_refl eq_refl eq_refl)
    as (e & He & Hrun).
  injection He as <-. exact Hrun.
Defined.

(** ** A search that is aborted *)

Lemma page_loop_abort_from
  (w : world) (http_request : string) (ceiling : option Z)
  (pages : nat -> list product) (n : nat) (e : exn) :
  (forall i, 1 <= i < n ->
     page_result w http_request i = Ok (pages i) /\ pages i <> []) ->
  (forall j, j < n -> first_exit_condition ceiling j = false) ->
  page_result w http_request n = Raise e ->
  forall d k fuel hrsi_products s,
    n = k + S d ->
    d < fuel ->
    page_loop fuel w http_request ceiling k hrsi_products s
    = Some (Raise e,
            add_events s (flat_map (page_events http_request) (seq (S k) (S d)))).
Proof.
  intros Hok Hceil Hraise d.
  induction d as [|d IH]; intros k fuel acc s Hn Hfuel;
    (destruct fuel as [|fuel]; [lia|]); cbn [page_loop];
    rewrite Hceil by lia; unfold rbind, lift; rewrite request_page_run;
    rewrite Nat.add_1_r.
  - replace (S k) with n by lia. rewrite Hraise. reflexivity.
  - destruct (Hok (S k)) as [Hpage Hne]; [lia|]. rewrite Hpage.
    destruct (pages (S k)) as [|p ps] eqn:Hp; [congruence|].
    rewrite (IH (S k) fuel) by lia.
    rewrite add_events_app. reflexivity.
Qed.

(** X10.  When a page raises (the request fails, the body is no JSON, a
    record lacks an entry, ...) after pages that returned references, the
    search ends with this exception: the pages up to this one were
    requested, no result list is written, no result file is configured,
    and the references of the earlier pages are dropped. *)
Theorem search_aborts_without_result_list
  (w : world) (http_request : string) (ceiling : option Z)
  (pages : nat -> list product) (n fuel : nat) (e : exn) (s : state) :
  hrsi_http_request s = Some http_request ->
  1 <= n ->
  (forall i, 1 <= i < n ->
     page_result w http_request i = Ok (pages i) /\ pages i <> []) ->
  (forall j, j < n -> first_exit_condition ceiling j = false) ->
  page_result w http_request n = Raise e ->
  n <= fuel ->
  execute_request fuel w ceiling s
  = Some (Raise e,
          add_events s (Log INFO (Requesting http_request)
                        :: flat_map (page_events http_request) (seq 1 n)))
  /\ files (add_events s (Log INFO (Requesting http_request)
                          :: flat_map (page_events http_request) (seq 1 n)))
     = files s
  /\ result_file (add_events s (Log INFO (Requesting http_request)
                                :: flat_map (page_events http_request) (seq 1 n)))
     = result_file s.
Proof.
  intros Hq Hn Hok Hceil Hraise Hfuel.
  split; [|split; reflexivity].
  unfold execute_request, rbind, lift, get_state. rewrite Hq.
  unfold logging, emit.
  rewrite (page_loop_abort_from w http_request ceiling pages n e Hok Hceil
             Hraise (n - 1) 0 fuel) by lia.
  rewrite add_events_app. replace (S (n - 1)) with n by lia. reflexivity.
Qed.

Lemma search_aborts_without_result_list_witness :
  let pages := fun i : nat => [(JStr "u1", JStr "t1")] in
  execute_request 2 world_missing_features None query_state
  = Some (Raise (NameError "url_params_page"),
          add_events query_state
            (Log INFO (Requesting sample_query)
             :: flat_map (page_events sample_query) (seq 1 2))).
Proof.
  intros pages.
  refine (proj1 (search_aborts_without_result_list world_missing_features
                   sample_query None pages 2 2 (NameError "url_params_page")
                   query_state eq_refl _ _ _ eq_refl _)).
  - lia.
  - intros i Hi. assert (i = 1) as -> by lia. by split.
  - reflexivity.
  - lia.
Defined.

(** ** The page ceiling *)

Lemma page_loop_within_ceiling
  (w : world) (http_request : string) (m : Z) (d : nat) :
  forall k fuel hrsi_products s,
    Z.to_nat m <= k + d ->
    d < fuel ->
    exists r n,
      n <= d
      /\ page_loop fuel w http_request (Some m) k hrsi_products s
         = Some (r, add_events s
                      (flat_map (page_events http_request) (seq (S k) n))).
Proof.
  induction d as [|d IH]; intros k fuel acc s Hm Hfuel;
    (destruct fuel as [|fuel]; [lia|]); cbn [page_loop first_exit_condition].
  - destruct (Z.leb_spec m (Z.of_nat k)); [|lia].
    exists (Ok acc), 0. split; [lia|]. simpl. by rewrite add_events_nil.
  - destruct (Z.leb_spec m (Z.of_nat k)).
    + exists (Ok acc), 0. split; [lia|]. simpl. by rewrite add_events_nil.
    + unfold rbind, lift. rewrite request_page_run, Nat.add_1_r.
      destruct (page_result w http_request (S k)) as [[|p ps]|e].
      * exists (Ok acc), 1. split; [lia|]. reflexivity.
      * destruct (IH (S k) fuel (acc ++ p :: ps)
                    (add_events s (page_events http_request (S k))))
          as (r & n & Hn & ->); [lia | lia |].
        exists r, (S n). split; [lia|]. by rewrite add_events_app.
      * exists (Raise e), 1. split; [lia|]. reflexivity.
Qed.

(** X11.  With a ceiling of [m] pages the loop of [execute_request] ends,
    whatever the catalogue answers, after at most [m] requests, for the
    pages 1, 2, .. in this order; a ceiling of 0 or below means no request
    at all. *)
Theorem search_respects_ceiling
  (w : world) (http_request : string) (m : Z) (fuel : nat) (s : state) :
  Z.to_nat m < fuel ->
  exists r n,
    n <= Z.to_nat m
    /\ page_loop fuel w http_request (Some m) 0 [] s
       = Some (r, add_events s (flat_map (page_events http_request) (seq 1 n))).
Proof.
  intros Hfuel.
  apply (page_loop_within_ceiling w http_request m (Z.to_nat m) 0 fuel [] s); lia.
Qed.

Lemma search_respects_ceiling_witness :
  exists r n,
    n <= 2
    /\ page_loop 3 growing_catalogue sample_query (Some 2%Z) 0 [] query_state
       = Some (r, add_events query_state
                    (flat_map (page_events sample_query) (seq 1 n))).
Proof.
  apply (search_respects_ceiling growing_catalogue sample_query 2 3 query_state).
  simpl. lia.
Defined.

(** ** What is saved *)




Lemma set_of_keys (hrsi_products : list product) :
  forall (ks : list (hkey * hkey)) (s : state),
    keys_of hrsi_products = Some ks ->
    set_of hrsi_products s = (Ok (list_to_set ks), s).
Proof.
  induction hrsi_products as [|p rest IH]; intros ks s; simpl.
  - by intros [= <-].
  - destruct (hash_product p) as [k|]; [|discriminate].
    destruct (keys_of rest) as [ks'|]; [|discriminate].
    intros [= <-]. unfold bind. by rewrite (IH ks').
Qed.

Lemma set_of_unhashable (hrsi_products : list product) (s : state) :
  keys_of hrsi_products = None ->
  set_of hrsi_products s = (Raise TypeError, s).
Proof.
  induction hrsi_products as [|p rest IH]; simpl; [discriminate|].
  destruct (hash_product p) as [k|]; [|reflexivity].
  destruct (keys_of rest) as [ks'|]; [discriminate|].
  intros _. unfold bind. by rewrite IH.
Qed.

Lemma result_lines_not_text (l : list (hkey * hkey)) (s : state) :
  Exists (fun k => is_text_key k = false) l ->
  result_lines l s = (Raise TypeError, s).
Proof.
  induction 1 as [k l Hk | k l _ IH]; simpl; unfold bind.
  - destruct k as [[| |u] [| |t]]; try reflexivity. discriminate Hk.
  - destruct k as [[| |u] [| |t]]; try reflexivity.
    simpl. by rewrite IH.
Qed.

(** X13.  When every reference can be a member of a set but one of them
    has a URL or a title that is not a text (a number, a boolean, null),
    [save_results] raises [TypeError] after the result file was opened for
    writing: the file is configured and left empty. *)
Theorem save_results_non_text_empties_file
  (w : world) (hrsi_products : list product) (ks : list (hkey * hkey))
  (k : hkey * hkey) (s : state) :
  (forall members : gset (hkey * hkey), set_order w members ≡ₚ elements members) ->
  keys_of hrsi_products = Some ks ->
  k ∈ ks ->
  is_text_key k = false ->
  exists s',
    save_results w hrsi_products s = (Raise TypeError, s')
    /\ result_file s' = Some (result_path s)
    /\ files s' = <[result_path s := ""]> (files s).
Proof.
  intros Hord Hks Hk Hnot.
  assert (Hlines : forall s',
            result_lines (set_order w (list_to_set ks)) s' = (Raise TypeError, s')).
  { intros s'. apply result_lines_not_text. apply Exists_exists.
    exists k. split; [|assumption].
    rewrite Hord. by apply elem_of_elements, elem_of_list_to_set. }
  unfold save_results, bind, logging, emit.
  rewrite (set_of_keys hrsi_products ks) by assumption.
  unfold set_result_file, write_file, get_state, bind, logging, emit, ret.
  destruct (negb (size (list_to_set ks : gset (hkey * hkey))
                  =? length hrsi_products)%nat);
    rewrite Hlines; eexists; (split; [reflexivity|]); split; reflexivity.
Qed.

Lemma save_results_non_text_empties_file_witness :
  exists s',
    save_results sample_catalogue [(JStr "u1", JStr "t1"); (JStr "u2", JNull)]
      query_state
    = (Raise TypeError, s')
    /\ result_file s' = Some "/out/result_file.txt"
    /\ files s' = <["/out/result_file.txt" := ""]> (files query_state).
Proof.
  apply (save_results_non_text_empties_file sample_catalogue
           [(JStr "u1", JStr "t1"); (JStr "u2", JNull)]
           [(KStr "u1", KStr "t1"); (KStr "u2", KNone)] (KStr "u2", KNone)
           query_state (fun members => reflexivity _) eq_refl).
  - right. left.
  - reflexivity.
Defined.

(** X14.  When a URL or a title is a list or an object, [save_results]
    raises [TypeError] in building the set: apart from the debug record
    nothing has happened, no file is written and none configured. *)
Theorem save_results_unhashable_writes_nothing
  (w : world) (hrsi_products : list product) (s : state) :
  keys_of hrsi_products = None ->
  save_results w hrsi_products s
  = (Raise TypeError,
     add_events s [Log DEBUG (ProductCount (length hrsi_products))]).
Proof.
  intros Hks. unfold save_results, bind, logging, emit.
  by rewrite set_of_unhashable.
Qed.

Lemma save_results_unhashable_writes_nothing_witness :
  save_results sample_catalogue [(JStr "u1", JArr [JStr "t1"])] query_state
  = (Raise TypeError, add_events query_state [Log DEBUG (ProductCount 1)]).
Proof.
  apply (save_results_unhashable_writes_nothing sample_catalogue
           [(JStr "u1", JArr [JStr "t1"])] query_state).
  reflexivity.
Defined.

(** ** One try of a download *)

Lemma get_token_run
  (r : curl_replies) (username password token : string) (rest : list string)
  (out : dict) (s : state) :
  token_out r = Some out ->
  dict_get "access_token" out = Some token ->
  get_token r (username :: password :: rest) s
  = (Ok token, add_events s (token_events username password out)).
Proof.
  intros Hout Htok. unfold get_token, token_events, bind, logging, emit, ret.
  rewrite Hout, Htok.
  destruct (bool_decide (is_Some (dict_get "error" out))); simpl;
    [by rewrite add_events_app | reflexivity].
Qed.

Lemma transfer_run
  (r : curl_replies) (adress dl_filename : string) (s : state) :
  bind (download_with_curl r adress (Some dl_filename))
       (fun hrsi_filepath => logging INFO (Downloaded hrsi_filepath)) s
  = (if transfer_ok r then Ok tt else Raise CalledProcessError,
     add_events s (transfer_events r dl_filename adress
                     (path_join (outputPath s) dl_filename))).
Proof.
  unfold download_with_curl, transfer_events, bind, logging, emit, get_state, ret.
  simpl. destruct (transfer_ok r); unfold raise, add_events; simpl;
    rewrite <- ?app_assoc; reflexivity.
Qed.

(** A try on an entry that has a title. *)
Lemma try_download_titled
  (r : curl_replies) (username password token url title : string)
  (rest more : list string) (out : dict) (s : state) :
  token_out r = Some out ->
  dict_get "access_token" out = Some token ->
  let dl_filename := Text.last_field (Text.split "/" title) +:+ ".zip" in
  let adress := url +:+ "?token=" +:+ token in
  let path := path_join (outputPath s) dl_filename in
  try_download r (username :: password :: rest) (url :: title :: more) s
  = (if transfer_ok r then Ok tt else Raise CalledProcessError,
     add_events s (token_events username password out
                   ++ transfer_events r dl_filename adress path)).
Proof.
  intros Hout Htok dl_filename adress path.
  unfold try_download, hrsi_adress. unfold bind at 1 2.
  rewrite (get_token_run r username password token rest out s Hout Htok).
  unfold ret. rewrite transfer_run.
  subst dl_filename adress path. cbn [outputPath add_events].
  by rewrite add_events_app.
Qed.

Lemma prefix_char (c a : ascii) (s : string) :
  String.prefix (String c "") (String a s) = Ascii.eqb a c.
Proof.
  cbn [String.prefix]. destruct (ascii_dec c a) as [<-|Hne].
  - rewrite Ascii.eqb_refl. by destruct s.
  - symmetry. apply Ascii.eqb_neq. congruence.
Qed.

(** No field of a split holds the separator. *)
Lemma split_fields_plain (c : ascii) (s : string) :
  Forall (fun field => all_chars (fun a => negb (Ascii.eqb a c)) field = true)
         (Text.split (String c "") s).
Proof.
  unfold Text.split. induction s as [|a s IH]; [by repeat constructor|].
  cbn [Text.split_go]. rewrite prefix_char.
  destruct (Ascii.eqb a c) eqn:Hac.
  - constructor; [reflexivity | exact IH].
  - destruct (Text.split_go (String c "") 0 s) as [|field fields].
    + repeat constructor. simpl. by rewrite Hac.
    + apply Forall_cons in IH as [Hfield Hfields].
      constructor; [|assumption]. simpl. by rewrite Hac, Hfield.
Qed.

Lemma Forall_last {A} (P : A -> Prop) (l : list A) (d : A) :
  P d -> Forall P l -> P (List.last l d).
Proof.
  intros Hd Hl. induction Hl as [|x l Hx Hl IH]; [assumption|].
  destruct l; [assumption | exact IH].
Qed.

Lemma prefix_app (a x : string) : String.prefix a (a +:+ x) = true.
Proof.
  induction a as [|c a IH]; [by destruct x|].
  rewrite sapp_cons. cbn [String.prefix].
  destruct (ascii_dec c c); [exact IH | contradiction].
Qed.

Lemma path_join_inside (a b : string) :
  String.prefix "/" b = false -> String.prefix a (path_join a b) = true.
Proof.
  intros Hb. unfold path_join. rewrite Hb.
  destruct (negb (Text.nonempty a) || Text.endswith "/" a); apply prefix_app.
Qed.

(** X15.  For an entry with a title, a try asks for a token, probes no
    header, and hands the shell one transfer command, the text
    [curl <url>?token=<token> -o <path> -s], where [path] is what
    [os.path.join] makes of the output path and the last segment of the
    title followed by [.zip].  The address and the path stand in the
    command line as they are, without quotes.  The segment has no [/] in
    it, so the text of the path starts with the output path. *)
Theorem titled_entry_transfer_command
  (r : curl_replies) (username password token url title : string)
  (rest more : list string) (out : dict) (s : state) :
  token_out r = Some out ->
  dict_get "access_token" out = Some token ->
  let segment := Text.last_field (Text.split "/" title) in
  let path := path_join (outputPath s) (segment +:+ ".zip") in
  exists new,
    snd (try_download r (username :: password :: rest) (url :: title :: more) s)
    = add_events s new
    /\ List.filter is_transfer new
       = [TransferCall ("curl " +:+ (url +:+ "?token=" +:+ token)
                        +:+ " -o " +:+ path +:+ " -s")]
    /\ List.filter is_head new = []
    /\ all_chars (fun a => negb (Ascii.eqb a SLASH)) segment = true
    /\ String.prefix (outputPath s) path = true.
Proof.
  intros Hout Htok segment path.
  assert (Hseg : all_chars (fun a => negb (Ascii.eqb a SLASH)) segment = true).
  { apply (Forall_last (fun field => all_chars _ field = true));
      [reflexivity | apply (split_fields_plain SLASH)]. }
  eexists. rewrite (try_download_titled r username password token url title
                      rest more out s Hout Htok).
  split; [reflexivity|]. split; [|split; [|split]].
  - unfold token_events, transfer_events.
    destruct (bool_decide _), (transfer_ok r); reflexivity.
  - unfold token_events, transfer_events.
    destruct (bool_decide _), (transfer_ok r); reflexivity.
  - exact Hseg.
  - apply path_join_inside. destruct segment as [|a seg]; [reflexivity|].
    rewrite sapp_cons, (prefix_char "/" a).
    simpl in Hseg. apply andb_prop in Hseg as [Ha _].
    by apply negb_true_iff in Ha.
Qed.

Lemma titled_entry_transfer_command_witness :
  exists new,
    snd (try_download token_granted ["login"; "password"]
           ["https://host/dl/7"; "/eodata/HRSI/two words"] query_state)
    = add_events query_state new
    /\ List.filter is_transfer new
       = [TransferCall
            "curl https://host/dl/7?token=TOK -o /out/two words.zip -s"].
Proof.
  destruct (titled_entry_transfer_command token_granted
              "login" "password" "TOK" "https://host/dl/7"
              "/eodata/HRSI/two words" [] []
              [("access_token", "TOK")] query_state eq_refl eq_refl)
    as (new & Hrun & Hcmd & _).
  exists new. split; [exact Hrun | exact Hcmd].
Defined.

(** A try on an entry without title, up to the header probe. *)
Lemma try_download_untitled
  (r : curl_replies) (username password token url : string)
  (rest : list string) (out : dict) (s : state) :
  token_out r = Some out ->
  dict_get "access_token" out = Some token ->
  let adress := url +:+ "?token=" +:+ token in
  let probed := add_events s (token_events username password out
                              ++ [CurlHead adress]) in
  try_download r (username :: password :: rest) [url] s
  = match probe_filename r with
    | None => (Raise (probe_error r), probed)
    | Some name =>
        if Text.endswith ".zip" name
        then (if transfer_ok r then Ok tt else Raise CalledProcessError,
              add_events probed
                (transfer_events r name adress (path_join (outputPath s) name)))
        else (Raise AssertionError, probed)
    end.
Proof.
  intros Hout Htok adress probed. subst probed.
  unfold try_download, hrsi_adress. unfold bind at 1 2.
  rewrite (get_token_run r username password token rest out s Hout Htok).
  unfold ret. fold adress.
  rewrite <- (add_events_app s (token_events username password out)
                [CurlHead adress]).
  set (s1 := add_events s (token_events username password out)).
  destruct (probe_filename r) as [name|] eqn:Hprobe.
  - destruct (Text.endswith ".zip" name) eqn:Hzip.
    + etrans;
        [|exact (transfer_run r adress name (add_events s1 [CurlHead adress]))].
      unfold download_with_curl, bind, emit, ret.
      rewrite Hprobe, Hzip. reflexivity.
    + unfold download_with_curl, bind, emit, ret, raise.
      by rewrite Hprobe, Hzip.
  - unfold download_with_curl, bind, emit, ret, raise.
    by rewrite Hprobe.
Qed.

(** X16.  For an entry without title the file name comes from the header
    probe: when the name found there ends with [.zip] and starts with [/],
    the transfer writes to exactly this path, whatever the output
    directory is. *)
Theorem untitled_entry_follows_absolute_name
  (r : curl_replies) (username password token url name : string)
  (rest : list string) (out : dict) (s : state) :
  token_out r = Some out ->
  dict_get "access_token" out = Some token ->
  probe_filename r = Some name ->
  Text.endswith ".zip" name = true ->
  String.prefix "/" name = true ->
  exists new,
    try_download r (username :: password :: rest) [url] s
    = (if transfer_ok r then Ok tt else Raise CalledProcessError,
       add_events s new)
    /\ In (CurlHead (url +:+ "?token=" +:+ token)) new
    /\ In (CurlDownload (url +:+ "?token=" +:+ token) name) new.
Proof.
  intros Hout Htok Hprobe Hzip Habs.
  rewrite (try_download_untitled r username password token url rest out s
             Hout Htok), Hprobe, Hzip.
  unfold path_join. rewrite Habs. rewrite add_events_app.
  eexists. split; [reflexivity|].
  split.
  - apply in_or_app. left. apply in_or_app. right. by left.
  - apply in_or_app. right. unfold transfer_events. simpl. auto.
Qed.

Lemma untitled_entry_follows_absolute_name_witness :
  exists new,
    try_download absolute_name_replies ["login"; "password"] ["u1"] query_state
    = (Ok tt, add_events query_state new)
    /\ In (CurlHead "u1?token=TOK") new
    /\ In (CurlDownload "u1?token=TOK" "/tmp/elsewhere.zip") new.
Proof.
  apply (untitled_entry_follows_absolute_name absolute_name_replies
           "login" "password" "TOK" "u1" "/tmp/elsewhere.zip" []
           [("access_token", "TOK")] query_state); reflexivity.
Defined.

(** X17.  For an entry without title, a name from the header probe that
    does not end with [.zip] stops the try with [AssertionError] right
    after the probe: nothing is transferred. *)
Theorem untitled_entry_needs_zip_name
  (r : curl_replies) (username password token url name : string)
  (rest : list string) (out : dict) (s : state) :
  token_out r = Some out ->
  dict_get "access_token" out = Some token ->
  probe_filename r = Some name ->
  Text.endswith ".zip" name = false ->
  exists new,
    try_download r (username :: password :: rest) [url] s
    = (Raise AssertionError, add_events s new)
    /\ List.filter is_transfer new = [].
Proof.
  intros Hout Htok Hprobe Hzip.
  rewrite (try_download_untitled r username password token url rest out s
             Hout Htok), Hprobe, Hzip.
  eexists. split; [reflexivity|].
  unfold token_events. by destruct (bool_decide _).
Qed.

Lemma untitled_entry_needs_zip_name_witness :
  exists new,
    try_download html_name_replies ["login"; "password"] ["u1"] query_state
    = (Raise AssertionError, add_events query_state new)
    /\ List.filter is_transfer new = [].
Proof.
  apply (untitled_entry_needs_zip_name html_name_replies
           "login" "password" "TOK" "u1" "error.html" []
           [("access_token", "TOK")] query_state); reflexivity.
Defined.

(** ** Credentials *)

Lemma try_download_short_credentials
  (r : curl_replies) (credentials info_product : list string) (s : state) :
  length credentials < 2 ->
  try_download r credentials info_product s = (Raise IndexError, s).
Proof.
  intros Hlen. unfold try_download, hrsi_adress, get_token, bind.
  destruct info_product as [|url more]; [reflexivity|].
  destruct credentials as [|u [|p rest]]; simpl in Hlen; [reflexivity.. | lia].
Qed.

(** X18.  When the first line of the credential file has no colon, the
    list of credentials has one element; then, for a result list that is
    not empty, [download] raises [IndexError] on the first entry before
    any command is run: no event is added and the state is as before. *)
Theorem download_without_password
  (w : world) (s : state)
  (credential_path credential result_path content : string) :
  hrsi_credential s = Some credential_path ->
  files s !! credential_path = Some credential ->
  result_file s = Some result_path ->
  files s !! result_path = Some content ->
  length (credentials_of credential) < 2 ->
  nonblank_lines content <> [] ->
  download w s = (Raise IndexError, s).
Proof.
  intros Hc Hcf Hr Hrf Hlen Hlines.
  rewrite (download_run w s _ _ _ _ Hc Hcf Hr Hrf).
  rewrite parse_result_list_fields. fold (nonblank_lines content).
  destruct (nonblank_lines content) as [|line rest]; [contradiction|].
  simpl. unfold bind. rewrite download_product_single_try.
  by rewrite try_download_short_credentials.
Qed.

Lemma download_without_password_witness :
  credentials_of ("login password" +:+ String Text.LF "") = ["login password"]
  /\ download quiet_world colonless_state = (Raise IndexError, colonless_state).
Proof.
  split; [reflexivity|].
  apply (download_without_password quiet_world colonless_state
           "/auth.txt" ("login password" +:+ String Text.LF "")
           "/out/result_file.txt" two_products); try reflexivity.
  - simpl. lia.
  - discriminate.
Defined.

(** ** What each mode leaves alone *)

Section Emits.

Variable P : event -> bool.

Lemma emits_ret {A} (v : A) : emits P (ret v).
Proof. intros s. exists []. simpl. by rewrite app_nil_r. Qed.

Lemma emits_raise {A} (e : exn) : emits P (@raise A e).
Proof. intros s. exists []. simpl. by rewrite app_nil_r. Qed.

Lemma emits_pure {A} (m : M A) : pure m -> emits P m.
Proof. intros [r Hr] s. exists []. rewrite Hr. simpl. by rewrite app_nil_r. Qed.

Lemma emits_emit (e : event) : P e = true -> emits P (emit e).
Proof. intros He s. exists [e]. simpl. by rewrite He. Qed.

Lemma emits_bind {A B} (m : M A) (k : A -> M B) :
  emits P m -> (forall v, emits P (k v)) -> emits P (bind m k).
Proof.
  intros Hm Hk s. unfold bind. destruct (Hm s) as (new1 & He1 & Hp1).
  destruct (m s) as [[v|e] s1]; simpl in He1.
  - destruct (Hk v s1) as (new2 & He2 & Hp2).
    exists (new1 ++ new2). rewrite He2, He1, <- app_assoc.
    split; [reflexivity|]. by rewrite forallb_app, Hp1, Hp2.
  - by exists new1.
Qed.

Lemma emits_try {A} (m : M A) (h : exn -> M A) :
  emits P m -> (forall e, emits P (h e)) -> emits P (try_except m h).
Proof.
  intros Hm Hh s. unfold try_except. destruct (Hm s) as (new1 & He1 & Hp1).
  destruct (m s) as [[v|e] s1]; simpl in He1.
  - by exists new1.
  - destruct (Hh e s1) as (new2 & He2 & Hp2).
    exists (new1 ++ new2). rewrite He2, He1, <- app_assoc.
    split; [reflexivity|]. by rewrite forallb_app, Hp1, Hp2.
Qed.

(** A step that changes fields or files only. *)
Lemma emits_quiet {A} (m : M A) :
  (forall s, events (snd (m s)) = events s) -> emits P m.
Proof. intros Hm s. exists []. rewrite Hm. by rewrite app_nil_r. Qed.

Lemma remits_lift {A} (m : M A) : emits P m -> remits P (lift m).
Proof.
  intros Hm s r s' [= Heq]. destruct (Hm s) as (new & He & Hp).
  rewrite Heq in He. by exists new.
Qed.

Lemma remits_bind {A B} (m : R A) (k : A -> R B) :
  remits P m -> (forall v, remits P (k v)) -> remits P (rbind m k).
Proof.
  intros Hm Hk s r s'. unfold rbind.
  destruct (m s) as [[[v|e] s1]|] eqn:Hms; [| |discriminate].
  - intros Hks. destruct (Hm s _ _ Hms) as (new1 & He1 & Hp1).
    destruct (Hk v s1 _ _ Hks) as (new2 & He2 & Hp2).
    exists (new1 ++ new2). rewrite He2, He1, <- app_assoc.
    split; [reflexivity|]. by rewrite forallb_app, Hp1, Hp2.
  - intros [= <- <-]. exact (Hm s _ _ Hms).
Qed.

Hypothesis logs : forall lv m, P (Log lv m) = true.

Lemma emits_logging (lv : level) (m : msg) : emits P (logging lv m).
Proof using logs. apply emits_emit, logs. Qed.

Lemma emits_if_truthy {A} (t : A -> bool) (field : option A) (d : dict)
      (body : A -> M dict) :
  (forall v, emits P (body v)) -> emits P (if_truthy t field d body).
Proof.
  intros Hbody. unfold if_truthy. destruct field as [v|]; [|apply emits_ret].
  destruct (t v); [apply Hbody | apply emits_ret].
Qed.

Lemma emits_validate (date_text : string) : emits P (validate_Rfc3339 date_text).
Proof.
  unfold validate_Rfc3339.
  destruct (Strptime.parses date_text); [apply emits_ret | apply emits_raise].
Qed.

Lemma emits_set_hrsi_http_request (q : string) : emits P (set_hrsi_http_request q).
Proof using logs.
  apply emits_bind; [apply emits_logging | intros _; by apply emits_quiet].
Qed.

Lemma emits_set_hrsi_credential (c : option string) :
  emits P (set_hrsi_credential c).
Proof using logs.
  apply emits_bind; [apply emits_logging | intros _; by apply emits_quiet].
Qed.

Lemma emits_set_result_file (path : string) : emits P (set_result_file path).
Proof using logs.
  apply emits_bind; [apply emits_logging | intros _; by apply emits_quiet].
Qed.

Lemma emits_build_request (f : SearchFilter) : emits P (build_request f).
Proof using logs.
  unfold build_request, if_str, if_int.
  repeat (apply emits_bind;
          [apply emits_if_truthy; intros;
           first [apply emits_ret
                 | apply emits_bind; [apply emits_validate | intros; apply emits_ret]]
          | intros]).
  match goal with |- emits P (match ?d with _ => _ end) => destruct d end.
  - apply emits_bind; [apply emits_logging | intros; apply emits_raise].
  - apply emits_bind; [apply emits_logging | intros _].
    apply emits_bind; [apply emits_logging | intros _].
    apply emits_set_hrsi_http_request.
Qed.

Lemma emits_set_of (hrsi_products : list product) : emits P (set_of hrsi_products).
Proof.
  induction hrsi_products as [|p rest IH]; simpl; [apply emits_ret|].
  destruct (hash_product p); [|apply emits_raise].
  apply emits_bind; [exact IH | intros; apply emits_ret].
Qed.

Lemma emits_result_lines (l : list (hkey * hkey)) : emits P (result_lines l).
Proof.
  induction l as [|k l IH]; simpl; [apply emits_ret|].
  apply emits_bind.
  - destruct k as [[| |u] [| |title]]; first [apply emits_ret | apply emits_raise].
  - intros. apply emits_bind; [exact IH | intros; apply emits_ret].
Qed.

Lemma emits_save_results (w : world) (hrsi_products : list product) :
  emits P (save_results w hrsi_products).
Proof using logs.
  unfold save_results.
  apply emits_bind; [apply emits_logging | intros _].
  apply emits_bind; [apply emits_set_of | intros members].
  apply emits_bind;
    [destruct (negb _); [apply emits_logging | apply emits_ret] | intros _].
  apply emits_bind; [apply emits_logging | intros _].
  apply emits_bind; [by apply emits_quiet | intros s0].
  apply emits_bind; [apply emits_set_result_file | intros _].
  apply emits_bind; [apply emits_logging | intros _].
  apply emits_bind; [by apply emits_quiet | intros _].
  apply emits_bind; [apply emits_result_lines | intros lines].
  by apply emits_quiet.
Qed.

End Emits.

Lemma emits_request_page (w : world) (http_request : string) (page_index : nat) :
  emits is_search_event (request_page w http_request page_index).
Proof.
  intros s. rewrite request_page_run. exists (page_events http_request page_index).
  split; reflexivity.
Qed.

Lemma remits_page_loop (w : world) (http_request : string) (ceiling : option Z)
  (fuel : nat) :
  forall requested_pages hrsi_products,
    remits is_search_event
      (page_loop fuel w http_request ceiling requested_pages hrsi_products).
Proof.
  induction fuel as [|fuel IH]; intros k acc; cbn [page_loop].
  - intros s r s'. discriminate.
  - destruct (first_exit_condition ceiling k).
    + apply remits_lift, emits_ret.
    + apply remits_bind; [apply remits_lift, emits_request_page|].
      intros [|p ps]; [apply remits_lift, emits_ret | apply IH].
Qed.

Lemma remits_execute_request (fuel : nat) (w : world) (ceiling : option Z) :
  remits is_search_event (execute_request fuel w ceiling).
Proof.
  unfold execute_request.
  apply remits_bind; [apply remits_lift; by apply emits_quiet | intros s0].
  destruct (hrsi_http_request s0) as [q|].
  - apply remits_bind; [apply remits_lift; by apply emits_logging | intros _].
    apply remits_bind; [apply remits_page_loop | intros products].
    apply remits_lift. by apply emits_save_results.
  - apply remits_lift, emits_bind;
      [by apply emits_logging | intros; apply emits_raise].
Qed.

Lemma emits_get_token (r : curl_replies) (credentials : list string) :
  emits is_not_get (get_token r credentials).
Proof.
  unfold get_token. destruct credentials as [|u [|p rest]]; try apply emits_raise.
  apply emits_bind; [by apply emits_emit | intros _].
  destruct (token_out r) as [out|]; [|apply emits_raise].
  apply emits_bind.
  - destruct (bool_decide _); [by apply emits_logging | apply emits_ret].
  - intros _. destruct (dict_get "access_token" out);
      [apply emits_ret | apply emits_raise].
Qed.

Lemma emits_download_with_curl (r : curl_replies) (product_url : string)
  (dl_filename : option string) :
  emits is_not_get (download_with_curl r product_url dl_filename).
Proof.
  unfold download_with_curl.
  apply emits_bind.
  - destruct dl_filename as [name|]; [apply emits_ret|].
    apply emits_bind; [by apply emits_emit | intros _].
    destruct (probe_filename r) as [name|]; [|apply emits_raise].
    destruct (Text.endswith ".zip" name); [apply emits_ret | apply emits_raise].
  - intros name.
    apply emits_bind; [by apply emits_logging | intros _].
    apply emits_bind; [by apply emits_quiet | intros s0].
    apply emits_bind; [by apply emits_logging | intros _].
    apply emits_bind; [by apply emits_emit | intros _].
    apply emits_bind;
      [destruct (transfer_ok r); [apply emits_ret | apply emits_raise] | intros _].
    apply emits_bind; [by apply emits_logging | intros _; apply emits_ret].
Qed.

Lemma emits_try_download (r : curl_replies) (credentials info_product : list string) :
  emits is_not_get (try_download r credentials info_product).
Proof.
  unfold try_download, hrsi_adress.
  destruct info_product as [|url more]; [apply emits_raise|].
  apply emits_bind.
  - apply emits_bind; [apply emits_get_token | intros; apply emits_ret].
  - intros adress.
    apply emits_bind; [apply emits_download_with_curl | intros path].
    by apply emits_logging.
Qed.

Lemma emits_download_product
  (w : world) (credentials : list string) (i : nat) (info_product : list string)
  (bound : nat) :
  forall k ntries,
    bound - ntries <= k ->
    emits is_not_get (download_product w credentials i info_product bound ntries).
Proof.
  induction k as [|k IH]; intros ntries Hk; simp download_product;
    destruct (decide (ntries < bound)) as [Hlt|]; simpl;
    try apply emits_ret; [lia|].
  apply emits_try; [apply emits_try_download | intros e].
  destruct (decide (ntries + 1 = bound)); [apply emits_raise|].
  apply emits_bind; [by apply emits_emit | intros _].
  apply emits_bind; [by apply emits_logging | intros _].
  apply IH. lia.
Qed.

Lemma emits_for_products
  (w : world) (credentials : list string) (bound : nat)
  (product_list : list (list string)) :
  forall i, emits is_not_get (for_products w credentials bound i product_list).
Proof.
  induction product_list as [|p rest IH]; intros i; simpl; [apply emits_ret|].
  apply emits_bind; [|intros _; apply IH].
  apply (emits_download_product w credentials i p bound (bound - 0)). lia.
Qed.

Lemma emits_read_file (P : event -> bool) (path : string) : emits P (read_file path).
Proof.
  apply emits_quiet. intros s. unfold read_file. by destruct (files s !! path).
Qed.

Lemma emits_download (w : world) : emits is_not_get (download w).
Proof.
  unfold download.
  apply emits_bind; [by apply emits_quiet | intros s0].
  destruct (hrsi_credential s0) as [path|];
    [|apply emits_bind; [by apply emits_logging | intros; apply emits_raise]].
  apply emits_bind.
  - apply emits_try.
    + apply emits_bind; [apply emits_read_file | intros; apply emits_ret].
    + intros e. apply emits_bind; [by apply emits_logging | intros; apply emits_raise].
  - intros credentials. destruct (result_file s0) as [rpath|];
      [|apply emits_bind; [by apply emits_logging | intros; apply emits_raise]].
    apply emits_bind; [|intros; apply emits_for_products].
    apply emits_try.
    + apply emits_bind; [apply emits_read_file | intros; apply emits_ret].
    + intros e. apply emits_bind; [by apply emits_logging | intros; apply emits_raise].
Qed.

(** X19.  A run in query mode that ends has logged and has requested
    pages of the catalogue, and nothing else: no token is asked for,
    no header probed, no file transferred and no sleep made, whatever the
    arguments, the disk and the outside world. *)
Theorem query_mode_only_searches
  (fuel : nat) (w : world) (args : arguments) (disk : gmap string string)
  (r : result unit) (s : state) :
  run_mode args = Query ->
  main fuel w args disk = Some (r, s) ->
  forallb is_search_event (events s) = true.
Proof.
  intros Hmode Hmain. unfold main in Hmain.
  assert (Hbody : remits is_search_event (main_body fuel w args)).
  { unfold main_body. rewrite Hmode.
    apply remits_bind; [|intros _].
    - apply remits_bind; [|intros _; apply remits_execute_request].
      apply remits_lift. destruct (truthy (queryURL args)).
      + by apply emits_set_hrsi_http_request.
      + by apply emits_build_request.
    - apply remits_bind; [apply remits_lift, emits_ret | intros _].
      apply remits_bind; apply remits_lift || intros _; try by apply emits_logging.
      apply remits_lift. by apply emits_logging. }
  destruct (Hbody _ _ _ Hmain) as (new & -> & Hnew).
  rewrite forallb_app, Hnew. simpl. by destruct (output_dir_exists w).
Qed.

Lemma query_mode_only_searches_witness :
  forallb is_search_event
    (events (snd (default (Ok tt, initial_state)
                    (main 4 sample_catalogue (query_only (Some sample_query) empty_filter)
                          ∅))))
  = true.
Proof.
  destruct (main 4 sample_catalogue (query_only (Some sample_query) empty_filter) ∅)
    as [[r s]|] eqn:Hmain; [|reflexivity].
  apply (query_mode_only_searches 4 sample_catalogue
           (query_only (Some sample_query) empty_filter) ∅ r s eq_refl Hmain).
Defined.

Lemma three_lifted_steps (A B C : M unit) (s : state) :
  rbind (lift A) (fun _ => rbind (lift B) (fun _ => lift C)) s
  = Some (bind A (fun _ => bind B (fun _ => C)) s).
Proof.
  unfold rbind, lift, bind.
  destruct (A s) as [[[]|e] s1]; [|reflexivity].
  destruct (B s1) as [[[]|e] s2]; reflexivity.
Qed.

(** X20.  A run in download mode always ends, with no fuel at all, and
    never requests a page of the catalogue, whatever the arguments, the
    disk and the outside world. *)
Theorem download_mode_never_searches
  (fuel : nat) (w : world) (args : arguments) (disk : gmap string string) :
  run_mode args = Download ->
  exists r s,
    main fuel w args disk = Some (r, s)
    /\ forallb is_not_get (events s) = true.
Proof.
  intros Hmode. unfold main, main_body. rewrite Hmode. cbv iota.
  unfold rbind at 1, lift at 1, ret at 1. cbv beta iota.
  rewrite three_lifted_steps.
  match goal with
  | |- exists r s, Some (?m ?s0) = _ /\ _ =>
      assert (Hm : emits is_not_get m); [|destruct (Hm s0) as (new & He & Hp);
                                          destruct (m s0) as [r s]]
  end.
  - apply emits_bind;
      [destruct (truthy (arg_result_file args));
       [by apply emits_set_result_file | by apply emits_logging] | intros _].
    apply emits_bind; [|intros _; by apply emits_logging].
    apply emits_bind; [by apply emits_set_hrsi_credential | intros _].
    apply emits_bind; [by apply emits_logging | intros _].
    apply emits_bind; [apply emits_download | intros _; by apply emits_logging].
  - exists r, s. split; [reflexivity|]. cbn [snd] in He. rewrite He.
    rewrite forallb_app, Hp. simpl. by destruct (output_dir_exists w).
Qed.

Lemma download_mode_never_searches_witness :
  exists r s,
    main 0 quiet_world (download_only (Some "/auth.txt") (Some "/list.txt"))
         sample_disk = Some (r, s)
    /\ forallb is_not_get (events s) = true.
Proof.
  apply (download_mode_never_searches 0 quiet_world
           (download_only (Some "/auth.txt") (Some "/list.txt")) sample_disk).
  reflexivity.
Defined.

(** ** A whole download *)

Lemma token_command_line (username password : string) :
  token_command username password = token_line username password.
Proof.
  unfold token_command, token_line, DQ. cbn [Text.join].
  cbn [String.append]. by rewrite !sapp_assoc.
Qed.

Lemma network_token_events (username password : string) (out : dict) :
  List.filter is_network (token_events username password out)
  = [TokenCall (token_line username password)].
Proof.
  unfold token_events, CurlToken. rewrite token_command_line.
  by destruct (bool_decide _).
Qed.

Lemma for_products_titled
  (w : world) (username password : string) (rest : list string)
  (token_at : nat -> string) (entries : list (string * string)) :
  forall i s,
    (forall j, j < length entries ->
       grants (curl w (i + j) 0) (token_at (i + j))) ->
    exists new,
      for_products w (username :: password :: rest) max_retry i
        (map pair_fields entries) s
      = (Ok tt, add_events s new)
      /\ List.filter is_network new
         = traffic username password (outputPath s) token_at i entries.
Proof.
  induction entries as [|p entries IH]; intros i s Hgrant.
  - exists []. by rewrite add_events_nil.
  - destruct (Hgrant 0) as (out & Hout & Htok & Hok); [simpl; lia|].
    rewrite Nat.add_0_r in Hout, Htok, Hok.
    cbn [map for_products]. unfold bind at 1.
    rewrite download_product_single_try. unfold pair_fields at 1.
    rewrite (try_download_titled _ username password (token_at i)
               (fst p) (snd p) rest [] out s Hout Htok).
    rewrite Hok.
    set (first := token_events username password out ++ _).
    destruct (IH (S i) (add_events s first)) as (new & Hrun & Hnew).
    { intros j Hj. replace (S i + j) with (i + S j) by lia.
      apply Hgrant. simpl. lia. }
    exists (first ++ new). split.
    + rewrite Hrun. by rewrite add_events_app.
    + rewrite List.filter_app, Hnew. subst first.
      rewrite List.filter_app, network_token_events.
      unfold transfer_events. rewrite Hok. reflexivity.
Qed.

(** X22.  A result list as the search writes it, for entries without
    separator or line break in them, and a credential file with a login
    and a password: when the commands of every first try succeed,
    [download] returns, and the command lines it handed to the shell are,
    for each entry in file order, the token command with the login and
    the password between double quotes, followed by the transfer command
    [curl <url>?token=<token of this entry> -o <path> -s] with the path
    made of the output path and the last segment of the title followed by
    [.zip].  No header is probed, and a token is used for one entry
    only.  What the shell makes of a command line is not stated. *)
Theorem download_one_token_and_one_transfer_per_entry
  (w : world) (s : state)
  (credential_path credential result_path username password : string)
  (rest : list string) (token_at : nat -> string)
  (entries : list (string * string)) :
  hrsi_credential s = Some credential_path ->
  files s !! credential_path = Some credential ->
  credentials_of credential = username :: password :: rest ->
  result_file s = Some result_path ->
  files s !! result_path = Some (serialize entries) ->
  Forall (fun p => line_safe (fst p) (snd p) = true) entries ->
  (forall j, j < length entries -> grants (curl w j 0) (token_at j)) ->
  exists new,
    download w s = (Ok tt, add_events s new)
    /\ List.filter is_network new
       = traffic username password (outputPath s) token_at 0 entries.
Proof.
  intros Hc Hcf Hcred Hr Hrf Hsafe Hgrant.
  rewrite (download_run w s _ _ _ _ Hc Hcf Hr Hrf), Hcred.
  rewrite parse_serialize by assumption.
  by apply for_products_titled.
Qed.

Lemma download_one_token_and_one_transfer_per_entry_witness :
  exists new,
    download quiet_world (download_state two_products)
    = (Ok tt, add_events (download_state two_products) new)
    /\ List.filter is_network new
       = [TokenCall (token_line "login" "password");
          TransferCall "curl u1?token=TOK -o /out/t1.zip -s";
          TokenCall (token_line "login" "password");
          TransferCall "curl u2?token=TOK -o /out/t2.zip -s"].
Proof.
  apply (download_one_token_and_one_transfer_per_entry quiet_world
           (download_state two_products) "/auth.txt"
           ("login:password" +:+ String Text.LF "") "/out/result_file.txt"
           "login" "password" [] (fun _ => "TOK") [("u1", "t1"); ("u2", "t2")]);
    try reflexivity.
  - by_compute.
  - intros j _. by exists [("access_token", "TOK")].
Defined.

(** ** Query and download in one run *)




(** ** The credential file *)

Lemma split_go_first (c : ascii) (u rest : string) :
  all_chars (fun a => negb (Ascii.eqb a c)) u = true ->
  Text.split_go (String c "") 0 (u +:+ String c rest)
  = u :: Text.split_go (String c "") 0 rest.
Proof.
  induction u as [|a u IH].
  - intros _. rewrite sapp_nil. cbn [Text.split_go].
    rewrite prefix_char, Ascii.eqb_refl. reflexivity.
  - intros [Ha Hu]%andb_prop. apply negb_true_iff in Ha.
    rewrite sapp_cons. cbn [Text.split_go].
    rewrite prefix_char, Ha. by rewrite IH.
Qed.

Lemma login_chars (s : string) :
  all_chars login_char s = true ->
  all_chars (fun a => negb (Ascii.eqb a COLON)) s = true
  /\ all_chars line_char s = true.
Proof.
  intros Hs. split; (eapply all_chars_weaken; [|exact Hs]);
    unfold login_char, line_char; intros c [[? ?]%andb_prop ?]%andb_prop;
    [assumption | by apply andb_true_intro].
Qed.

Lemma line_chars (s : string) :
  all_chars line_char s = true ->
  all_chars (fun a => negb (Ascii.eqb a Text.LF)) s = true
  /\ all_chars (fun a => negb (Ascii.eqb a Text.CR)) s = true.
Proof.
  intros Hs. split; (eapply all_chars_weaken; [|exact Hs]);
    unfold line_char; by intros c [? ?]%andb_prop.
Qed.

Lemma credentials_of_line (login password tail : string) :
  all_chars login_char login = true ->
  all_chars login_char password = true ->
  all_chars line_char tail = true ->
  credentials_of (credential_line login password tail)
  = login :: password :: Text.split ":" (Text.rstrip tail).
Proof.
  intros [Hl Hl']%login_chars [Hp Hp']%login_chars Ht.
  set (line := login +:+ String COLON (password +:+ String COLON tail)).
  assert (Hline : all_chars line_char line = true).
  { subst line. rewrite all_chars_app, Hl'. cbn [all_chars andb].
    rewrite all_chars_app, Hp'. cbn [all_chars andb]. by rewrite Ht. }
  destruct (line_chars line Hline) as [HLF HCR].
  assert (Hcontent : credential_line login password tail
                     = line +:+ String Text.LF "").
  { subst line. unfold credential_line.
    by rewrite !sapp_assoc, !sapp_cons, !sapp_assoc, !sapp_cons. }
  unfold credentials_of, Text.readline, Text.readlines.
  rewrite Hcontent.
  rewrite universal_newlines_id
    by (rewrite all_chars_app, HCR; reflexivity).
  rewrite lines_first by assumption. cbn [hd Text.lines].
  rewrite rstrip_space_end by reflexivity.
  subst line.
  assert (Hend : Text.rstrip (String COLON (password +:+ String COLON tail))
                 = String COLON (password +:+ String COLON (Text.rstrip tail))).
  { rewrite rstrip_cons by reflexivity. f_equal.
    rewrite rstrip_after; rewrite rstrip_cons by reflexivity;
      [reflexivity | discriminate]. }
  rewrite rstrip_after; rewrite Hend; [|discriminate].
  unfold Text.split.
  change ":" with (String COLON "").
  rewrite split_go_first by assumption.
  rewrite split_go_first by assumption.
  reflexivity.
Qed.

(** X24.  The first line of the credential file is cut at every colon and
    the token command takes the first two parts: when the line reads
    [login:password:tail], the command line handed to the shell has the
    login between the double quotes after [username=] and, between the
    double quotes after [password=], the text between the first and the
    second colon, both as they are; what follows the second colon is not
    in the command line.  It is the only command of [__get_token__]. *)
Theorem password_ends_at_second_colon
  (r : curl_replies) (login password tail : string) (s : state) :
  all_chars login_char login = true ->
  all_chars login_char password = true ->
  all_chars line_char tail = true ->
  exists new,
    events (snd (get_token r (credentials_of (credential_line login password tail)) s))
    = events s
      ++ TokenCall
           ("curl -s -d " +:+ DQ +:+ "client_id=PUBLIC" +:+ DQ
            +:+ " -d " +:+ DQ +:+ "username=" +:+ login +:+ DQ
            +:+ " -d " +:+ DQ +:+ "password=" +:+ password +:+ DQ
            +:+ " -d " +:+ DQ +:+ "grant_type=password" +:+ DQ
            +:+ " " +:+ DQ
            +:+ "https://cryo.land.copernicus.eu/auth/realms/cryo/protocol/openid-connect/token"
            +:+ DQ)
         :: new
    /\ List.filter is_network new = [].
Proof.
  intros Hl Hp Ht. rewrite credentials_of_line by assumption.
  unfold get_token, bind, emit, logging, emit, ret, raise.
  rewrite token_command_line. fold (token_line login password).
  destruct (token_out r) as [out|]; [|by exists []].
  destruct (bool_decide _), (dict_get "access_token" out); simpl;
    rewrite <- ?app_assoc; by eexists.
Qed.

Lemma password_ends_at_second_colon_witness :
  exists new,
    events (snd (get_token token_granted
                   (credentials_of (credential_line "login" "pass" "word")) query_state))
    = events query_state ++ TokenCall (token_line "login" "pass") :: new
    /\ List.filter is_network new = [].
Proof.
  apply (password_ends_at_second_colon token_granted "login" "pass" "word"
           query_state); reflexivity.
Defined.

(** ** Runs that stop early *)

(** X25.  A run in download mode without a result file and with a
    credential file that can be read does not stop at the missing
    argument: it reports it, configures the credential, announces the
    download, reads the credential file, reports the missing result file
    a second time and only then exits with code -2, leaving the disk as
    it was. *)
Theorem download_mode_without_result_file
  (fuel : nat) (w : world) (args : arguments) (disk : gmap string string)
  (credential_path credential : string) :
  run_mode args = Download ->
  truthy (arg_result_file args) = None ->
  hrsi_credentials args = Some credential_path ->
  disk !! credential_path = Some credential ->
  exists s,
    main fuel w args disk = Some (Raise (SystemExit (-2)), s)
    /\ events s
       = events (init w (output_dir args) disk)
         ++ [Log ERROR NoResultFileGiven;
             Log INFO (CredentialWillBeUsed (Some credential_path));
             Log INFO StartDownloading;
             Log ERROR NoResultFile]
    /\ files s = disk.
Proof.
  intros Hmode Hfile Hcp Hdisk.
  unfold main, main_body. rewrite Hmode, Hfile, Hcp. cbv iota.
  unfold rbind at 1, lift at 1, ret at 1. cbv beta iota.
  rewrite three_lifted_steps.
  unfold download, try_except, read_file, set_hrsi_credential, bind, logging,
    emit, get_state, sys_exit, raise, ret.
  cbn [files hrsi_credential result_file add_events init].
  rewrite Hdisk. cbn [files hrsi_credential result_file add_events init].
  eexists. split; [reflexivity|]. split; [|reflexivity].
  unfold add_events. cbn [events]. by rewrite <- !app_assoc.
Qed.

Lemma download_mode_without_result_file_witness :
  exists s,
    main 0 quiet_world (download_only (Some "/auth.txt") None) sample_disk
    = Some (Raise (SystemExit (-2)), s)
    /\ events s
       = events (init quiet_world "/out" sample_disk)
         ++ [Log ERROR NoResultFileGiven;
             Log INFO (CredentialWillBeUsed (Some "/auth.txt"));
             Log INFO StartDownloading;
             Log ERROR NoResultFile]
    /\ files s = sample_disk.
Proof.
  apply (download_mode_without_result_file 0 quiet_world
           (download_only (Some "/auth.txt") None) sample_disk "/auth.txt"
           ("login:password" +:+ String Text.LF "")); reflexivity.
Defined.

(** X26.  A file that [download] cannot open is not a usage error: when
    the credential file is missing, or it is there and the result list is
    missing, the error of [open] is raised again after one error record
    that names the file, the exit with code -2 written after the [raise]
    is never reached, and nothing else has happened. *)
Theorem download_reraises_when_a_file_is_missing
  (w : world) (s : state) (credential_path : string) :
  hrsi_credential s = Some credential_path ->
  (files s !! credential_path = None
   \/ exists result_path,
        is_Some (files s !! credential_path)
        /\ result_file s = Some result_path
        /\ files s !! result_path = None) ->
  exists path,
    download w s = (Raise OSError, add_events s [Log ERROR path])
    /\ (files s !! credential_path = None ->
        path = CredentialParseError credential_path)
    /\ (is_Some (files s !! credential_path) ->
        exists result_path,
          result_file s = Some result_path
          /\ path = ResultFileParseError result_path).
Proof.
  intros Hc Hmissing.
  unfold download, try_except, read_file, bind, logging, emit, get_state,
    raise, ret.
  rewrite Hc.
  destruct Hmissing as [Hcf | (result_path & [credential Hcf] & Hr & Hrf)].
  - rewrite Hcf. eexists. split; [reflexivity|].
    split; [reflexivity|]. intros [? ?]. congruence.
  - rewrite Hcf, Hr, Hrf. eexists. split; [reflexivity|].
    split; [congruence|]. intros _. by exists result_path.
Qed.

Lemma download_reraises_when_a_file_is_missing_witness :
  exists path,
    download quiet_world (State "/out" None (Some "/auth.txt") (Some "/gone.txt")
                            sample_disk [])
    = (Raise OSError,
       add_events (State "/out" None (Some "/auth.txt") (Some "/gone.txt")
                     sample_disk []) [Log ERROR path])
    /\ path = ResultFileParseError "/gone.txt".
Proof.
  destruct (download_reraises_when_a_file_is_missing quiet_world
              (State "/out" None (Some "/auth.txt") (Some "/gone.txt")
                 sample_disk []) "/auth.txt" eq_refl)
    as (path & Hrun & _ & Hpath).
  - right. exists "/gone.txt". split; [by eexists | by split].
  - exists path. split; [exact Hrun|].
    destruct Hpath as (result_path & Hr & ->); [by eexists|].
    by injection Hr as <-.
Defined.



(** ** An error status of the catalogue *)

(** X28.  When the catalogue answers a page with an error status, the
    body is not read, whatever it is: the page is handled as an answer
    without features, and [request_page] raises [NameError] for
    [url_params_page] after the request, with no error record.  Such a
    page never counts as an empty page that ends the search. *)
Theorem error_status_is_not_an_empty_page
  (fuel : nat) (w : world) (http_request : string) (ceiling : option Z)
  (body : option json) (s : state) :
  hrsi_http_request s = Some http_request ->
  catalogue w 1 = Response false body ->
  first_exit_condition ceiling 0 = false ->
  request_page w http_request 1 s
  = (Raise (NameError "url_params_page"),
     add_events s (page_events http_request 1))
  /\ (1 <= fuel ->
      exists s',
        execute_request fuel w ceiling s
        = Some (Raise (NameError "url_params_page"), s')
        /\ List.filter is_error_log (events s')
           = List.filter is_error_log (events s)
        /\ files s' = files s).
Proof.
  intros Hq Hcat Hceil.
  assert (Hpage : forall s0,
            request_page w http_request 1 s0
            = (Raise (NameError "url_params_page"),
               add_events s0 (page_events http_request 1))).
  { intros s0. apply (request_page_missing_features w http_request 1 s0 false body);
      [assumption | by left]. }
  split; [apply Hpage|].
  intros Hfuel. destruct fuel as [|fuel]; [lia|].
  unfold execute_request, rbind, lift, get_state. rewrite Hq.
  unfold logging, emit. cbn [page_loop]. rewrite Hceil.
  unfold rbind, lift. cbn [Nat.add]. rewrite Hpage.
  eexists. split; [reflexivity|]. split; [|reflexivity].
  unfold add_events, page_events. cbn [events].
  rewrite !List.filter_app. simpl. by rewrite !app_nil_r.
Qed.

Lemma error_status_is_not_an_empty_page_witness :
  request_page world_error_status sample_query 1 query_state
  = (Raise (NameError "url_params_page"),
     add_events query_state (page_events sample_query 1))
  /\ exists s',
       execute_request 1 world_error_status None query_state
       = Some (Raise (NameError "url_params_page"), s')
       /\ List.filter is_error_log (events s')
          = List.filter is_error_log (events query_state)
       /\ files s' = files query_state.
Proof.
  destruct (error_status_is_not_an_empty_page 1 world_error_status sample_query
              None (Some (JObj [("features", JArr [])])) query_state
              eq_refl eq_refl eq_refl) as [Hpage Hrun].
  split; [exact Hpage | apply Hrun; lia].
Defined.
